(** * dvc: command-line surface and [data status] command

    A shallow embedding of [dvc/cli.py] ([parse_args]) and of
    [dvc/commands/data.py] ([CmdDataStatus], [add_parser]), together with
    the part of Python's [argparse] the two files rely on.  The
    components the CLI hands over to (hasher, dependency graph,
    reproduction engine, garbage collector, transfer manager) are not
    among the sources and are not modelled. *)

From Stdlib Require Import ZArith String Ascii List Bool Lia.
From stdpp Require Import base option list gmap strings.
Import ListNotations.
Local Open Scope string_scope.
Local Open Scope list_scope.
Set Warnings "-register-all".

(** ** Python basics shared by the modules below *)

Module Py.

(** A computation that either returns or raises. *)
Inductive Res (E A : Type) : Type :=
| Ok (a : A)
| Raise (e : E).
Arguments Ok {E A} a.
Arguments Raise {E A} e.

Definition bind {E A B} (m : Res E A) (k : A -> Res E B) : Res E B :=
  match m with
  | Ok a => k a
  | Raise e => Raise e
  end.

Definition is_ok {E A} (m : Res E A) : bool :=
  match m with Ok _ => true | Raise _ => false end.

(** [s.startswith(p)] *)
Definition startswith (s p : string) : bool := String.prefix p s.

(** [c in s] for a single character. *)
Fixpoint contains_char (c : ascii) (s : string) : bool :=
  match s with
  | EmptyString => false
  | String d s' => Ascii.eqb c d || contains_char c s'
  end.

(** [s.lstrip(c)] for a single stripped character. *)
Fixpoint lstrip (c : ascii) (s : string) : string :=
  match s with
  | String d s' => if Ascii.eqb c d then lstrip c s' else s
  | EmptyString => EmptyString
  end.

(** [s.replace(a, b)] for single characters. *)
Fixpoint replace_char (a b : ascii) (s : string) : string :=
  match s with
  | EmptyString => EmptyString
  | String d s' =>
      String (if Ascii.eqb a d then b else d) (replace_char a b s')
  end.

Definition is_digit (c : ascii) : bool :=
  let n := nat_of_ascii c in Nat.leb 48 n && Nat.leb n 57.

Fixpoint all_digits (s : string) : bool :=
  match s with
  | EmptyString => true
  | String c s' => is_digit c && all_digits s'
  end.

Fixpoint digits_value (acc : Z) (s : string) : Z :=
  match s with
  | EmptyString => acc
  | String c s' =>
      digits_value (10 * acc + (Z.of_nat (nat_of_ascii c) - 48))%Z s'
  end.

(** A character of a string beyond ASCII: a byte of a UTF-8 sequence. *)
Fixpoint has_non_ascii (s : string) : bool :=
  match s with
  | EmptyString => false
  | String c s' => Nat.ltb 127 (nat_of_ascii c) || has_non_ascii s'
  end.

(** The blanks [int] skips at both ends of an ASCII string: space, tab,
    line feed, vertical tab, form feed and carriage return. *)
Definition is_space (c : ascii) : bool :=
  let n := nat_of_ascii c in
  Nat.eqb n 32 || (Nat.leb 9 n && Nat.leb n 13).

Fixpoint lstrip_space (s : string) : string :=
  match s with
  | String c s' => if is_space c then lstrip_space s' else s
  | EmptyString => EmptyString
  end.

Fixpoint rstrip_space (s : string) : string :=
  match s with
  | EmptyString => EmptyString
  | String c s' =>
      match rstrip_space s' with
      | EmptyString => if is_space c then EmptyString else String c EmptyString
      | r => String c r
      end
  end.

(** The digits of a run of decimal digits in which single underscores
    may stand between two digits; [None] for anything else. *)
Fixpoint digit_groups (after_digit : bool) (s : string) : option string :=
  match s with
  | EmptyString => if after_digit then Some EmptyString else None
  | String c s' =>
      if is_digit c then option_map (String c) (digit_groups true s')
      else if Ascii.eqb c "_" then
        if after_digit then digit_groups false s' else None
      else None
  end.

(** [sys.get_int_max_str_digits()], as CPython sets it by default. *)
Definition int_max_str_digits : nat := 4300.

(** [int(s)] for an ASCII string: blanks at both ends are skipped, then
    an optional sign and decimal digits (single underscores between
    digits allowed) yield the value, unless there are more digits than
    [int_max_str_digits]; any other ASCII string raises [ValueError].
    Strings with characters beyond ASCII, where the Unicode database
    decides what is a digit or a blank, are left undecided. *)
Inductive IntLiteral : Type :=
| IntValue (z : Z)
| IntInvalid
| IntUndecided.

Definition int_literal (s : string) : IntLiteral :=
  if has_non_ascii s then IntUndecided
  else
    let t := rstrip_space (lstrip_space s) in
    let '(negative, body) :=
      match t with
      | String "-" b => (true, b)
      | String "+" b => (false, b)
      | _ => (false, t)
      end in
    match digit_groups false body with
    | Some ds =>
        if Nat.ltb int_max_str_digits (String.length ds) then IntInvalid
        else IntValue (if negative then - digits_value 0 ds
                       else digits_value 0 ds)
    | None => IntInvalid
    end.

End Py.

Notation "'do' x <- m ; k" := (Py.bind m (fun x => k))
  (at level 10, x name, m at level 100, k at level 200,
   format "'[v' 'do'  x  <-  m ; '/' k ']'").
Notation "'do' ' p <- m ; k" := (Py.bind m (fun x => let 'p := x in k))
  (at level 10, p pattern, m at level 100, k at level 200,
   format "'[v' 'do'  ' p  <-  m ; '/' k ']'").

(** ** The part of [argparse] used by the command-line front ends

    The model follows CPython 3's [argparse]: the construction calls
    ([ArgumentParser], [add_argument], [set_defaults], [add_subparsers],
    [add_parser]) and [parse_args] with its interleaving of option strings
    and positionals.  Help texts, metavars and usage formatting are left
    out.  Argument strings that would need option abbreviation, an
    attached value ([--opt=value], [-ovalue], clustered short flags) or the
    [--] separator are answered with [NotModelled] instead of a guess. *)

Module Argparse.
Import Py.

Inductive Value : Type :=
| VNone
| VBool (b : bool)
| VInt (z : Z)
| VStr (s : string)
| VList (l : list Value)
| VClass (qualname : string).

Inductive Nargs : Type :=
| NargsNone      (* nargs=None: exactly one argument *)
| NargsZero      (* flags: store_true, help, version *)
| Optional       (* '?' *)
| ZeroOrMore     (* '*' *)
| OneOrMore      (* '+' *)
| Remainder.     (* argparse.REMAINDER *)

Inductive ActionKind : Type :=
| Store
| StoreTrue
| Append
| HelpAction
| VersionAction (version : string).

Inductive ArgType : Type :=
| TypeNone       (* the argument string is kept as it is *)
| TypeInt.       (* type=int *)

(** [a_default = None] stands for [argparse.SUPPRESS]. *)
Record Action : Type := MkAction {
  a_option_strings : list string;
  a_dest : string;
  a_kind : ActionKind;
  a_nargs : Nargs;
  a_const : Value;
  a_default : option Value;
  a_type : ArgType;
  a_choices : option (list string);
  a_required : bool
}.

Inductive UsageError : Type :=
| unrecognized_arguments (args : list string)
| invalid_choice (value : string)
| expected_one_argument (dest : string)
| expected_at_least_one_argument (dest : string)
| invalid_value (value : string)
| required_arguments (dests : list string)
| multiple_subparsers.

Inductive Printed : Type :=
| PrintedHelp
| PrintedVersion (version : string)
| PrintedUsage (err : UsageError).

Inductive Exc : Type :=
| ArgumentError (conflicting : string)
| ValueError (what : string)
| SystemExit (status : Z) (out : Printed)
| NotModelled.

Definition error {A} (e : UsageError) : Res Exc A :=
  Raise (SystemExit 2%Z (PrintedUsage e)).

(** The subparsers action of a parser: [dest] ([None] when suppressed) and
    the [required] attribute. *)
Record SubSpec : Type := MkSubSpec {
  sub_dest : option string;
  sub_required : bool
}.

(** A parser object: its actions in the order they were added, the
    parser-level defaults of [set_defaults], and the subparsers action
    with its name-to-parser map (kept in insertion order). *)
Inductive Parser : Type :=
| MkParser (actions : list Action)
           (defaults : gmap string Value)
           (subparsers : option SubSpec)
           (name_parser_map : list (string * Parser)).

Definition p_actions (p : Parser) : list Action :=
  match p with MkParser a _ _ _ => a end.
Definition p_defaults (p : Parser) : gmap string Value :=
  match p with MkParser _ d _ _ => d end.
Definition p_subparsers (p : Parser) : option SubSpec :=
  match p with MkParser _ _ s _ => s end.
Definition p_name_parser_map (p : Parser) : list (string * Parser) :=
  match p with MkParser _ _ _ m => m end.

(** *** Building parsers *)

Definition all_option_strings (acts : list Action) : list string :=
  flat_map a_option_strings acts.

Definition mem (s : string) (l : list string) : bool :=
  existsb (String.eqb s) l.

(** [_add_action] with [conflict_handler='error']. *)
Definition add_action (a : Action) (p : Parser) : Res Exc Parser :=
  match find (fun o => mem o (all_option_strings (p_actions p)))
             (a_option_strings a) with
  | Some o => Raise (ArgumentError o)
  | None =>
      Ok (MkParser (p_actions p ++ [a]) (p_defaults p)
                   (p_subparsers p) (p_name_parser_map p))
  end.

Fixpoint add_actions (acts : list Action) (p : Parser) : Res Exc Parser :=
  match acts with
  | [] => Ok p
  | a :: acts' => do p' <- add_action a p; add_actions acts' p'
  end.

Definition help_action : Action :=
  {| a_option_strings := ["-h"; "--help"]; a_dest := "help";
     a_kind := HelpAction; a_nargs := NargsZero; a_const := VNone;
     a_default := None; a_type := TypeNone; a_choices := None;
     a_required := false |}.

Definition empty_parser : Parser := MkParser [] ∅ None [].

Fixpoint add_parents (parents : list Parser) (p : Parser)
  : Res Exc Parser :=
  match parents with
  | [] => Ok p
  | parent :: parents' =>
      match p_subparsers parent with
      | Some _ => Raise NotModelled
      | None =>
          do p1 <- add_actions (p_actions parent) p;
          add_parents parents'
            (MkParser (p_actions p1) (p_defaults parent ∪ p_defaults p1)
                      (p_subparsers p1) (p_name_parser_map p1))
      end
  end.

(** [argparse.ArgumentParser(parents=..., add_help=...)] *)
Definition ArgumentParser (parents : list Parser) (add_help : bool)
  : Res Exc Parser :=
  do p0 <- (if add_help then add_action help_action empty_parser
            else Ok empty_parser);
  add_parents parents p0.

(** Keyword arguments of [add_argument]. *)
Inductive Kw : Type :=
| action_ (name : string)
| default_ (v : Value)
| type_int
| nargs_ (n : Nargs)
| const_ (v : Value)
| choices_ (l : list string)
| dest_ (d : string)
| version_ (text : string).

Definition kw_action (kws : list Kw) : option string :=
  head (omap (fun k => match k with action_ n => Some n | _ => None end) kws).
Definition kw_default (kws : list Kw) : option Value :=
  head (omap (fun k => match k with default_ v => Some v | _ => None end) kws).
Definition kw_type (kws : list Kw) : ArgType :=
  if existsb (fun k => match k with type_int => true | _ => false end) kws
  then TypeInt else TypeNone.
Definition kw_nargs (kws : list Kw) : option Nargs :=
  head (omap (fun k => match k with nargs_ n => Some n | _ => None end) kws).
Definition kw_const (kws : list Kw) : option Value :=
  head (omap (fun k => match k with const_ v => Some v | _ => None end) kws).
Definition kw_choices (kws : list Kw) : option (list string) :=
  head (omap (fun k => match k with choices_ l => Some l | _ => None end) kws).
Definition kw_dest (kws : list Kw) : option string :=
  head (omap (fun k => match k with dest_ d => Some d | _ => None end) kws).
Definition kw_version (kws : list Kw) : option string :=
  head (omap (fun k => match k with version_ t => Some t | _ => None end) kws).

Definition is_flag (s : string) : bool :=
  match s with String "-" _ => true | _ => false end.

Definition is_long_flag (s : string) : bool :=
  match s with String "-" (String "-" _) => true | _ => false end.

(** The [dest] derived from the option strings: the first long option,
    else the first option, with the leading dashes stripped and the
    remaining dashes turned into underscores. *)
Definition dest_of_flags (flags : list string) : string :=
  let dest_option_string :=
    match filter (fun o => Is_true (is_long_flag o)) flags with
    | o :: _ => o
    | [] => hd "" flags
    end in
  replace_char "-" "_" (lstrip "-" dest_option_string).

Definition add_argument (flags : list string) (kws : list Kw) (p : Parser)
  : Res Exc Parser :=
  let positional :=
    match flags with
    | [] => true
    | [f] => negb (is_flag f)
    | _ => false
    end in
  do ' (opts, dest, required) <-
    (if positional then
       match flags, kw_dest kws with
       | _ :: _, Some _ =>
           Raise (ValueError "dest supplied twice for positional argument")
       | [], None => Raise (ValueError "dest required")
       | [], Some d | [d], None | d :: _, None =>
           let required :=
             match kw_nargs kws with
             | Some Optional => false
             | Some ZeroOrMore =>
                 match kw_default kws with Some _ => false | None => true end
             | _ => true
             end in
           Ok ([], d, required)
       end
     else if forallb is_flag flags then
       let d := match kw_dest kws with
                | Some d => d
                | None => dest_of_flags flags
                end in
       if String.eqb d "" then Raise (ValueError "dest= is required")
       else Ok (flags, d, false)
     else Raise (ValueError "invalid option string"));
  let default :=
    match kw_default kws with
    | Some v => Some v
    | None => p_defaults p !! dest
    end in
  do a <-
    match kw_action kws with
    | None | Some "store" =>
        match kw_nargs kws with
        | Some NargsZero => Raise (ValueError "nargs for store actions must be > 0")
        | n =>
            Ok (MkAction opts dest Store (from_option id NargsNone n)
                  (from_option id VNone (kw_const kws))
                  (Some (from_option id VNone default))
                  (kw_type kws) (kw_choices kws) required)
        end
    | Some "store_true" =>
        Ok (MkAction opts dest StoreTrue NargsZero (VBool true)
              (Some (from_option id (VBool false) default))
              TypeNone None required)
    | Some "append" =>
        match kw_nargs kws with
        | Some NargsZero => Raise (ValueError "nargs for append actions must be > 0")
        | n =>
            Ok (MkAction opts dest Append (from_option id NargsNone n)
                  (from_option id VNone (kw_const kws))
                  (Some (from_option id VNone default))
                  (kw_type kws) (kw_choices kws) required)
        end
    | Some "help" =>
        Ok (MkAction opts dest HelpAction NargsZero VNone default
              TypeNone None false)
    | Some "version" =>
        Ok (MkAction opts dest (VersionAction (from_option id "" (kw_version kws)))
              NargsZero VNone default TypeNone None false)
    | Some _ => Raise (ValueError "unknown action")
    end;
  add_action a p.

(** [parser.set_defaults(k=v, ...)]: updates the parser-level defaults and
    the default of every action already registered under such a dest. *)
Definition set_defaults (kvs : list (string * Value)) (p : Parser) : Parser :=
  let kv : gmap string Value := list_to_map (reverse kvs) in
  MkParser
    (map (fun a =>
            match kv !! a_dest a with
            | Some v =>
                MkAction (a_option_strings a) (a_dest a) (a_kind a)
                         (a_nargs a) (a_const a) (Some v) (a_type a)
                         (a_choices a) (a_required a)
            | None => a
            end) (p_actions p))
    (kv ∪ p_defaults p) (p_subparsers p) (p_name_parser_map p).

(** [parser.add_subparsers(dest=...)] *)
Definition add_subparsers (dest : option string) (p : Parser)
  : Res Exc Parser :=
  match p_subparsers p with
  | Some _ => error multiple_subparsers
  | None =>
      Ok (MkParser (p_actions p) (p_defaults p)
                   (Some (MkSubSpec dest false)) [])
  end.

(** Assignments to attributes of the subparsers action. *)
Definition set_sub_required (b : bool) (p : Parser) : Parser :=
  MkParser (p_actions p) (p_defaults p)
           (option_map (fun s => MkSubSpec (sub_dest s) b) (p_subparsers p))
           (p_name_parser_map p).
Definition set_sub_dest (d : string) (p : Parser) : Parser :=
  MkParser (p_actions p) (p_defaults p)
           (option_map (fun s => MkSubSpec (Some d) (sub_required s))
                       (p_subparsers p))
           (p_name_parser_map p).

(** Assignment [d[k] = v] on an insertion-ordered dict. *)
Fixpoint dict_set {A} (k : string) (v : A) (d : list (string * A))
  : list (string * A) :=
  match d with
  | [] => [(k, v)]
  | (k', v') :: d' =>
      if String.eqb k k' then (k, v) :: d' else (k', v') :: dict_set k v d'
  end.

Fixpoint dict_get {A} (k : string) (d : list (string * A)) : option A :=
  match d with
  | [] => None
  | (k', v) :: d' => if String.eqb k k' then Some v else dict_get k d'
  end.

(** [subparsers.add_parser(name, ...)] registering the parser [sub] that
    the call creates; [p] is the parser owning the subparsers action. *)
Definition add_parser (name : string) (sub : Parser) (p : Parser)
  : Res Exc Parser :=
  match p_subparsers p with
  | None => Raise NotModelled
  | Some s =>
      Ok (MkParser (p_actions p) (p_defaults p) (Some s)
                   (dict_set name sub (p_name_parser_map p)))
  end.

(** *** Parsing *)

Abbreviation Namespace := (gmap string Value).

(** How [_parse_known_args] sees an argument string: ['A'] (an argument)
    or ['O'] (an option string, with the action it names if any). *)
Inductive Token : Type :=
| TokA
| TokO (target : option (nat * Action)).

Definition option_table (acts : list Action)
  : list (string * (nat * Action)) :=
  flat_map (fun ia => map (fun o => (o, ia)) (a_option_strings (snd ia)))
           (combine (seq 0 (length acts)) acts).

Fixpoint skip_digits (s : string) : string :=
  match s with
  | String c s' => if is_digit c then skip_digits s' else s
  | EmptyString => EmptyString
  end.

(** [s] without one line feed at its end: where [$] matches. *)
Fixpoint before_final_newline (s : string) : string :=
  match s with
  | EmptyString => EmptyString
  | String c EmptyString =>
      if Nat.eqb (nat_of_ascii c) 10 then EmptyString else s
  | String c s' => String c (before_final_newline s')
  end.

(** [_negative_number_matcher]: [^-\d+$|^-\d*\.\d+$], on ASCII strings;
    [$] also matches before a line feed that ends the string. *)
Definition negative_number (s : string) : bool :=
  match before_final_newline s with
  | String "-" r =>
      match skip_digits r with
      | EmptyString => negb (String.eqb r "")
      | String "." d => negb (String.eqb d "") && all_digits d
      | _ => false
      end
  | _ => false
  end.

(** [_parse_optional] *)
Definition parse_optional (table : list (string * (nat * Action)))
           (arg_string : string) : Res Exc Token :=
  if String.eqb arg_string "" then Ok TokA
  else if negb (is_flag arg_string) then Ok TokA
  else
    match dict_get arg_string table with
    | Some ia => Ok (TokO (Some ia))
    | None =>
        if Nat.eqb (String.length arg_string) 1 then Ok TokA
        else if String.eqb arg_string "--" then Raise NotModelled
        else if contains_char "=" arg_string then Raise NotModelled
        else if has_non_ascii arg_string then Raise NotModelled
        else if existsb
                  (fun o => startswith o arg_string
                            || String.eqb o (substring 0 2 arg_string))
                  (map fst table)
             then Raise NotModelled
        else if negative_number arg_string
                && negb (existsb negative_number (map fst table))
             then Ok TokA
        else if contains_char " " arg_string then Ok TokA
        else Ok (TokO None)
    end.

Fixpoint classify (table : list (string * (nat * Action)))
         (args : list string) : Res Exc (list Token) :=
  match args with
  | [] => Ok []
  | a :: args' =>
      do t <- parse_optional table a;
      do ts <- classify table args';
      Ok (t :: ts)
  end.

(** A positional still to be consumed: an ordinary positional action
    (with its index among the parser's actions) or the subparsers
    action. *)
Inductive PosRef : Type :=
| PosArg (i : nat) (a : Action)
| PosSub (s : SubSpec).

Record PState : Type := MkPState {
  st_ns : Namespace;
  st_seen : list nat;
  st_sub_seen : bool;
  st_pos : list PosRef;
  st_extras : list string;
  st_sub_extras : list string
}.

Definition with_ns (ns : Namespace) (st : PState) : PState :=
  MkPState ns (st_seen st) (st_sub_seen st) (st_pos st) (st_extras st)
           (st_sub_extras st).
Definition with_seen (i : nat) (st : PState) : PState :=
  MkPState (st_ns st) (i :: st_seen st) (st_sub_seen st) (st_pos st)
           (st_extras st) (st_sub_extras st).
Definition with_pos (ps : list PosRef) (st : PState) : PState :=
  MkPState (st_ns st) (st_seen st) (st_sub_seen st) ps (st_extras st)
           (st_sub_extras st).
Definition add_extras (l : list string) (st : PState) : PState :=
  MkPState (st_ns st) (st_seen st) (st_sub_seen st) (st_pos st)
           (st_extras st ++ l) (st_sub_extras st).

(** [_get_value]: the [type] conversion of one argument string. *)
Definition get_value (a : Action) (arg_string : string) : Res Exc Value :=
  match a_type a with
  | TypeNone => Ok (VStr arg_string)
  | TypeInt =>
      match int_literal arg_string with
      | IntValue z => Ok (VInt z)
      | IntInvalid => error (invalid_value arg_string)
      | IntUndecided => Raise NotModelled
      end
  end.

(** [_check_value] *)
Definition check_value (a : Action) (v : Value) : Res Exc Value :=
  match a_choices a with
  | None => Ok v
  | Some l =>
      match v with
      | VStr s => if mem s l then Ok v else error (invalid_choice s)
      | _ => Raise NotModelled
      end
  end.

Fixpoint get_value_list (a : Action) (args : list string)
  : Res Exc (list Value) :=
  match args with
  | [] => Ok []
  | s :: args' =>
      do v <- get_value a s;
      do vs <- get_value_list a args';
      Ok (v :: vs)
  end.

Fixpoint check_value_list (a : Action) (vs : list Value)
  : Res Exc (list Value) :=
  match vs with
  | [] => Ok []
  | v :: vs' =>
      do v' <- check_value a v;
      do vs'' <- check_value_list a vs';
      Ok (v' :: vs'')
  end.

(** [_get_values] *)
Definition get_values (a : Action) (arg_strings : list string)
  : Res Exc Value :=
  let positional :=
    match a_option_strings a with [] => true | _ => false end in
  match arg_strings, a_nargs a with
  | [], Optional =>
      match (if positional then a_default a else Some (a_const a)) with
      | None => Raise NotModelled
      | Some (VStr s) => do v <- get_value a s; check_value a v
      | Some v => Ok v
      end
  | [], ZeroOrMore =>
      if positional then
        match a_default a with
        | None => Raise NotModelled
        | Some VNone => check_value a (VList [])
        | Some d => check_value a d
        end
      else Ok (VList [])
  | [s], NargsNone | [s], Optional =>
      do v <- get_value a s; check_value a v
  | _, Remainder =>
      do vs <- get_value_list a arg_strings; Ok (VList vs)
  | _, _ =>
      do vs <- get_value_list a arg_strings;
      do vs' <- check_value_list a vs;
      Ok (VList vs')
  end.

(** The [__call__] of the action classes. *)
Definition call_action (a : Action) (v : Value) (ns : Namespace)
  : Res Exc Namespace :=
  match a_kind a with
  | Store => Ok (<[a_dest a := v]> ns)
  | StoreTrue => Ok (<[a_dest a := a_const a]> ns)
  | Append =>
      match ns !! a_dest a with
      | None | Some VNone => Ok (<[a_dest a := VList [v]]> ns)
      | Some (VList l) => Ok (<[a_dest a := VList (l ++ [v])]> ns)
      | Some _ => Raise NotModelled
      end
  | HelpAction => Raise (SystemExit 0%Z PrintedHelp)
  | VersionAction t => Raise (SystemExit 0%Z (PrintedVersion t))
  end.

(** [take_action] *)
Definition take_action (i : nat) (a : Action) (arg_strings : list string)
           (st : PState) : Res Exc PState :=
  do v <- get_values a arg_strings;
  do ns <- call_action a v (st_ns st);
  Ok (with_ns ns (with_seen i st)).

(** The name-to-parser map as a subparsers action uses it: every parser
    by the function that runs it. *)
Definition SubCall : Type :=
  list (string * (list string -> Res Exc (Namespace * list string))).

(** [take_action] for a positional, including
    [_SubParsersAction.__call__]: the chosen parser fills a namespace of
    its own, whose attributes are then copied over the outer one. *)
Definition take_pos_action (sub : SubCall) (p : PosRef)
           (arg_strings : list string) (st : PState) : Res Exc PState :=
  match p with
  | PosArg i a => take_action i a arg_strings st
  | PosSub s =>
      match arg_strings with
      | [] => Raise NotModelled
      | parser_name :: rest =>
          match dict_get parser_name sub with
          | None => error (invalid_choice parser_name)
          | Some run =>
              let ns :=
                match sub_dest s with
                | Some d => <[d := VStr parser_name]> (st_ns st)
                | None => st_ns st
                end in
              do ' (subnamespace, unrecognized) <- run rest;
              Ok (MkPState (subnamespace ∪ ns) (st_seen st) true
                           (st_pos st) (st_extras st)
                           (st_sub_extras st ++ unrecognized))
          end
      end
  end.

Definition is_A (t : Token) : bool :=
  match t with TokA => true | TokO _ => false end.

Fixpoint run_A (pattern : list Token) : nat :=
  match pattern with
  | TokA :: r => S (run_A r)
  | _ => 0
  end.

(** [n, n-1, ..., 0] *)
Fixpoint countdown (n : nat) : list nat :=
  match n with
  | 0 => [0]
  | S n' => n :: countdown n'
  end.

(** [hi, hi-1, ..., lo] *)
Definition downto (hi lo : nat) : list nat :=
  List.filter (Nat.leb lo) (countdown hi).

(** The lengths the regular expression of [_get_nargs_pattern] can take
    at the head of [pattern], in the order a greedy match tries them. *)
Definition nargs_candidates (n : Nargs) (pattern : list Token) : list nat :=
  match n with
  | NargsNone => if Nat.leb 1 (run_A pattern) then [1] else []
  | NargsZero => [0]
  | Optional => if Nat.leb 1 (run_A pattern) then [1; 0] else [0]
  | ZeroOrMore => downto (run_A pattern) 0
  | OneOrMore => downto (run_A pattern) 1
  | Remainder => downto (length pattern) 0
  end.

Definition pos_candidates (p : PosRef) (pattern : list Token) : list nat :=
  match p with
  | PosArg _ a => nargs_candidates (a_nargs a) pattern
  | PosSub _ =>
      if Nat.leb 1 (run_A pattern) then downto (length pattern) 1 else []
  end.

(** Matching the concatenated patterns of [ps] at the head of [pattern],
    with backtracking. *)
Fixpoint match_groups (ps : list PosRef) (pattern : list Token)
  : option (list nat) :=
  match ps with
  | [] => Some []
  | p :: ps' =>
      (fix try (cs : list nat) : option (list nat) :=
         match cs with
         | [] => None
         | c :: cs' =>
             match match_groups ps' (drop c pattern) with
             | Some l => Some (c :: l)
             | None => try cs'
             end
         end) (pos_candidates p pattern)
  end.

Fixpoint match_partial_from (i : nat) (ps : list PosRef)
         (pattern : list Token) : list nat :=
  match i with
  | 0 => []
  | S i' =>
      match match_groups (take i ps) pattern with
      | Some l => l
      | None => match_partial_from i' ps pattern
      end
  end.

(** [_match_arguments_partial] *)
Definition match_partial (ps : list PosRef) (pattern : list Token)
  : list nat :=
  match_partial_from (length ps) ps pattern.

(** [_match_argument] for an option string's action. *)
Definition match_argument (a : Action) (pattern : list Token)
  : Res Exc nat :=
  match nargs_candidates (a_nargs a) pattern with
  | c :: _ => Ok c
  | [] =>
      match a_nargs a with
      | OneOrMore => error (expected_at_least_one_argument (a_dest a))
      | _ => error (expected_one_argument (a_dest a))
      end
  end.

Fixpoint take_positionals (sub : SubCall) (ps : list PosRef)
         (counts : list nat) (strings : list string) (st : PState)
  : Res Exc PState :=
  match ps, counts with
  | p :: ps', c :: counts' =>
      do st' <- take_pos_action sub p (take c strings) st;
      take_positionals sub ps' counts' (drop c strings) st'
  | _, _ => Ok st
  end.

(** [consume_positionals]: returns the new state and how many argument
    strings were consumed. *)
Definition consume_positionals (sub : SubCall) (st : PState)
           (rest : list (string * Token)) : Res Exc (PState * nat) :=
  let counts := match_partial (st_pos st) (map snd rest) in
  do st' <- take_positionals sub (st_pos st) counts (map fst rest) st;
  Ok (with_pos (drop (length counts) (st_pos st)) st', sum_list counts).

(** [consume_optional] at an option string [s]: returns the new state and
    the argument strings left after the option and its arguments. *)
Definition consume_optional (st : PState) (s : string)
           (target : option (nat * Action)) (rest : list (string * Token))
  : Res Exc (PState * list (string * Token)) :=
  match target with
  | None => Ok (add_extras [s] st, rest)
  | Some (i, a) =>
      do n <- match_argument a (map snd rest);
      do st' <- take_action i a (take n (map fst rest)) st;
      Ok (st', drop n rest)
  end.

Fixpoint first_option (rest : list (string * Token)) : option nat :=
  match rest with
  | [] => None
  | (_, TokO _) :: _ => Some 0
  | (_, TokA) :: rest' => option_map S (first_option rest')
  end.

(** The main loop of [_parse_known_args] followed by the final
    [consume_positionals].  Every round consumes an argument string, so
    [fuel] above the number of strings is never used up. *)
Fixpoint consume (sub : SubCall) (fuel : nat) (st : PState)
         (rest : list (string * Token)) : Res Exc PState :=
  match fuel with
  | 0 => Raise NotModelled
  | S fuel' =>
      match first_option rest with
      | None =>
          do ' (st', n) <- consume_positionals sub st rest;
          Ok (add_extras (map fst (drop n rest)) st')
      | Some 0 =>
          match rest with
          | (s, TokO target) :: rest' =>
              do ' (st', rest'') <- consume_optional st s target rest';
              consume sub fuel' st' rest''
          | _ => Raise NotModelled
          end
      | Some k =>
          do ' (st', n) <- consume_positionals sub st rest;
          if Nat.ltb 0 n then consume sub fuel' st' (drop n rest)
          else
            match drop k rest with
            | (s, TokO target) :: rest' =>
                do ' (st'', rest'') <-
                  consume_optional
                    (add_extras (map fst (take k rest)) st') s target rest';
                consume sub fuel' st'' rest''
            | _ => Raise NotModelled
            end
      end
  end.

(** The namespace before any argument string is looked at: the actions'
    defaults (the first action of a dest wins), then the parser-level
    defaults for attributes still unset. *)
Definition initial_namespace (acts : list Action)
           (defs : gmap string Value) (sp : option SubSpec) : Namespace :=
  let ns1 :=
    fold_left
      (fun (ns : Namespace) a =>
         match ns !! a_dest a, a_default a with
         | None, Some v => <[a_dest a := v]> ns
         | _, _ => ns
         end) acts (∅ : Namespace) in
  let ns2 :=
    match sp with
    | Some (MkSubSpec (Some d) _) =>
        match ns1 !! d with
        | None => <[d := VNone]> ns1
        | Some _ => ns1
        end
    | _ => ns1
    end in
  ns2 ∪ defs.

Definition positionals_of (acts : list Action) (sp : option SubSpec)
  : list PosRef :=
  omap (fun ia : nat * Action =>
          match a_option_strings (snd ia) with
          | [] => Some (PosArg (fst ia) (snd ia))
          | _ => None
          end) (combine (seq 0 (length acts)) acts)
  ++ match sp with Some s => [PosSub s] | None => [] end.

Definition seen (i : nat) (st : PState) : bool :=
  existsb (Nat.eqb i) (st_seen st).

(** The dests of required actions that were not seen. *)
Definition missing_required (acts : list Action) (sp : option SubSpec)
           (st : PState) : list string :=
  omap (fun ia : nat * Action =>
          if seen (fst ia) st then None
          else if a_required (snd ia) then Some (a_dest (snd ia))
          else None) (combine (seq 0 (length acts)) acts)
  ++ match sp with
     | Some s =>
         if negb (st_sub_seen st) && sub_required s
         then [from_option id "" (sub_dest s)] else []
     | None => []
     end.

(** An unseen action whose default is a string has it converted by its
    [type] at the end; only [type=int] would change it. *)
Definition late_conversion (acts : list Action) (st : PState) : bool :=
  existsb (fun ia : nat * Action =>
             negb (seen (fst ia) st) && negb (a_required (snd ia))
             && match a_type (snd ia), a_default (snd ia) with
                | TypeInt, Some (VStr _) => true
                | _, _ => false
                end) (combine (seq 0 (length acts)) acts).

(** One parser's [parse_known_args], given what its subparsers action
    calls. *)
Definition parse_known_with (sub : SubCall) (acts : list Action)
           (defs : gmap string Value) (sp : option SubSpec)
           (args : list string) : Res Exc (Namespace * list string) :=
  do toks <- classify (option_table acts) args;
  let st0 :=
    MkPState (initial_namespace acts defs sp) [] false
             (positionals_of acts sp) [] [] in
  do st <- consume sub (S (length args)) st0 (combine args toks);
  if late_conversion acts st then Raise NotModelled
  else
    match missing_required acts sp st with
    | [] => Ok (st_ns st, st_extras st ++ st_sub_extras st)
    | names => error (required_arguments names)
    end.

(** [parser.parse_known_args(args)] *)
Fixpoint parse_known_args (p : Parser) (args : list string) {struct p}
  : Res Exc (Namespace * list string) :=
  match p with
  | MkParser acts defs sp m =>
      parse_known_with
        ((fix runners (m : list (string * Parser)) : SubCall :=
            match m with
            | [] => []
            | (n, q) :: m' => (n, parse_known_args q) :: runners m'
            end) m)
        acts defs sp args
  end.

(** [parser.parse_args(args)] *)
Definition parse_args (p : Parser) (args : list string)
  : Res Exc Namespace :=
  do ' (namespace, argv) <- parse_known_args p args;
  match argv with
  | [] => Ok namespace
  | _ => error (unrecognized_arguments argv)
  end.

End Argparse.

(** ** [dvc/cli.py] *)

Module Cli.
Import Py Argparse.

(** The command classes imported at the top of the file, named by their
    import paths. *)
Definition CmdFind := VClass "dvc.command.find.CmdFind".
Definition CmdFsck := VClass "dvc.command.fsck.CmdFsck".
Definition CmdInit := VClass "dvc.command.init.CmdInit".
Definition CmdRemove := VClass "dvc.command.remove.CmdRemove".
Definition CmdRun := VClass "dvc.command.run.CmdRun".
Definition CmdRepro := VClass "dvc.command.repro.CmdRepro".
Definition CmdDataPush := VClass "dvc.command.data_sync.CmdDataPush".
Definition CmdDataPull := VClass "dvc.command.data_sync.CmdDataPull".
Definition CmdDataStatus := VClass "dvc.command.data_sync.CmdDataStatus".
Definition CmdLock := VClass "dvc.command.lock.CmdLock".
Definition CmdGC := VClass "dvc.command.gc.CmdGC".
Definition CmdAdd := VClass "dvc.command.add.CmdAdd".
Definition CmdShowWorkflow :=
  VClass "dvc.command.show_workflow.CmdShowWorkflow".
Definition CmdInstanceCreate :=
  VClass "dvc.command.instance_create.CmdInstanceCreate".
Definition CmdConfig := VClass "dvc.command.config.CmdConfig".
Definition CmdShowPipeline :=
  VClass "dvc.command.show_pipeline.CmdShowPipeline".
Definition CmdCheckout := VClass "dvc.command.checkout.CmdCheckout".

(** [os.path.curdir] *)
Definition curdir : string := ".".

Section ParseArgs.

(** Values the module takes from elsewhere: [multiprocessing.cpu_count()],
    [Stage.STAGE_FILE], [dvc.VERSION] and [sys.version_info[0]]. *)
Variable cpu_count : Z.
Variable STAGE_FILE : string.
Variable VERSION : string.
Variable version_info_major : Z.

(** Common args *)
Definition parent_parser : Res Exc Parser :=
  do p <- ArgumentParser [] false;
  do p <- add_argument ["-q"; "--quiet"]
            [action_ "store_true"; default_ (VBool false)] p;
  do p <- add_argument ["-v"; "--verbose"]
            [action_ "store_true"; default_ (VBool false)] p;
  do p <- add_argument ["-b"; "--branch"] [] p;
  add_argument ["-n"; "--new-branch"] [] p.

Definition init_parser (parent_parser : Parser) : Res Exc Parser :=
  do p <- ArgumentParser [parent_parser] true;
  Ok (set_defaults [("func", CmdInit)] p).

Definition run_parser (parent_parser : Parser) : Res Exc Parser :=
  do p <- ArgumentParser [parent_parser] true;
  do p <- add_argument ["-d"; "--deps"]
            [action_ "append"; default_ (VList [])] p;
  do p <- add_argument ["-o"; "--outs"]
            [action_ "append"; default_ (VList [])] p;
  do p <- add_argument ["-O"; "--outs-no-cache"]
            [action_ "append"; default_ (VList [])] p;
  do p <- add_argument ["-l"; "--lock"]
            [action_ "store_true"; default_ (VBool false)] p;
  do p <- add_argument ["-f"; "--file"] [] p;
  do p <- add_argument ["-c"; "--cwd"] [default_ (VStr curdir)] p;
  do p <- add_argument ["--no-exec"]
            [action_ "store_true"; default_ (VBool false)] p;
  do p <- add_argument ["command"] [nargs_ Remainder] p;
  Ok (set_defaults [("func", CmdRun)] p).

(** Parent parser used in sync/pull/push *)
Definition parent_sync_parser (parent_parser : Parser) : Res Exc Parser :=
  do p <- ArgumentParser [parent_parser] false;
  add_argument ["-j"; "--jobs"] [type_int; default_ (VInt cpu_count)] p.

Definition pull_parser (parent_sync_parser : Parser) : Res Exc Parser :=
  do p <- ArgumentParser [parent_sync_parser] true;
  Ok (set_defaults [("func", CmdDataPull)] p).

Definition push_parser (parent_sync_parser : Parser) : Res Exc Parser :=
  do p <- ArgumentParser [parent_sync_parser] true;
  Ok (set_defaults [("func", CmdDataPush)] p).

Definition status_parser (parent_sync_parser : Parser) : Res Exc Parser :=
  do p <- ArgumentParser [parent_sync_parser] true;
  Ok (set_defaults [("func", CmdDataStatus)] p).

Definition repro_parser (parent_parser : Parser) : Res Exc Parser :=
  do p <- ArgumentParser [parent_parser] true;
  do p <- add_argument ["targets"]
            [nargs_ ZeroOrMore; default_ (VList [VStr STAGE_FILE])] p;
  do p <- add_argument ["-f"; "--force"]
            [action_ "store_true"; default_ (VBool false)] p;
  do p <- add_argument ["-s"; "--single-item"]
            [action_ "store_true"; default_ (VBool false)] p;
  Ok (set_defaults [("func", CmdRepro)] p).

Definition remove_parser (parent_parser : Parser) : Res Exc Parser :=
  do p <- ArgumentParser [parent_parser] true;
  do p <- add_argument ["targets"] [nargs_ OneOrMore] p;
  Ok (set_defaults [("func", CmdRemove)] p).

Definition import_parser (parent_parser : Parser) : Res Exc Parser :=
  do p <- ArgumentParser [parent_parser] true;
  do p <- add_argument ["targets"] [nargs_ OneOrMore] p;
  Ok (set_defaults [("func", CmdAdd)] p).

Definition lock_parser (parent_parser : Parser) : Res Exc Parser :=
  do p <- ArgumentParser [parent_parser] true;
  do p <- add_argument ["-u"; "--unlock"]
            [action_ "store_true"; default_ (VBool false)] p;
  do p <- add_argument ["files"]
            [nargs_ ZeroOrMore; default_ (VList [VStr STAGE_FILE])] p;
  Ok (set_defaults [("func", CmdLock)] p).

Definition gc_parser (parent_parser : Parser) : Res Exc Parser :=
  do p <- ArgumentParser [parent_parser] true;
  Ok (set_defaults [("func", CmdGC)] p).

Definition instance_create_parser : Res Exc Parser :=
  do p <- ArgumentParser [] true;
  do p <- add_argument ["name"] [nargs_ Optional] p;
  do p <- add_argument ["-c"; "--cloud"] [] p;
  do p <- add_argument ["-t"; "--type"] [] p;
  do p <- add_argument ["-i"; "--image"] [] p;
  do p <- add_argument ["--spot-price"] [] p;
  do p <- add_argument ["--spot-timeout"] [type_int] p;
  do p <- add_argument ["--keypair-name"] [] p;
  do p <- add_argument ["--keypair-dir"] [] p;
  do p <- add_argument ["--security-group"] [] p;
  do p <- add_argument ["--region"] [] p;
  do p <- add_argument ["--zone"] [] p;
  do p <- add_argument ["--subnet-id"] [] p;
  do p <- add_argument ["--storage"] [] p;
  do p <- add_argument ["--monitoring"]
            [action_ "store_true"; default_ (VBool false)] p;
  do p <- add_argument ["--ebs-optimized"]
            [action_ "store_true"; default_ (VBool false)] p;
  do p <- add_argument ["--disks-to-ride0"]
            [action_ "store_true"; default_ (VBool false)] p;
  Ok (set_defaults [("func", CmdInstanceCreate)] p).

Definition cloud_parser (parent_parser : Parser) : Res Exc Parser :=
  do p <- ArgumentParser [parent_parser] true;
  do p <- add_subparsers (Some "cmd") p;
  do create <- instance_create_parser;
  add_parser "create" create p.

(** Cloud *)
Definition ex_parser (parent_parser : Parser) : Res Exc Parser :=
  do p <- ArgumentParser [parent_parser] true;
  do p <- add_subparsers (Some "cmd") p;
  do cloud <- cloud_parser parent_parser;
  add_parser "cloud" cloud p.

Definition config_parser (parent_parser : Parser) : Res Exc Parser :=
  do p <- ArgumentParser [parent_parser] true;
  do p <- add_argument ["-u"; "--unset"]
            [default_ (VBool false); action_ "store_true"] p;
  do p <- add_argument ["name"] [] p;
  do p <- add_argument ["value"] [nargs_ Optional; default_ VNone] p;
  Ok (set_defaults [("func", CmdConfig)] p).

Definition pipeline_parser (parent_parser : Parser) : Res Exc Parser :=
  do p <- ArgumentParser [parent_parser] true;
  do p <- add_argument ["target"] [nargs_ ZeroOrMore] p;
  Ok (set_defaults [("func", CmdShowPipeline)] p).

Definition workflow_parser (parent_parser : Parser) : Res Exc Parser :=
  do p <- ArgumentParser [parent_parser] true;
  do p <- add_argument ["target"] [nargs_ Optional] p;
  do p <- add_argument ["-d"; "--dvc-commits"]
            [action_ "store_true"; default_ (VBool false)] p;
  do p <- add_argument ["-a"; "--all-commits"]
            [action_ "store_true"; default_ (VBool false)] p;
  do p <- add_argument ["-m"; "--max-commits"]
            [type_int; default_ (VInt 4)] p;
  Ok (set_defaults [("func", CmdShowWorkflow)] p).

(** Show *)
Definition show_parser (parent_parser : Parser) : Res Exc Parser :=
  do p <- ArgumentParser [parent_parser] true;
  do p <- add_subparsers (Some "cmd") p;
  do pipeline <- pipeline_parser parent_parser;
  do p <- add_parser "pipeline" pipeline p;
  do workflow <- workflow_parser parent_parser;
  add_parser "workflow" workflow p.

Definition checkout_parser (parent_parser : Parser) : Res Exc Parser :=
  do p <- ArgumentParser [parent_parser] true;
  Ok (set_defaults [("func", CmdCheckout)] p).

Definition find_parser (parent_parser : Parser) : Res Exc Parser :=
  do p <- ArgumentParser [parent_parser] true;
  let p := set_defaults [("func", CmdFind)] p in
  do p <- add_argument ["branch_name"] [nargs_ Optional] p;
  do p <- add_argument ["target"] [nargs_ Optional] p;
  do p <- add_argument ["-c"; "--criteria"]
            [choices_ ["max"; "min"; "all"]; default_ (VStr "max")] p;
  add_argument ["-s"; "--show-value"]
    [action_ "store_true"; default_ (VBool false)] p.

Definition fsck_parser (parent_parser : Parser) : Res Exc Parser :=
  do p <- ArgumentParser [parent_parser] true;
  do p <- add_argument ["targets"] [nargs_ ZeroOrMore] p;
  do p <- add_argument ["-p"; "--physical"]
            [action_ "store_true"; default_ (VBool false)] p;
  do p <- add_argument ["-a"; "--all"]
            [action_ "store_true"; default_ (VBool false)] p;
  Ok (set_defaults [("func", CmdFsck)] p).

(** The main parser with all its sub commands, as [parse_args] has built
    it when it reaches its last line. *)
Definition parser : Res Exc Parser :=
  do parent_parser <- parent_parser;
  (* Main parser *)
  do parser <- ArgumentParser [parent_parser] true;
  do parser <- add_argument ["-V"; "--version"]
                 [action_ "version"; version_ ("%(prog)s " +:+ VERSION)]
                 parser;
  (* Sub commands *)
  do parser <- add_subparsers (Some "cmd") parser;
  (* NOTE: Workaround for bug in Python 3 *)
  let parser :=
    if Z.eqb version_info_major 3
    then set_sub_dest "cmd" (set_sub_required true parser)
    else parser in
  do init_parser <- init_parser parent_parser;
  do parser <- add_parser "init" init_parser parser;
  do run_parser <- run_parser parent_parser;
  do parser <- add_parser "run" run_parser parser;
  do parent_sync_parser <- parent_sync_parser parent_parser;
  do pull_parser <- pull_parser parent_sync_parser;
  do parser <- add_parser "pull" pull_parser parser;
  do push_parser <- push_parser parent_sync_parser;
  do parser <- add_parser "push" push_parser parser;
  do status_parser <- status_parser parent_sync_parser;
  do parser <- add_parser "status" status_parser parser;
  do repro_parser <- repro_parser parent_parser;
  do parser <- add_parser "repro" repro_parser parser;
  do remove_parser <- remove_parser parent_parser;
  do parser <- add_parser "remove" remove_parser parser;
  do import_parser <- import_parser parent_parser;
  do parser <- add_parser "add" import_parser parser;
  do lock_parser <- lock_parser parent_parser;
  do parser <- add_parser "lock" lock_parser parser;
  do gc_parser <- gc_parser parent_parser;
  do parser <- add_parser "gc" gc_parser parser;
  do ex_parser <- ex_parser parent_parser;
  do parser <- add_parser "ex" ex_parser parser;
  do config_parser <- config_parser parent_parser;
  do parser <- add_parser "config" config_parser parser;
  do show_parser <- show_parser parent_parser;
  do parser <- add_parser "show" show_parser parser;
  do checkout_parser <- checkout_parser parent_parser;
  do parser <- add_parser "checkout" checkout_parser parser;
  do find_parser <- find_parser parent_parser;
  do parser <- add_parser "find" find_parser parser;
  do fsck_parser <- fsck_parser parent_parser;
  add_parser "fsck" fsck_parser parser.

(** [parse_args(argv)] *)
Definition parse_args (argv : list string) : Res Exc Namespace :=
  do parser <- parser;
  Argparse.parse_args parser argv.

End ParseArgs.

End Cli.

(** ** [dvc/commands/data.py] *)

Module Data.
Import Py Argparse.

Definition CmdDataStatus := VClass "dvc.commands.data.CmdDataStatus".

Definition dquote : string := String (ascii_of_nat 34) EmptyString.
Definition tab : ascii := ascii_of_nat 9.

(** What the values of a status dict can be: a list of paths, a dict from
    a state to the paths in it, or the flags of the [git] entry. *)
Inductive StatusValue : Type :=
| Files (paths : list string)
| States (by_state : list (string * list string))
| GitInfo (flags : list (string * bool)).

(** Dicts keep insertion order; they are lists of bindings with distinct
    keys. *)
Abbreviation DataStatus := (list (string * StatusValue)).

Inductive PyErr : Type :=
| KeyError (key : string)
| TypeError
| AttributeError (name : string).

(** [d.pop(key)] *)
Definition dict_pop {A} (key : string) (d : list (string * A))
  : Res PyErr (A * list (string * A)) :=
  match dict_get key d with
  | Some v =>
      Ok (v, List.filter (fun kv => negb (String.eqb key (fst kv))) d)
  | None => Raise (KeyError key)
  end.

(** [bool(v)] *)
Definition status_truthy (v : StatusValue) : bool :=
  match v with
  | Files [] | States [] | GitInfo [] => false
  | _ => true
  end.

Definition truthy (v : Value) : bool :=
  match v with
  | VNone => false
  | VBool b => b
  | VInt z => negb (Z.eqb z 0)
  | VStr s => negb (String.eqb s "")
  | VList l => match l with [] => false | _ => true end
  | VClass _ => true
  end.

(** [funcy.compact] on a dict: the bindings with a truthy value. *)
Definition compact (status : DataStatus) : DataStatus :=
  List.filter (fun kv => status_truthy (snd kv)) status.

Inductive UiEvent : Type :=
| Write (text : string) (styled : bool)
| WriteJson (data : DataStatus).

Definition COLORS : list (string * string) :=
  [("not_in_cache", "red"); ("committed", "green");
   ("uncommitted", "yellow"); ("untracked", "cyan")].

Definition LABELS : list (string * string) :=
  [("not_in_cache", "Not in cache");
   ("committed", "DVC committed changes");
   ("uncommitted", "DVC uncommitted changes");
   ("untracked", "Untracked files");
   ("unchanged", "DVC unchanged files")].

Definition HINTS : list (string * string) :=
  [("not_in_cache",
    "use " +:+ dquote +:+ "dvc pull <file>..." +:+ dquote
    +:+ " to update your local storage");
   ("committed",
    "git commit the corresponding dvc files to update the repo");
   ("uncommitted",
    "use " +:+ dquote +:+ "dvc commit <file>..." +:+ dquote
    +:+ " to track changes");
   ("untracked",
    "use " +:+ dquote +:+ "git add <file> ..." +:+ dquote
    +:+ " or dvc add <file>..." +:+ dquote
    +:+ " to commit to git or to dvc");
   ("git_dirty",
    "there are {}changes not tracked by dvc, use " +:+ dquote
    +:+ "git status" +:+ dquote +:+ " to see")].

(** What [_process_status] hands out for a stage: the list it was given,
    or the flattened dict from a file to its state. *)
Inductive Items : Type :=
| ItemList (files : list string)
| ItemDict (state_of : list (string * string)).

Definition items_truthy (i : Items) : bool :=
  match i with
  | ItemList [] | ItemDict [] => false
  | _ => true
  end.

(** [{file: state for state, files in stage_status.items()
      for file in files}] *)
Definition flatten (stage_status : list (string * list string))
  : list (string * string) :=
  fold_left
    (fun d (sf : string * list string) =>
       fold_left (fun d file => dict_set file (fst sf) d) (snd sf) d)
    stage_status [].

(** The [items] of one round of the loop of [_process_status]; iterating
    over a flag of the git entry raises [TypeError]. *)
Definition stage_items (stage_status : StatusValue) : Res PyErr Items :=
  match stage_status with
  | Files l => Ok (ItemList l)
  | States d => Ok (ItemDict (flatten d))
  | GitInfo [] => Ok (ItemDict [])
  | GitInfo (_ :: _) => Raise TypeError
  end.

(** [_process_status]: the pairs the generator yields, and the exception
    that ends it if one is raised. *)
Fixpoint _process_status (status : DataStatus)
  : list (string * Items) * option PyErr :=
  match status with
  | [] => ([], None)
  | (stage, stage_status) :: status' =>
      match stage_items stage_status with
      | Raise e => ([], Some e)
      | Ok items =>
          if negb (items_truthy items) then _process_status status'
          else
            let '(ys, e) := _process_status status' in
            ((stage, items) :: ys, e)
      end
  end.

(** [dict(pairs)] *)
Definition dict_of {A} (pairs : list (string * A)) : list (string * A) :=
  fold_left (fun d kv => dict_set (fst kv) (snd kv) d) pairs [].

Definition upper (c : ascii) : ascii :=
  let n := nat_of_ascii c in
  if Nat.leb 97 n && Nat.leb n 122 then ascii_of_nat (n - 32) else c.

Definition lower (c : ascii) : ascii :=
  let n := nat_of_ascii c in
  if Nat.leb 65 n && Nat.leb n 90 then ascii_of_nat (n + 32) else c.

Fixpoint map_string (f : ascii -> ascii) (s : string) : string :=
  match s with
  | EmptyString => EmptyString
  | String c s' => String (f c) (map_string f s')
  end.

Section Show.

(** [str.capitalize] on a string with characters beyond ASCII, where the
    Unicode database gives the case of a character; strings are held as
    their UTF-8 bytes. *)
Variable unicode_capitalize : string -> string.

(** [s.capitalize()] *)
Definition capitalize (s : string) : string :=
  if has_non_ascii s then unicode_capitalize s
  else
    match s with
    | EmptyString => EmptyString
    | String c s' => String (upper c) (map_string lower s')
    end.

Fixpoint spaces (n : nat) : string :=
  match n with
  | 0 => EmptyString
  | S n' => String " " (spaces n')
  end.

(** A byte of a UTF-8 sequence after its first one: it starts no
    character. *)
Definition continuation_byte (c : ascii) : bool :=
  let n := nat_of_ascii c in Nat.leb 128 n && Nat.ltb n 192.

(** The column counts characters, so the bytes that continue a UTF-8
    sequence do not move it. *)
Fixpoint expandtabs_from (tabsize col : nat) (s : string) : string :=
  match s with
  | EmptyString => EmptyString
  | String c s' =>
      if Ascii.eqb c tab then
        match tabsize with
        | 0 => expandtabs_from tabsize col s'
        | _ =>
            let incr := tabsize - (col mod tabsize) in
            spaces incr +:+ expandtabs_from tabsize (col + incr) s'
        end
      else
        let n := nat_of_ascii c in
        String c (expandtabs_from tabsize
                    (if Nat.eqb n 10 || Nat.eqb n 13 then 0
                     else if continuation_byte c then col
                     else S col) s')
  end.

(** [s.expandtabs(tabsize)] *)
Definition expandtabs (tabsize : nat) (s : string) : string :=
  expandtabs_from tabsize 0 s.

(** [fmt.format(arg)] for a format string with one [{}] field. *)
Fixpoint format1 (fmt arg : string) : string :=
  match fmt with
  | String "{" (String "}" rest) => arg +:+ rest
  | String c rest => String c (format1 rest arg)
  | EmptyString => EmptyString
  end.

(** [git_info.get(key, False)], as a truth value. *)
Definition git_get (git_info : StatusValue) (key : string)
  : Res PyErr bool :=
  match git_info with
  | GitInfo d => Ok (from_option id false (dict_get key d))
  | States d =>
      Ok (match dict_get key d with Some (_ :: _) => true | _ => false end)
  | Files _ => Raise (AttributeError "get")
  end.

(** The lines written for one entry of [result]. *)
Definition show_stage (idx : nat) (stage : string) (stage_status : Items)
  : list UiEvent :=
  let label := from_option id (capitalize stage +:+ " files")
                           (dict_get stage LABELS) in
  let header := label +:+ ":" in
  let color := from_option id "normal" (dict_get stage COLORS) in
  let items :=
    match stage_status with
    | ItemDict d => map (fun fs => snd fs +:+ ": " +:+ fst fs) d
    | ItemList l => l
    end in
  (match idx with 0 => [] | _ => [Write "" false] end)
  ++ [Write header false]
  ++ (match dict_get stage HINTS with
      | Some hint =>
          if String.eqb hint "" then []
          else [Write ("  (" +:+ hint +:+ ")") false]
      | None => []
      end)
  ++ map (fun item =>
            Write (expandtabs 8 (String tab ("[" +:+ color +:+ "]" +:+ item
                                             +:+ "[/]"))) true) items.

Fixpoint show_stages (idx : nat) (result : list (string * Items))
  : list UiEvent :=
  match result with
  | [] => []
  | (stage, stage_status) :: result' =>
      show_stage idx stage stage_status ++ show_stages (S idx) result'
  end.

(** A run of a method of the command: what it wrote through [ui], and
    the exit code it returned or the exception it raised. *)
Definition Run : Type := list UiEvent * Res PyErr Z.

(** [CmdDataStatus._show_status] *)
Definition _show_status (status : DataStatus) : Run :=
  match dict_pop "git" status with
  | Raise e => ([], Raise e)
  | Ok (git_info, status) =>
      match _process_status status with
      | (_, Some e) => ([], Raise e)
      | (pairs, None) =>
          let result := dict_of pairs in
          let no_changes : Run :=
            match result with
            | [] =>
                match git_get git_info "is_empty" with
                | Raise e => ([], Raise e)
                | Ok is_empty =>
                    ([Write ((if is_empty
                              then "No changes in an empty git repo"
                              else "No changes") +:+ ".") false], Ok 0%Z)
                end
            | _ => ([], Ok 0%Z)
            end in
          match no_changes with
          | (out, Raise e) => (out, Raise e)
          | (out, Ok _) =>
              let out := out ++ show_stages 0 result in
              match dict_get "git_dirty" HINTS with
              | Some (String _ _ as hint) =>
                  match git_get git_info "is_dirty" with
                  | Raise e => (out, Raise e)
                  | Ok true =>
                      let message :=
                        format1 hint
                          (match result with [] => "" | _ => "other " end) in
                      (out ++ [Write ("[blue](" +:+ message +:+ ")[/]") true],
                       Ok 0%Z)
                  | Ok false => (out, Ok 0%Z)
                  end
              | _ => (out, Ok 0%Z)
              end
          end
      end
  end.

(** [self.args.name] *)
Definition getattr (args : Namespace) (name : string) : Res PyErr Value :=
  match args !! name with
  | Some v => Ok v
  | None => Raise (AttributeError name)
  end.

Definition is_str (v : Value) (s : string) : bool :=
  match v with VStr s' => String.eqb s' s | _ => false end.

Section Run.

(** [self.repo.data_status(granular=..., untracked_files=...,
    with_dirs=...)] *)
Variable data_status : Value -> Value -> Value -> DataStatus.

(** [CmdDataStatus.run] *)
Definition run (args : Namespace) : Run :=
  let body : Res PyErr Run :=
    do granular <- getattr args "granular";
    do untracked_files <- getattr args "untracked_files";
    do with_dirs <- getattr args "with_dirs";
    let status := data_status granular untracked_files with_dirs in
    do unchanged <- getattr args "unchanged";
    do status <-
      (if negb (truthy unchanged)
       then do ' (_, status) <- dict_pop "unchanged" status; Ok status
       else Ok status);
    do untracked_files <- getattr args "untracked_files";
    do status <-
      (if is_str untracked_files "no"
       then do ' (_, status) <- dict_pop "untracked" status; Ok status
       else Ok status);
    do json <- getattr args "json";
    if truthy json then
      do ' (_, status) <- dict_pop "git" status;
      Ok ([WriteJson (compact status)], Ok 0%Z)
    else Ok (_show_status status) in
  match body with
  | Ok r => r
  | Raise e => ([], Raise e)
  end.

End Run.

End Show.

Section AddParser.

(** [dvc.cli.utils.fix_subparsers], which works on the subparsers action
    handed to it. *)
Variable fix_subparsers : SubSpec -> SubSpec.

Definition data_status_parser (parent_parser : Parser) : Res Exc Parser :=
  do p <- ArgumentParser [parent_parser] true;
  do p <- add_argument ["--json"]
            [action_ "store_true"; default_ (VBool false)] p;
  do p <- add_argument ["--show-json"]
            [action_ "store_true"; default_ (VBool false); dest_ "json"] p;
  do p <- add_argument ["--granular"]
            [action_ "store_true"; default_ (VBool false)] p;
  do p <- add_argument ["--unchanged"]
            [action_ "store_true"; default_ (VBool false)] p;
  do p <- add_argument ["--untracked-files"]
            [choices_ ["no"; "all"]; default_ (VStr "no");
             const_ (VStr "all"); nargs_ Optional] p;
  do p <- add_argument ["--with-dirs"]
            [action_ "store_true"; default_ (VBool false)] p;
  Ok (set_defaults [("func", CmdDataStatus)] p).

Definition data_parser (parent_parser : Parser) : Res Exc Parser :=
  do p <- ArgumentParser [parent_parser] true;
  do p <- add_subparsers (Some "cmd") p;
  let p := MkParser (p_actions p) (p_defaults p)
                    (option_map fix_subparsers (p_subparsers p))
                    (p_name_parser_map p) in
  do status <- data_status_parser parent_parser;
  add_parser "status" status p.

(** [add_parser(subparsers, parent_parser)], with [subparsers] given by
    the parser that owns it. *)
Definition add_parser (subparsers : Parser) (parent_parser : Parser)
  : Res Exc Parser :=
  do data <- data_parser parent_parser;
  Argparse.add_parser "data" data subparsers.

End AddParser.

End Data.

(** ** Shapes of parsers and command lines used in the statements below *)

Module ArgparseShapes.
Import Py Argparse.

(** The state of a parser after its subparsers action has run the parser
    of the command [name]. *)
Definition sub_state (s : SubSpec) (name : string) (st : PState)
           (subns : Namespace) (unrec : list string) : PState :=
  MkPState
    (subns ∪ match sub_dest s with
             | Some d => <[d := VStr name]> (st_ns st)
             | None => st_ns st
             end)
    (st_seen st) true [] (st_extras st ++ []) (st_sub_extras st ++ unrec).

(** All the actions are options. *)
Definition no_positionals (acts : list Action) : bool :=
  forallb (fun a => match a_option_strings a with [] => false | _ => true end)
          acts.

(** What is known of the argument strings an action is called with. *)
Definition arity (a : Action) (args : list string) : Prop :=
  a_option_strings a <> [] -> a_nargs a = NargsNone -> length args = 1.

(** Tokens and positionals that refer to actions of [acts]. *)
Definition tok_in (acts : list Action) (t : Token) : Prop :=
  match t with
  | TokO (Some (_, a)) => In a acts /\ a_option_strings a <> []
  | _ => True
  end.

Definition pos_in (acts : list Action) (p : PosRef) : Prop :=
  match p with
  | PosArg _ a => In a acts /\ a_option_strings a = []
  | PosSub _ => False
  end.

(** [f] is the option string of a store-true action of the table. *)
Definition is_store_true (table : list (string * (nat * Action)))
           (f : string) : bool :=
  is_flag f
  && match dict_get f table with
     | Some (_, b) =>
         match a_kind b, a_nargs b with
         | StoreTrue, NargsZero => true
         | _, _ => false
         end
     | None => false
     end.

Definition flag_toks (table : list (string * (nat * Action)))
           (fl : list string) : list (string * Token) :=
  map (fun f => (f, TokO (dict_get f table))) fl.

Definition plain_toks (ts : list string) : list (string * Token) :=
  map (fun t => (t, TokA)) ts.

(** What consuming such an option does to the state. *)
Definition set_flag (table : list (string * (nat * Action)))
           (st : PState) (f : string) : PState :=
  match dict_get f table with
  | Some (j, b) => with_ns (<[a_dest b := a_const b]> (st_ns st)) (with_seen j st)
  | None => st
  end.

(** The value a plain [nargs='*'] positional of string type stores. *)
Definition star_value (a : Action) (ts : list string) : Value :=
  match ts with
  | [] => match a_default a with
          | Some VNone | None => VList []
          | Some d => d
          end
  | _ => VList (map VStr ts)
  end.

(** A plain [nargs='*'] positional: string type, no choices, a default. *)
Definition star_positional (a : Action) : bool :=
  match a_option_strings a, a_nargs a, a_kind a, a_type a, a_choices a,
        a_default a with
  | [], ZeroOrMore, Store, TypeNone, None, Some _ => true
  | _, _, _, _, _, _ => false
  end.

End ArgparseShapes.

Module CliProps.
Import Py Argparse ArgparseShapes Cli.

(** The sub commands of the command-line surface with the handler each
    one is given; [unlock] is the [-u] option of [lock]. *)
Definition subcommands : list (string * Value) :=
  [("init", CmdInit); ("add", CmdAdd); ("run", CmdRun);
   ("repro", CmdRepro); ("push", CmdDataPush);
   ("pull", CmdDataPull); ("status", CmdDataStatus);
   ("gc", CmdGC); ("lock", CmdLock);
   ("checkout", CmdCheckout); ("remove", CmdRemove)].

(** The parser [q] of a command binds [func] to [h] and no action of it
    writes that attribute. *)
Definition binds (h : Value) (q : Parser) : bool :=
  match p_subparsers q, p_defaults q !! "func", h with
  | None, Some (VClass c), VClass c' =>
      String.eqb c c'
      && forallb (fun a => negb (String.eqb (a_dest a) "func")) (p_actions q)
  | _, _, _ => false
  end.

(** Nothing is left to do once the arguments are consumed: no required
    action, no default to convert. *)
Definition quiet_end (acts : list Action) : bool :=
  forallb (fun a => negb (a_required a)
                    && match a_type a, a_default a with
                       | TypeInt, Some (VStr _) => false
                       | _, _ => true
                       end) acts.

Definition main_ok (P : Parser) : bool :=
  no_positionals (p_actions P)
  && quiet_end (p_actions P)
  && match p_subparsers P with Some _ => true | None => false end
  && forallb
       (fun nh : string * Value =>
          match dict_get (fst nh) (p_name_parser_map P) with
          | Some q =>
              binds (snd nh) q
              && Nat.eqb (count_occ string_dec
                            (map fst (p_name_parser_map P)) (fst nh)) 1
          | None => false
          end) subcommands.

(** An attribute of the namespace a parse returns; [None] when the parse
    raised. *)
Definition attr (r : Res Exc Namespace) (name : string) : option Value :=
  match r with
  | Ok ns => ns !! name
  | Raise _ => None
  end.

(** The parser is built, has the shape [main_ok], and registers no
    [unlock] command. *)
Definition parser_check (r : Res Exc Parser) : bool :=
  match r with
  | Ok P =>
      main_ok P
      && match dict_get "unlock" (p_name_parser_map P) with
         | Some _ => false
         | None => true
         end
  | Raise _ => false
  end.

(** A command line that parses, for each sub command. *)
Definition example_argv (name : string) : list string :=
  if String.eqb name "add" || String.eqb name "remove" then ["data"] else [].

(** [name] is accepted as a sub command bound to the handler [h]: it is
    registered once, its parser carries [func=h], every successful parse
    of a command line starting with it yields that handler, and some
    command line starting with it parses. *)
Definition accepted (cpu_count : Z) (STAGE_FILE VERSION : string)
           (version_info_major : Z) (name : string) (h : Value) : Prop :=
  let parser := parser cpu_count STAGE_FILE VERSION version_info_major in
  let parse_args :=
    parse_args cpu_count STAGE_FILE VERSION version_info_major in
  exists P q,
    parser = Ok P /\
    count_occ string_dec (map fst (p_name_parser_map P)) name = 1 /\
    dict_get name (p_name_parser_map P) = Some q /\
    p_defaults q !! "func" = Some h /\
    (forall argv ns,
        parse_args (name :: argv) = Ok ns -> ns !! "func" = Some h) /\
    (exists argv ns, parse_args (name :: argv) = Ok ns).

End CliProps.

Module CliOptions.
Import Py Argparse ArgparseShapes CliProps Cli.

(** The parser registered for a command. *)
Definition cmd_parser (r : Res Exc Parser) (name : string) : option Parser :=
  match r with
  | Ok P => dict_get name (p_name_parser_map P)
  | Raise _ => None
  end.

(** The attribute a store-true option string of the table writes. *)
Definition dest_of (table : list (string * (nat * Action))) (f : string)
  : string :=
  match dict_get f table with
  | Some (_, b) => a_dest b
  | None => ""
  end.

Definition sets_true (table : list (string * (nat * Action))) (f : string)
  : bool :=
  is_store_true table f
  && match dict_get f table with
     | Some (_, b) => match a_const b with VBool true => true | _ => false end
     | None => false
     end.

Definition repro_flags : list string :=
  ["-f"; "--force"; "-s"; "--single-item"].

(** The option strings of [repro] are none of the main parser's, and the
    [repro] parser has the two store-true options and [targets] as its
    only positional. *)
Definition repro_shape (r : Res Exc Parser) : bool :=
  match r with
  | Ok P =>
      forallb (fun f => is_ok (parse_optional (option_table (p_actions P)) f))
              repro_flags
      && match dict_get "repro" (p_name_parser_map P) with
         | Some q =>
             let table := option_table (p_actions q) in
             match p_subparsers q with None => true | Some _ => false end
             && match positionals_of (p_actions q) None with
                | [PosArg _ a] =>
                    star_positional a && String.eqb (a_dest a) "targets"
                | _ => false
                end
             && quiet_end (p_actions q)
             && forallb (sets_true table) repro_flags
             && String.eqb (dest_of table "-f") "force"
             && String.eqb (dest_of table "--force") "force"
             && String.eqb (dest_of table "-s") "single_item"
             && String.eqb (dest_of table "--single-item") "single_item"
         | None => false
         end
  | Raise _ => false
  end.

(** The default of the lone positional of a parser. *)
Definition positional_default (q : Parser) : option Value :=
  match positionals_of (p_actions q) None with
  | [PosArg _ a] => a_default a
  | _ => None
  end.

Definition initial_attr (q : Parser) (name : string) : option Value :=
  initial_namespace (p_actions q) (p_defaults q) None !! name.





End CliOptions.


(** ** Shapes of statuses used in the statements on [data.py] *)

Module DataProps.
Import Py Argparse Data.

(** The dict [d] without the key [key]: what [d.pop(key)] leaves. *)
Definition dict_remove {A} (key : string) (d : list (string * A))
  : list (string * A) :=
  List.filter (fun kv => negb (String.eqb key (fst kv))) d.

(** The state under which [file] is listed last in a dict from states to
    files. *)
Definition last_state (file : string) (d : list (string * list string))
  : option string :=
  fold_left (fun r (sf : string * list string) =>
               if mem file (snd sf) then Some (fst sf) else r) d None.

(** No state of the dict lists a file. *)
Definition lists_nothing (d : list (string * list string)) : bool :=
  forallb (fun sf : string * list string =>
             match snd sf with [] => true | _ :: _ => false end) d.

(** What a binding of the status is handed out as: a list with a path in
    it as it is, a dict that lists a file as its flattened dict, and
    anything else not at all. *)
Definition yielded (kv : string * StatusValue) : option (string * Items) :=
  match snd kv with
  | Files (f :: l) => Some (fst kv, ItemList (f :: l))
  | States d =>
      if lists_nothing d then None else Some (fst kv, ItemDict (flatten d))
  | _ => None
  end.

(** [fd] maps each file that a state of [d] lists, and nothing else, to
    a state that lists it, once each. *)
Definition flattens (d : list (string * list string))
           (fd : list (string * string)) : Prop :=
  NoDup (map fst fd) /\
  (forall file st, In (file, st) fd ->
                   exists files, In (st, files) d /\ In file files) /\
  (forall st files file, In (st, files) d -> In file files ->
                         exists st', In (file, st') fd).

(** The items are those of the status value [v]: the list itself, or
    the dict flattened. *)
Definition items_of (v : StatusValue) (items : Items) : Prop :=
  match v, items with
  | Files l, ItemList l' => l' = l
  | States d, ItemDict fd => flattens d fd
  | _, _ => False
  end.

(** The status value has something in it: a path, or a file under some
    state. *)
Definition has_content (v : StatusValue) : Prop :=
  match v with
  | Files l => l <> []
  | States d => exists st files file, In (st, files) d /\ In file files
  | GitInfo _ => False
  end.

Definition nonempty (items : Items) : Prop :=
  match items with
  | ItemList l => l <> []
  | ItemDict d => d <> []
  end.

(** No value of the status is a non-empty dict of git flags. *)
Definition no_flags (status : DataStatus) : bool :=
  forallb (fun kv : string * StatusValue =>
             match snd kv with GitInfo (_ :: _) => false | _ => true end)
          status.

(** The status after the removals [CmdDataStatus.run] makes before it
    shows anything. *)
Definition trimmed (unchanged untracked_files : Value) (status : DataStatus)
  : DataStatus :=
  let status :=
    if truthy unchanged then status else dict_remove "unchanged" status in
  if is_str untracked_files "no" then dict_remove "untracked" status
  else status.

Definition has_key {A} (key : string) (d : list (string * A)) : bool :=
  match dict_get key d with Some _ => true | None => false end.


(** A status as [repo.data_status] returns it, and the arguments of a plain
    [dvc data status]. *)
Definition example_status : DataStatus :=
  [("not_in_cache", Files []);
   ("committed", States [("added", ["data.csv"]); ("modified", [])]);
   ("uncommitted", States []);
   ("untracked", Files ["notes.txt"]);
   ("unchanged", Files ["model.pkl"]);
   ("git", GitInfo [("is_empty", false); ("is_dirty", true)])].

Definition example_args (json : bool) : Namespace :=
  list_to_map
    [("granular", VBool false); ("untracked_files", VStr "no");
     ("with_dirs", VBool false); ("unchanged", VBool false);
     ("json", VBool json)].

End DataProps.


Module CliMore.
Import Py Argparse ArgparseShapes CliProps CliOptions Cli.

Definition lock_flags : list string := ["-u"; "--unlock"].

(** The option strings of [lock] are none of the main parser's, and the
    [lock] parser has the store-true option [unlock] and [files] as its
    only positional. *)
Definition lock_shape (r : Res Exc Parser) : bool :=
  match r with
  | Ok P =>
      forallb (fun f => is_ok (parse_optional (option_table (p_actions P)) f))
              lock_flags
      && match dict_get "lock" (p_name_parser_map P) with
         | Some q =>
             let table := option_table (p_actions q) in
             match p_subparsers q with None => true | Some _ => false end
             && match positionals_of (p_actions q) None with
                | [PosArg _ a] =>
                    star_positional a && String.eqb (a_dest a) "files"
                | _ => false
                end
             && quiet_end (p_actions q)
             && forallb (sets_true table) lock_flags
             && forallb (fun f => String.eqb (dest_of table f) "unlock")
                        lock_flags
         | None => false
         end
  | Raise _ => false
  end.

(** A plain [nargs='+'] positional: string type, no choices, required. *)
Definition plus_positional (a : Action) : bool :=
  match a_option_strings a, a_nargs a, a_kind a, a_type a, a_choices a with
  | [], OneOrMore, Store, TypeNone, None => a_required a
  | _, _, _, _, _ => false
  end.

(** No default is left for [type] to convert at the end of a parse. *)
Definition late_free (acts : list Action) : bool :=
  forallb (fun a => match a_type a, a_default a with
                    | TypeInt, Some (VStr _) => false
                    | _, _ => true
                    end) acts.

(** A state that has seen the actions of [l] and nothing else. *)
Definition seen_state (l : list nat) : PState := MkPState ∅ l false [] [] [].

Definition target_commands : list string := ["add"; "remove"].

(** The parser of [add] and of [remove] has [targets], a plain
    [nargs='+'] positional, as its only positional and its only required
    action. *)
Definition targets_shape (r : Res Exc Parser) : bool :=
  match r with
  | Ok P =>
      forallb
        (fun name =>
           match dict_get name (p_name_parser_map P) with
           | Some q =>
               match p_subparsers q with None => true | Some _ => false end
               && late_free (p_actions q)
               && match positionals_of (p_actions q) None with
                  | [PosArg i a] =>
                      plus_positional a && String.eqb (a_dest a) "targets"
                      && match missing_required (p_actions q) None
                                 (seen_state [i]) with
                         | [] => true
                         | _ => false
                         end
                      && match missing_required (p_actions q) None
                                 (seen_state []) with
                         | [d] => String.eqb d "targets"
                         | _ => false
                         end
                  | _ => false
                  end
           | None => false
           end) target_commands
  | Raise _ => false
  end.





(** *** The common options in front of the command *)

Definition common_flags : list string :=
  ["-q"; "--quiet"; "-v"; "--verbose"].
Definition common_valued : list string :=
  ["-b"; "--branch"; "-n"; "--new-branch"].
Definition common_dests : list string :=
  ["quiet"; "verbose"; "branch"; "new_branch"].

(** A common option as it is given on a command line: the option string
    and, for [-b] and [-n], the value after it. *)
Definition common_option (ov : string * option string) : bool :=
  match ov with
  | (o, None) => mem o common_flags
  | (o, Some v) => mem o common_valued && negb (is_flag v)
  end.

Definition option_words (ov : string * option string) : list string :=
  match ov with
  | (o, None) => [o]
  | (o, Some v) => [o; v]
  end.

Definition option_toks (table : list (string * (nat * Action)))
           (ov : string * option string) : list (string * Token) :=
  match ov with
  | (o, None) => [(o, TokO (dict_get o table))]
  | (o, Some v) => [(o, TokO (dict_get o table)); (v, TokA)]
  end.

(** [o] is the option string of an action of the table that stores one
    string as it is given. *)
Definition is_store_value (table : list (string * (nat * Action)))
           (o : string) : bool :=
  is_flag o
  && match dict_get o table with
     | Some (_, b) =>
         match a_kind b, a_nargs b, a_type b, a_choices b with
         | Store, NargsNone, TypeNone, None => true
         | _, _, _, _ => false
         end
     | None => false
     end.

Definition option_ok (table : list (string * (nat * Action)))
           (ov : string * option string) : bool :=
  match ov with
  | (o, None) => is_store_true table o
  | (o, Some v) => is_store_value table o && negb (is_flag v)
  end.

(** The main parser has the common options, which write the common
    attributes, and the namespace every registered parser starts from has
    these attributes too. *)
Definition common_shape (r : Res Exc Parser) : bool :=
  match r with
  | Ok P =>
      let table := option_table (p_actions P) in
      forallb (fun f => is_store_true table f
                        && mem (dest_of table f) common_dests) common_flags
      && forallb (fun o => is_store_value table o
                           && mem (dest_of table o) common_dests)
                 common_valued
      && forallb
           (fun nq : string * Parser =>
              forallb
                (fun k =>
                   match initial_namespace (p_actions (snd nq))
                           (p_defaults (snd nq)) (p_subparsers (snd nq))
                         !! k with
                   | Some _ => true
                   | None => false
                   end) common_dests) (p_name_parser_map P)
  | Raise _ => false
  end.

(** *** Parsers that only dispatch *)

(** The common options are options of the parser [q] and write the
    common attributes. *)
Definition has_common_options (q : Parser) : bool :=
  let table := option_table (p_actions q) in
  forallb (fun f => is_store_true table f
                    && mem (dest_of table f) common_dests) common_flags
  && forallb (fun o => is_store_value table o
                       && mem (dest_of table o) common_dests) common_valued.

(** The subparsers action of the main parser is required and named
    [cmd]. *)
Definition required_shape (r : Res Exc Parser) : bool :=
  match r with
  | Ok P =>
      has_common_options P
      && match p_subparsers P with
         | Some (MkSubSpec (Some d) true) => String.eqb d "cmd"
         | _ => false
         end
  | Raise _ => false
  end.

(** A parser that only dispatches: the common options and a subparsers
    action named [cmd] are all it has, and it binds no [func]. *)
Definition dispatch_shape (q : Parser) : bool :=
  no_positionals (p_actions q)
  && quiet_end (p_actions q)
  && has_common_options q
  && match p_subparsers q with
     | Some (MkSubSpec (Some d) _) => String.eqb d "cmd"
     | _ => false
     end
  && match initial_namespace (p_actions q) (p_defaults q) (p_subparsers q)
           !! "func" with
     | None => true
     | Some _ => false
     end.

(** A group of commands: its subparsers action is not required, and
    [cmd] is unset in the namespace it starts from. *)
Definition group_shape (q : Parser) : bool :=
  dispatch_shape q
  && match p_subparsers q with
     | Some s => negb (sub_required s)
     | None => false
     end
  && match initial_namespace (p_actions q) (p_defaults q) (p_subparsers q)
           !! "cmd" with
     | Some VNone => true
     | _ => false
     end.

(** The command lines that name a group of commands and none of its
    commands. *)
Definition group_commands : list (list string) :=
  [["ex"]; ["show"]; ["ex"; "cloud"]].

(** Along a path of plain command names every parser after [p] is a
    group. *)
Fixpoint groups_along (path : list string) (p : Parser) : bool :=
  match path with
  | [] => true
  | name :: path' =>
      negb (is_flag name)
      && match dict_get name (p_name_parser_map p) with
         | Some q => group_shape q && groups_along path' q
         | None => false
         end
  end.

Definition groups_shape (r : Res Exc Parser) : bool :=
  match r with
  | Ok P =>
      dispatch_shape P
      && forallb (fun path => groups_along path P) group_commands
  | Raise _ => false
  end.

End CliMore.

Module DataMore.
Import Py Argparse Data.

(** The attributes of [self.args] that [CmdDataStatus.run] reads. *)
Definition run_attrs : list string :=
  ["granular"; "untracked_files"; "with_dirs"; "unchanged"; "json"].

(** An action that gives its attribute a default. *)
Definition defaults_attr (k : string) (a : Action) : bool :=
  String.eqb (a_dest a) k
  && match a_default a with Some _ => true | None => false end.

(** A parent parser without arguments, the parser of [data status] built
    on it, and what that parser makes of [--json]. *)
Definition example_parser : Parser :=
  match data_status_parser empty_parser with
  | Ok q => q
  | Raise _ => empty_parser
  end.

Definition example_parsed : Namespace * list string :=
  match parse_known_args example_parser ["--json"] with
  | Ok r => r
  | Raise _ => (∅, [])
  end.

End DataMore.


Module DataShow.
Import Py Argparse Data DataProps.

(** A flag of the [git] entry, [False] when it is not there. *)
Definition flag (flags : list (string * bool)) (key : string) : bool :=
  from_option id false (dict_get key flags).

(** The line written when no section has anything to show. *)
Definition no_changes_line (flags : list (string * bool)) : UiEvent :=
  Write (if flag flags "is_empty" then "No changes in an empty git repo."
         else "No changes.") false.

(** The closing line about changes dvc does not track. *)
Definition dirty_line (other : bool) : string :=
  "[blue](there are " +:+ (if other then "other " else "")
  +:+ "changes not tracked by dvc, use " +:+ dquote +:+ "git status"
  +:+ dquote +:+ " to see)[/]".

Section Lines.
Variable unicode_capitalize : string -> string.

(** The header, the hint and the colour of a section. *)
Definition label (stage : string) : string :=
  from_option id (capitalize unicode_capitalize stage +:+ " files")
              (dict_get stage LABELS).

Definition header (stage : string) : UiEvent :=
  Write (label stage +:+ ":") false.

Definition hint_lines (stage : string) : list UiEvent :=
  match dict_get stage HINTS with
  | Some hint => [Write ("  (" +:+ hint +:+ ")") false]
  | None => []
  end.

Definition color_of (stage : string) : string :=
  from_option id "normal" (dict_get stage COLORS).

(** The text of an item: a path, or [state: file]. *)
Definition item_texts (items : Items) : list string :=
  match items with
  | ItemList l => l
  | ItemDict d => map (fun fs : string * string => snd fs +:+ ": " +:+ fst fs) d
  end.

Definition item_line (color text : string) : UiEvent :=
  Write (expandtabs 8 (String tab ("[" +:+ color +:+ "]" +:+ text +:+ "[/]")))
        true.

(** The item line when the text has no tab in it. *)
Definition plain_item_line (color text : string) : UiEvent :=
  Write ("        [" +:+ color +:+ "]" +:+ text +:+ "[/]") true.

(** The lines of the section at position [idx]: an empty line unless it
    is the first section, the header, the hint if the section has one,
    and a styled line per item. *)
Definition section_lines (idx : nat) (section : string * Items)
  : list UiEvent :=
  (match idx with 0 => [] | S _ => [Write "" false] end)
  ++ header (fst section) :: hint_lines (fst section)
  ++ map (item_line (color_of (fst section))) (item_texts (snd section)).

End Lines.

(** One of the two lines for a status without changes. *)
Definition is_no_changes (ev : UiEvent) : Prop :=
  ev = Write "No changes." false \/
  ev = Write "No changes in an empty git repo." false.

Definition tab_free (s : string) : bool := negb (contains_char tab s).

(** A status with some changes to show, flagged as dirty. *)
Definition changed_status : DataStatus :=
  [("committed", States [("added", ["data.csv"]); ("modified", [])]);
   ("untracked", Files ["notes.txt"; "plots"]);
   ("not_in_cache", Files []);
   ("git", GitInfo [("is_empty", false); ("is_dirty", true)])].

End DataShow.
Module DataOptions.
Import Py Argparse ArgparseShapes CliProps Data DataMore.

(** The actions [add_parser] gives the parser of [data status], as
    [add_argument] builds them. *)
Definition flag_action (o dest : string) : Action :=
  MkAction [o] dest StoreTrue NargsZero (VBool true) (Some (VBool false))
           TypeNone None false.

Definition untracked_action : Action :=
  MkAction ["--untracked-files"] "untracked_files" Store Optional
           (VStr "all") (Some (VStr "no")) TypeNone (Some ["no"; "all"])
           false.

Definition status_actions : list Action :=
  [flag_action "--json" "json"; flag_action "--show-json" "json";
   flag_action "--granular" "granular"; flag_action "--unchanged" "unchanged";
   untracked_action; flag_action "--with-dirs" "with_dirs"].

(** A parent parser that has options only, none of them required, and
    no argument for an attribute of [data status]. *)
Definition unrelated_parent (parent : Parser) : bool :=
  no_positionals (p_actions parent)
  && quiet_end (p_actions parent)
  && forallb (fun a => negb (mem (a_dest a) run_attrs)) (p_actions parent).

(** The flags of [data status] with the attribute each one sets, and the
    value of every attribute when no option is given. *)
Definition status_flags : list (string * string) :=
  [("--json", "json"); ("--show-json", "json"); ("--granular", "granular");
   ("--unchanged", "unchanged"); ("--with-dirs", "with_dirs")].

Definition status_defaults : list (string * Value) :=
  [("granular", VBool false); ("untracked_files", VStr "no");
   ("with_dirs", VBool false); ("unchanged", VBool false);
   ("json", VBool false)].

(** What [set_defaults(func=...)] does to the actions. *)
Definition with_func (a : Action) : Action :=
  match ({[ "func" := CmdDataStatus ]} : gmap string Value) !! a_dest a with
  | Some v =>
      MkAction (a_option_strings a) (a_dest a) (a_kind a) (a_nargs a)
               (a_const a) (Some v) (a_type a) (a_choices a) (a_required a)
  | None => a
  end.

End DataOptions.

Module CliRunOptions.
Import Py Argparse ArgparseShapes CliProps CliOptions CliMore Cli.










End CliRunOptions.

Module CliVersion.
Import Py Argparse ArgparseShapes CliProps CliOptions CliMore Cli.



End CliVersion.

Module ArgparseFacts.
Import Py Argparse ArgparseShapes.

Lemma bind_ok {E A B} (m : Res E A) (k : A -> Res E B) (b : B) :
  Py.bind m k = Ok b -> exists a, m = Ok a /\ k a = Ok b.
Proof. destruct m as [a|e]; simpl; [eauto | discriminate]. Qed.

Lemma parse_known_args_unfold (p : Parser) (args : list string) :
  parse_known_args p args =
  parse_known_with
    (map (fun nq => (fst nq, parse_known_args (snd nq)))
         (p_name_parser_map p))
    (p_actions p) (p_defaults p) (p_subparsers p) args.
Proof.
  destruct p as [acts defs sp m]; simpl. f_equal.
  induction m as [|[n q] m IH]; simpl; [reflexivity|]. by rewrite IH.
Qed.

Lemma dict_get_map {A B} (f : A -> B) (k : string) (d : list (string * A)) :
  dict_get k (map (fun nq => (fst nq, f (snd nq))) d) = f <$> dict_get k d.
Proof.
  induction d as [|[k' v] d IH]; simpl; [reflexivity|].
  destruct (String.eqb k k'); [reflexivity | apply IH].
Qed.

Lemma classify_length table args toks :
  classify table args = Ok toks -> length toks = length args.
Proof.
  revert toks. induction args as [|a args IH]; simpl; intros toks H.
  - by inversion H.
  - apply bind_ok in H as (t & _ & H). apply bind_ok in H as (ts & Hts & H).
    inversion H; subst; simpl. f_equal. by apply IH.
Qed.

Lemma parse_optional_plain table s :
  is_flag s = false -> parse_optional table s = Ok TokA.
Proof.
  intros H. unfold parse_optional. destruct (String.eqb s ""); [reflexivity|].
  by rewrite H.
Qed.

Lemma map_fst_combine {A B} (l : list A) (l' : list B) :
  length l = length l' -> map fst (combine l l') = l.
Proof.
  revert l'. induction l as [|x l IH]; intros [|y l'] H; simpl in *;
    try discriminate; [reflexivity|]. f_equal. apply IH. lia.
Qed.

Lemma map_snd_combine {A B} (l : list A) (l' : list B) :
  length l = length l' -> map snd (combine l l') = l'.
Proof.
  revert l'. induction l as [|x l IH]; intros [|y l'] H; simpl in *;
    try discriminate; [reflexivity|]. f_equal. apply IH. lia.
Qed.

Lemma downto_head n : downto (S n) 1 = S n :: downto n 1.
Proof. reflexivity. Qed.

Lemma downto_zero_head n : exists l, downto n 0 = n :: l.
Proof. destruct n; simpl; eauto. Qed.

(** The subparsers action, when it is the only positional left, takes
    the command name and everything after it. *)
Lemma consume_positionals_sub sub s st name rest :
  st_pos st = [PosSub s] ->
  consume_positionals sub st ((name, TokA) :: rest) =
  match dict_get name sub with
  | None => error (invalid_choice name)
  | Some run =>
      do ' (subns, unrec) <- run (map fst rest);
      Ok (MkPState
            (subns ∪ match sub_dest s with
                     | Some d => <[d := VStr name]> (st_ns st)
                     | None => st_ns st
                     end)
            (st_seen st) true [] (st_extras st)
            (st_sub_extras st ++ unrec), S (length rest))
  end.
Proof.
  intros Hpos. unfold consume_positionals. rewrite Hpos.
  assert (Hc : match_partial [PosSub s] (map snd ((name, TokA) :: rest))
               = [S (length rest)]).
  { unfold match_partial. simpl length. unfold match_partial_from.
    change (take 1 [PosSub s]) with [PosSub s].
    unfold match_groups, pos_candidates. simpl map. simpl run_A.
    simpl Nat.leb. simpl length. rewrite downto_head.
    rewrite length_map. reflexivity. }
  rewrite Hc. simpl take_positionals.
  rewrite firstn_all2 by (rewrite length_map; reflexivity).
  destruct (dict_get name sub) as [run|]; [|reflexivity].
  destruct (run (map fst rest)) as [[subns unrec]|e]; [|reflexivity].
  simpl. unfold with_pos. simpl. repeat f_equal. lia.
Qed.

Lemma first_option_cons_A s rest :
  first_option ((s, TokA) :: rest) = S <$> first_option rest.
Proof. reflexivity. Qed.

Lemma consume_nil sub fuel st :
  st_pos st = [] ->
  consume sub (S fuel) st [] = Ok (add_extras [] st).
Proof.
  intros Hpos. simpl. unfold consume_positionals. rewrite Hpos. simpl.
  unfold with_pos, add_extras. simpl. destruct st; simpl in *.
  by subst.
Qed.

(** [consume] on a command name in front, for a parser whose only
    positional is its subparsers action. *)
Lemma consume_sub sub s fuel st name rest :
  st_pos st = [PosSub s] ->
  consume sub (S (S fuel)) st ((name, TokA) :: rest) =
  match dict_get name sub with
  | None => error (invalid_choice name)
  | Some run =>
      do ' (subns, unrec) <- run (map fst rest);
      Ok (sub_state s name st subns unrec)
  end.
Proof.
  intros Hpos.
  change (consume sub (S (S fuel)) st ((name, TokA) :: rest)) with
    (match first_option ((name, TokA) :: rest) with
     | None =>
         do ' (st', n) <- consume_positionals sub st ((name, TokA) :: rest);
         Ok (add_extras (map fst (drop n ((name, TokA) :: rest))) st')
     | Some 0 => Raise NotModelled
     | Some k =>
         do ' (st', n) <- consume_positionals sub st ((name, TokA) :: rest);
         if Nat.ltb 0 n
         then consume sub (S fuel) st' (drop n ((name, TokA) :: rest))
         else
           match drop k ((name, TokA) :: rest) with
           | (s, TokO target) :: rest' =>
               do ' (st'', rest'') <-
                 consume_optional
                   (add_extras (map fst (take k ((name, TokA) :: rest))) st')
                   s target rest';
               consume sub (S fuel) st'' rest''
           | _ => Raise NotModelled
           end
     end).
  rewrite first_option_cons_A, (consume_positionals_sub _ s) by done.
  destruct (first_option rest) as [k|]; simpl fmap;
    destruct (dict_get name sub) as [run|]; try reflexivity;
    destruct (run (map fst rest)) as [[subns unrec]|e]; try reflexivity.
  - cbn [Py.bind]. change (Nat.ltb 0 (S (length rest))) with true.
    cbv iota. change (S (length rest)) with (length ((name, TokA) :: rest)).
    rewrite drop_all. rewrite consume_nil by reflexivity.
    reflexivity.
  - cbn [Py.bind]. change (S (length rest)) with (length ((name, TokA) :: rest)).
    rewrite drop_all. reflexivity.
Qed.

Lemma positionals_of_none acts sp :
  no_positionals acts = true ->
  positionals_of acts sp = match sp with Some s => [PosSub s] | None => [] end.
Proof.
  intros H. unfold positionals_of.
  assert (Hn : forall n, omap (fun ia : nat * Action =>
            match a_option_strings (snd ia) with
            | [] => Some (PosArg (fst ia) (snd ia))
            | _ => None
            end) (combine (seq n (length acts)) acts) = []).
  { induction acts as [|a acts IH]; intros n; simpl in *; [reflexivity|].
    apply andb_prop in H as [Ha H]. destruct (a_option_strings a);
      [discriminate|]. by apply IH. }
  by rewrite Hn.
Qed.

(** A parser with a subparsers action and no other positional hands the
    arguments after the command name to the parser registered under it,
    and copies that parser's namespace over its own. *)
Lemma parse_known_with_dispatch sub acts defs s name argv toks :
  no_positionals acts = true ->
  is_flag name = false ->
  classify (option_table acts) argv = Ok toks ->
  parse_known_with sub acts defs (Some s) (name :: argv) =
  match dict_get name sub with
  | None => error (invalid_choice name)
  | Some run =>
      do ' (subns, unrec) <- run argv;
      let st := sub_state s name
                  (MkPState (initial_namespace acts defs (Some s)) [] false
                            [PosSub s] [] []) subns unrec in
      if late_conversion acts st then Raise NotModelled
      else
        match missing_required acts (Some s) st with
        | [] => Ok (st_ns st, st_extras st ++ st_sub_extras st)
        | names => error (required_arguments names)
        end
  end.
Proof.
  intros Hpos Hname Hcl. unfold parse_known_with.
  cbn [classify]. rewrite (parse_optional_plain _ _ Hname), Hcl.
  cbn [Py.bind]. rewrite (positionals_of_none _ _ Hpos).
  cbn [combine length].
  rewrite (consume_sub _ s) by reflexivity.
  pose proof (classify_length _ _ _ Hcl) as Hlen.
  rewrite map_fst_combine by done.
  destruct (dict_get name sub) as [run|]; [|reflexivity].
  destruct (run argv) as [[subns unrec]|e]; reflexivity.
Qed.

Lemma parse_known_with_classify_fails sub acts defs sp name argv e r :
  classify (option_table acts) argv = Raise e ->
  parse_known_with sub acts defs sp (name :: argv) <> Ok r.
Proof.
  intros Hcl. unfold parse_known_with. cbn [classify]. rewrite Hcl.
  destruct (parse_optional _ name); simpl; intros; discriminate.
Qed.

Lemma option_table_in acts s i a :
  dict_get s (option_table acts) = Some (i, a) ->
  In a acts /\ a_option_strings a <> [].
Proof.
  unfold option_table. generalize 0 as n.
  induction acts as [|b l IH]; intros n H; simpl in H; [discriminate|].
  assert (Hg : forall (os : list string) tl,
             dict_get s (map (fun o => (o, (n, b))) os ++ tl) = Some (i, a) ->
             (os <> [] /\ a = b) \/ dict_get s tl = Some (i, a)).
  { induction os as [|o os IHo]; intros tl Ho; simpl in Ho; [by right|].
    destruct (String.eqb s o).
    - inversion Ho; subst. left. split; [discriminate | reflexivity].
    - destruct (IHo tl Ho) as [[_ Hab]|Ho']; [left | by right].
      split; [discriminate | exact Hab]. }
  destruct (Hg _ _ H) as [[Hne Hab]|H'].
  - subst a. split; [by left | done].
  - destruct (IH _ H') as [Hin Hne]. split; [by right | done].
Qed.

Lemma positionals_of_in acts :
  Forall (fun p => match p with
                   | PosArg _ a => In a acts /\ a_option_strings a = []
                   | PosSub _ => False
                   end) (positionals_of acts None).
Proof.
  unfold positionals_of. rewrite app_nil_r. generalize 0 as n.
  induction acts as [|b l IH]; intros n; simpl; [constructor|].
  assert (Hl : Forall (fun p => match p with
                                | PosArg _ a =>
                                    In a (b :: l) /\ a_option_strings a = []
                                | PosSub _ => False
                                end)
                 (omap (fun ia : nat * Action =>
                          match a_option_strings (snd ia) with
                          | [] => Some (PosArg (fst ia) (snd ia))
                          | _ => None
                          end) (combine (seq (S n) (length l)) l))).
  { eapply Forall_impl; [apply (IH (S n))|].
    intros [i a|s] Hp; simpl in *; tauto. }
  destruct (a_option_strings b) eqn:Hb; [|exact Hl].
  constructor; [|exact Hl]. simpl. split; [by left | done].
Qed.

(** *** Invariants of a parser without subparsers *)

Section Invariant.

Variable Inv : Namespace -> Prop.
Variable acts : list Action.

Hypothesis step : forall a args v ns ns',
  In a acts -> arity a args ->
  get_values a args = Ok v -> call_action a v ns = Ok ns' ->
  Inv ns -> Inv ns'.

Lemma take_action_inv i a args st st' :
  In a acts -> arity a args ->
  take_action i a args st = Ok st' ->
  Inv (st_ns st) -> Inv (st_ns st') /\ st_pos st' = st_pos st.
Proof.
  intros Ha Har H HI. unfold take_action in H.
  apply bind_ok in H as (v & Hv & H). apply bind_ok in H as (ns & Hns & H).
  inversion H; subst; simpl. split; [|reflexivity]. eapply step; eauto.
Qed.

Lemma take_positionals_inv sub ps counts strs st st' :
  Forall (pos_in acts) ps ->
  take_positionals sub ps counts strs st = Ok st' ->
  Inv (st_ns st) -> Inv (st_ns st') /\ st_pos st' = st_pos st.
Proof.
  intros Hps. revert counts strs st.
  induction Hps as [|p ps Hp Hps IH]; intros counts strs st H HI.
  - simpl in H. inversion H; subst. by split.
  - destruct counts as [|c counts]; simpl in H.
    { inversion H; subst. by split. }
    apply bind_ok in H as (st1 & H1 & H).
    destruct p as [i a|s]; [|destruct Hp]. destruct Hp as [Ha Hopt].
    simpl in H1. apply take_action_inv in H1 as [HI1 Hp1]; auto.
    + apply IH in H as [HI2 Hp2]; auto. split; [done | congruence].
    + intros Hne; congruence.
Qed.

Lemma consume_positionals_inv sub st rest st' n :
  Forall (pos_in acts) (st_pos st) ->
  consume_positionals sub st rest = Ok (st', n) ->
  Inv (st_ns st) -> Inv (st_ns st') /\ Forall (pos_in acts) (st_pos st').
Proof.
  intros Hps H HI. unfold consume_positionals in H.
  apply bind_ok in H as (st1 & H1 & H). inversion H; subst; simpl.
  apply take_positionals_inv in H1 as [HI1 _]; auto. split; [done|].
  by apply Forall_drop.
Qed.

Lemma match_argument_arity a rest n :
  match_argument a (map snd rest) = Ok n ->
  arity a (take n (map fst rest)).
Proof.
  intros H _ Hn. unfold match_argument in H. rewrite Hn in H.
  simpl in H. destruct rest as [|[s t] rest]; simpl in H; [discriminate|].
  destruct t; simpl in H; inversion H; subst. reflexivity.
Qed.

Lemma consume_optional_inv st s target rest st' rest' :
  (tok_in acts) (TokO target) ->
  Forall (tok_in acts) (map snd rest) ->
  consume_optional st s target rest = Ok (st', rest') ->
  Inv (st_ns st) ->
  Inv (st_ns st') /\ st_pos st' = st_pos st /\
  Forall (tok_in acts) (map snd rest') /\ length rest' <= length rest.
Proof.
  intros Ht Hrest H HI. unfold consume_optional in H.
  destruct target as [[i a]|].
  - apply bind_ok in H as (n & Hn & H). apply bind_ok in H as (st1 & H1 & H).
    inversion H; subst. destruct Ht as [Ha Hopt].
    apply take_action_inv in H1 as [HI1 Hp1]; auto.
    + repeat split; auto.
      * rewrite <- skipn_map. by apply Forall_drop.
      * rewrite length_drop. lia.
    + by apply match_argument_arity.
  - inversion H; subst. simpl. auto.
Qed.

Lemma first_option_drop rest k :
  first_option rest = Some k ->
  exists s target rest', drop k rest = (s, TokO target) :: rest'.
Proof.
  revert k. induction rest as [|[s t] rest IH]; intros k H; simpl in H;
    [discriminate|]. destruct t.
  - destruct (first_option rest) as [k'|]; simpl in H; [|discriminate].
    inversion H; subst. simpl. by apply IH.
  - inversion H; subst. simpl. eauto.
Qed.

Lemma consume_inv sub fuel st rest st' :
  Forall (pos_in acts) (st_pos st) ->
  Forall (tok_in acts) (map snd rest) ->
  consume sub fuel st rest = Ok st' ->
  Inv (st_ns st) -> Inv (st_ns st').
Proof.
  revert st rest. induction fuel as [|fuel IH]; intros st rest Hps Hts H HI;
    [discriminate|].
  simpl in H. destruct (first_option rest) as [[|k]|] eqn:Hfo.
  - destruct rest as [|[s [|target]] rest1]; try discriminate.
    apply bind_ok in H as ([st1 rest2] & H1 & H).
    simpl in Hts. apply Forall_cons in Hts as [Ht Hts].
    apply consume_optional_inv in H1 as (HI1 & Hp1 & Hts1 & _); auto.
    eapply (IH st1 rest2);
      [rewrite Hp1; exact Hps | exact Hts1 | exact H | exact HI1].
  - apply bind_ok in H as ([st1 n] & H1 & H).
    apply consume_positionals_inv in H1 as [HI1 Hps1]; auto.
    destruct (Nat.ltb 0 n).
    + eapply (IH st1 (drop n rest));
        [exact Hps1 | rewrite <- skipn_map; by apply Forall_drop
        | exact H | exact HI1].
    + destruct (first_option_drop _ _ Hfo) as (s & target & rest1 & Hd).
      rewrite Hd in H. apply bind_ok in H as ([st2 rest2] & H2 & H).
      assert (Hd' : Forall (tok_in acts) (map snd (drop (S k) rest))).
      { rewrite <- skipn_map. by apply Forall_drop. }
      rewrite Hd in Hd'. simpl in Hd'. apply Forall_cons in Hd' as [Ht Hts1].
      apply consume_optional_inv in H2 as (HI2 & Hp2 & Hts2 & _); auto.
      eapply (IH st2 rest2);
        [rewrite Hp2; exact Hps1 | exact Hts2 | exact H | exact HI2].
  - apply bind_ok in H as ([st1 n] & H1 & H). inversion H; subst; simpl.
    by apply consume_positionals_inv in H1 as [HI1 _].
Qed.

Lemma classify_in args toks :
  classify (option_table acts) args = Ok toks -> Forall (tok_in acts) toks.
Proof.
  revert toks. induction args as [|x args IH]; simpl; intros toks H.
  - inversion H. constructor.
  - apply bind_ok in H as (t & Ht & H). apply bind_ok in H as (ts & Hts & H).
    inversion H; subst. constructor; [|by apply IH].
    unfold parse_optional in Ht.
    destruct (String.eqb x ""); [by inversion Ht|].
    destruct (negb (is_flag x)); [by inversion Ht|].
    destruct (dict_get x (option_table acts)) as [[i a]|] eqn:Hg.
    + inversion Ht; subst. simpl. eapply option_table_in; eauto.
    + repeat match type of Ht with
             | (if ?c then _ else _) = _ => destruct c
             end; inversion Ht; exact I.
Qed.

(** Whatever holds of the initial namespace and is kept by every
    action of the parser holds of the namespace it returns. *)
Lemma parse_known_with_inv sub defs args ns extras :
  parse_known_with sub acts defs None args = Ok (ns, extras) ->
  Inv (initial_namespace acts defs None) -> Inv ns.
Proof.
  intros H HI. unfold parse_known_with in H.
  apply bind_ok in H as (toks & Hcl & H). apply bind_ok in H as (st & Hst & H).
  destruct (late_conversion acts st); [discriminate|].
  destruct (missing_required acts None st); [|discriminate].
  inversion H; subst.
  eapply consume_inv in Hst; eauto; [apply positionals_of_in|].
  rewrite map_snd_combine; [by eapply classify_in|].
  symmetry. by eapply classify_length.
Qed.

End Invariant.

Lemma call_action_other a v ns ns' k :
  call_action a v ns = Ok ns' -> a_dest a <> k -> ns' !! k = ns !! k.
Proof.
  unfold call_action. intros H Hk.
  destruct (a_kind a); try discriminate.
  - inversion H; subst. by rewrite lookup_insert_ne.
  - inversion H; subst. by rewrite lookup_insert_ne.
  - destruct (ns !! a_dest a) as [[]|]; inversion H; subst;
      by rewrite lookup_insert_ne.
Qed.

Lemma initial_namespace_other acts defs k :
  Forall (fun a => a_dest a <> k) acts ->
  initial_namespace acts defs None !! k = defs !! k.
Proof.
  intros Hacts. unfold initial_namespace.
  assert (Hf : forall ns : Namespace, ns !! k = None ->
             fold_left
               (fun (ns : Namespace) a =>
                  match ns !! a_dest a, a_default a with
                  | None, Some v => <[a_dest a := v]> ns
                  | _, _ => ns
                  end) acts ns !! k = None).
  { induction Hacts as [|a acts Ha Hacts IH]; intros ns Hns; simpl; [done|].
    apply IH. destruct (ns !! a_dest a), (a_default a); try done.
    by rewrite lookup_insert_ne. }
  rewrite lookup_union_r; [done|]. apply Hf. apply lookup_empty.
Qed.

(** A parser without subparsers whose actions leave the attribute [k]
    alone returns it with the value [set_defaults] gave it. *)
Lemma parse_known_args_default q k v args ns extras :
  p_subparsers q = None ->
  Forall (fun a => a_dest a <> k) (p_actions q) ->
  p_defaults q !! k = Some v ->
  parse_known_args q args = Ok (ns, extras) ->
  ns !! k = Some v.
Proof.
  intros Hsp Hacts Hdef H. rewrite parse_known_args_unfold, Hsp in H.
  eapply (parse_known_with_inv (fun ns => ns !! k = Some v)) in H; [done| |].
  - intros a args' v' ns1 ns2 Ha _ _ Hcall Hns1.
    rewrite (call_action_other _ _ _ _ k Hcall); [done|].
    rewrite Forall_forall in Hacts. apply Hacts. by apply list_elem_of_In.
  - by rewrite initial_namespace_other.
Qed.

(** *** Store-true options followed by plain arguments *)

Lemma classify_flags_plain table fl ts :
  forallb (is_store_true table) fl = true ->
  forallb (fun t => negb (is_flag t)) ts = true ->
  exists toks,
    classify table (fl ++ ts) = Ok toks /\
    combine (fl ++ ts) toks = flag_toks table fl ++ plain_toks ts.
Proof.
  intros Hfl Hts. induction fl as [|f fl IH]; simpl in *.
  - induction ts as [|t ts IHt]; simpl in *; [by exists []|].
    apply andb_prop in Hts as [Ht Hts]. apply negb_true_iff in Ht.
    destruct (IHt Hts) as (toks & Hc & Hcomb).
    exists (TokA :: toks). rewrite (parse_optional_plain _ _ Ht), Hc.
    simpl. by rewrite Hcomb.
  - apply andb_prop in Hfl as [Hf Hfl].
    destruct (IH Hfl) as (toks & Hc & Hcomb).
    unfold is_store_true in Hf. apply andb_prop in Hf as [Hflag Hf].
    exists (TokO (dict_get f table) :: toks). rewrite Hc.
    unfold parse_optional. rewrite Hflag.
    destruct f as [|c f']; [discriminate|]. simpl String.eqb. cbv iota.
    simpl negb. cbv iota.
    destruct (dict_get (String c f') table) as [ia|]; [|discriminate].
    simpl. by rewrite Hcomb.
Qed.

Lemma consume_flags sub table fl fuel st rest :
  forallb (is_store_true table) fl = true ->
  consume sub (length fl + fuel) st (flag_toks table fl ++ rest) =
  consume sub fuel (fold_left (set_flag table) fl st) rest.
Proof.
  revert st. induction fl as [|f fl IH]; intros st Hfl; simpl in *;
    [reflexivity|].
  apply andb_prop in Hfl as [Hf Hfl]. rewrite <- (IH _ Hfl).
  unfold is_store_true in Hf. apply andb_prop in Hf as [_ Hf].
  unfold set_flag. destruct (dict_get f table) as [[j b]|]; [|discriminate].
  destruct (a_kind b) eqn:Hk; try discriminate.
  destruct (a_nargs b) eqn:Hn; try discriminate.
  unfold consume_optional, match_argument, take_action, get_values,
    call_action. rewrite Hn, Hk. simpl. reflexivity.
Qed.

Lemma run_A_plain ts : run_A (map snd (plain_toks ts)) = length ts.
Proof. induction ts; simpl; congruence. Qed.

Lemma first_option_plain ts : first_option (plain_toks ts) = None.
Proof. induction ts as [|t ts IH]; simpl; [done|]. by rewrite IH. Qed.

Lemma map_fst_plain ts : map fst (plain_toks ts) = ts.
Proof. induction ts; simpl; congruence. Qed.

(** A lone [nargs='*'] positional takes all the plain arguments. *)
Lemma consume_plain sub fuel st i a ts :
  st_pos st = [PosArg i a] -> a_nargs a = ZeroOrMore ->
  consume sub (S fuel) st (plain_toks ts) =
  do st' <- take_action i a ts st;
  Ok (add_extras [] (with_pos [] st')).
Proof.
  intros Hpos Hn. simpl. rewrite first_option_plain.
  unfold consume_positionals. rewrite Hpos.
  assert (Hc : match_partial [PosArg i a] (map snd (plain_toks ts))
               = [length ts]).
  { unfold match_partial. simpl length. unfold match_partial_from.
    change (take 1 [PosArg i a]) with [PosArg i a].
    unfold match_groups, pos_candidates, nargs_candidates.
    rewrite Hn, run_A_plain.
    destruct (downto_zero_head (length ts)) as [l ->]. reflexivity. }
  rewrite Hc, map_fst_plain. simpl take_positionals.
  rewrite firstn_all.
  destruct (take_action i a ts st) as [st'|e]; [|reflexivity].
  simpl. rewrite Nat.add_0_r.
  replace (length ts) with (length (plain_toks ts))
    by (unfold plain_toks; apply length_map).
  by rewrite drop_all.
Qed.

Lemma quiet_end_missing_leaf acts st :
  forallb (fun a => negb (a_required a)) acts = true ->
  missing_required acts None st = [].
Proof.
  unfold missing_required. intros H. rewrite app_nil_r. revert H.
  generalize 0 as n.
  induction acts as [|a acts IH]; intros n H; simpl in *; [reflexivity|].
  apply andb_prop in H as [Hr H]. apply negb_true_iff in Hr.
  rewrite Hr, (IH _ H). by destruct (seen n st).
Qed.

Lemma late_conversion_false acts st :
  forallb (fun a => match a_type a, a_default a with
                    | TypeInt, Some (VStr _) => false
                    | _, _ => true
                    end) acts = true ->
  late_conversion acts st = false.
Proof.
  unfold late_conversion. generalize 0 as n.
  induction acts as [|a acts IH]; intros n H; simpl in *; [reflexivity|].
  apply andb_prop in H as [Ha H]. rewrite (IH _ H), orb_false_r.
  destruct (a_type a), (a_default a) as [[]|]; try discriminate;
    by rewrite ?andb_false_r.
Qed.

Lemma get_value_list_str a ts :
  a_type a = TypeNone -> get_value_list a ts = Ok (map VStr ts).
Proof.
  intros Ht. induction ts as [|t ts IH]; simpl; [done|].
  unfold get_value. by rewrite Ht, IH.
Qed.

Lemma check_value_list_none a vs :
  a_choices a = None -> check_value_list a vs = Ok vs.
Proof.
  intros Hc. induction vs as [|v vs IH]; simpl; [done|].
  unfold check_value. by rewrite Hc, IH.
Qed.

Lemma take_action_star i a ts st :
  a_option_strings a = [] -> a_nargs a = ZeroOrMore -> a_kind a = Store ->
  a_type a = TypeNone -> a_choices a = None -> a_default a <> None ->
  take_action i a ts st =
  Ok (with_ns (<[a_dest a := star_value a ts]> (st_ns st)) (with_seen i st)).
Proof.
  intros Ho Hn Hk Ht Hc Hd. unfold take_action, get_values, call_action.
  rewrite Ho, Hn, Hk. destruct ts as [|t ts].
  - simpl. destruct (a_default a) as [[]|]; try done;
      unfold check_value; by rewrite Hc.
  - rewrite get_value_list_str by done.
    destruct ts; cbn [Py.bind]; rewrite check_value_list_none by done;
      reflexivity.
Qed.

Lemma set_flags_fields table fl st :
  st_pos (fold_left (set_flag table) fl st) = st_pos st /\
  st_extras (fold_left (set_flag table) fl st) = st_extras st /\
  st_sub_extras (fold_left (set_flag table) fl st) = st_sub_extras st.
Proof.
  revert st. induction fl as [|f fl IH]; intros st; simpl; [done|].
  destruct (IH (set_flag table st f)) as (-> & -> & ->).
  unfold set_flag. destruct (dict_get f table) as [[j b]|]; done.
Qed.

(** A parser without subparsers whose only positional is a [nargs='*']
    one, given store-true options and then plain arguments. *)
Lemma parse_known_with_flags_plain sub acts defs i a fl ts :
  positionals_of acts None = [PosArg i a] ->
  star_positional a = true ->
  forallb (fun a => negb (a_required a)) acts = true ->
  forallb (fun a => match a_type a, a_default a with
                    | TypeInt, Some (VStr _) => false
                    | _, _ => true
                    end) acts = true ->
  forallb (is_store_true (option_table acts)) fl = true ->
  forallb (fun t => negb (is_flag t)) ts = true ->
  parse_known_with sub acts defs None (fl ++ ts) =
  Ok (<[a_dest a := star_value a ts]>
        (st_ns (fold_left (set_flag (option_table acts)) fl
                  (MkPState (initial_namespace acts defs None) [] false
                            [PosArg i a] [] []))), []).
Proof.
  intros Hpos Hstar Hreq Hlate Hfl Hts. unfold parse_known_with.
  destruct (classify_flags_plain _ _ _ Hfl Hts) as (toks & Hcl & Hcomb).
  rewrite Hcl. cbn [Py.bind]. rewrite Hcomb, Hpos.
  replace (S (length (fl ++ ts))) with (length fl + S (length ts))
    by (rewrite length_app; lia).
  rewrite consume_flags by done.
  set (st := fold_left _ fl _).
  destruct (set_flags_fields (option_table acts) fl
              (MkPState (initial_namespace acts defs None) [] false
                        [PosArg i a] [] [])) as (Hp & He & Hs).
  fold st in Hp, He, Hs. simpl in Hp, He, Hs.
  unfold star_positional in Hstar.
  destruct (a_option_strings a) eqn:Ho; [|discriminate].
  destruct (a_nargs a) eqn:Hn; try discriminate.
  destruct (a_kind a) eqn:Hk; try discriminate.
  destruct (a_type a) eqn:Ht; try discriminate.
  destruct (a_choices a) eqn:Hc; [discriminate|].
  destruct (a_default a) eqn:Hd; [|discriminate].
  rewrite (consume_plain _ _ _ i a) by done.
  rewrite take_action_star by (try done; congruence).
  cbn [Py.bind]. rewrite late_conversion_false by done.
  rewrite quiet_end_missing_leaf by done.
  simpl. rewrite He, Hs. reflexivity.
Qed.
End ArgparseFacts.

Module CliFacts.
Import Py Argparse ArgparseShapes ArgparseFacts CliProps.

Lemma quiet_end_late acts st :
  quiet_end acts = true -> late_conversion acts st = false.
Proof.
  unfold quiet_end, late_conversion. generalize 0 as n.
  induction acts as [|a acts IH]; intros n H; simpl in *; [reflexivity|].
  apply andb_prop in H as [Ha H]. rewrite (IH _ H), orb_false_r.
  apply andb_prop in Ha as [Hr Ht]. rewrite Hr.
  destruct (a_type a), (a_default a) as [[]|]; try discriminate;
    by rewrite ?andb_false_r.
Qed.

Lemma quiet_end_missing acts s st :
  quiet_end acts = true -> st_sub_seen st = true ->
  missing_required acts (Some s) st = [].
Proof.
  unfold quiet_end, missing_required. intros H ->. simpl.
  rewrite app_nil_r. revert H. generalize 0 as n.
  induction acts as [|a acts IH]; intros n H; simpl in *; [reflexivity|].
  apply andb_prop in H as [Ha H]. apply andb_prop in Ha as [Hr _].
  apply negb_true_iff in Hr. rewrite Hr, (IH _ H).
  by destruct (seen n st).
Qed.

Lemma subcommand_not_flag name h :
  In (name, h) subcommands -> is_flag name = false.
Proof.
  unfold subcommands. simpl.
  intros H; repeat destruct H as [H|H]; try (inversion H; reflexivity).
Qed.

Lemma binds_spec h q :
  binds h q = true ->
  p_subparsers q = None /\ p_defaults q !! "func" = Some h /\
  Forall (fun a => a_dest a <> "func") (p_actions q).
Proof.
  unfold binds. destruct (p_subparsers q); [discriminate|].
  destruct (p_defaults q !! "func") as [[]|]; try discriminate.
  destruct h; try discriminate. intros H. apply andb_prop in H as [Hc Ha].
  apply String.eqb_eq in Hc. subst. repeat split.
  apply Forall_forall. intros a Hin. rewrite forallb_forall in Ha.
  apply list_elem_of_In in Hin. apply Ha in Hin.
  apply negb_true_iff, String.eqb_neq in Hin. exact Hin.
Qed.

Lemma main_ok_spec P name h :
  main_ok P = true -> In (name, h) subcommands ->
  no_positionals (p_actions P) = true /\ quiet_end (p_actions P) = true /\
  (exists s, p_subparsers P = Some s) /\
  count_occ string_dec (map fst (p_name_parser_map P)) name = 1 /\
  exists q, dict_get name (p_name_parser_map P) = Some q /\ binds h q = true.
Proof.
  unfold main_ok. intros H Hin.
  apply andb_prop in H as [H Hall]. apply andb_prop in H as [H Hsp].
  apply andb_prop in H as [Hnp Hq]. rewrite forallb_forall in Hall.
  apply Hall in Hin. simpl in Hin.
  destruct (dict_get name (p_name_parser_map P)) as [q|]; [|discriminate].
  apply andb_prop in Hin as [Hb Hc]. apply Nat.eqb_eq in Hc.
  destruct (p_subparsers P) as [s|]; [|discriminate]. eauto 10.
Qed.

(** Whatever follows one of the command names, a successful parse
    carries the handler the command's parser was given. *)
Lemma parse_args_func P name h argv ns :
  main_ok P = true -> In (name, h) subcommands ->
  Argparse.parse_args P (name :: argv) = Ok ns ->
  ns !! "func" = Some h.
Proof.
  intros Hok Hin H.
  destruct (main_ok_spec _ _ _ Hok Hin)
    as (Hnp & Hq & [s Hs] & _ & q & Hget & Hb).
  apply binds_spec in Hb as (Hqs & Hqd & Hqa).
  unfold Argparse.parse_args in H.
  apply bind_ok in H as ([ns' argv'] & Hk & H).
  assert (ns' = ns) as -> by (destruct argv'; [by inversion H | discriminate]).
  rewrite parse_known_args_unfold, Hs in Hk.
  destruct (classify (option_table (p_actions P)) argv) as [toks|e] eqn:Hcl;
    [|by eapply parse_known_with_classify_fails in Hk].
  rewrite (parse_known_with_dispatch _ _ _ _ _ _ toks) in Hk;
    [|done|by eapply subcommand_not_flag|done].
  rewrite dict_get_map, Hget in Hk. simpl in Hk.
  apply bind_ok in Hk as ([subns unrec] & Hsub & Hk).
  rewrite quiet_end_late, quiet_end_missing in Hk by done.
  inversion Hk; subst. apply lookup_union_Some_l.
  eapply parse_known_args_default; eauto.
Qed.

(** A name that is not registered is never accepted. *)
Lemma parse_args_unknown P name argv ns :
  no_positionals (p_actions P) = true ->
  (exists s, p_subparsers P = Some s) ->
  is_flag name = false ->
  dict_get name (p_name_parser_map P) = None ->
  Argparse.parse_args P (name :: argv) <> Ok ns.
Proof.
  intros Hnp [s Hs] Hname Hget H. unfold Argparse.parse_args in H.
  apply bind_ok in H as ([ns' argv'] & Hk & _).
  rewrite parse_known_args_unfold, Hs in Hk.
  destruct (classify (option_table (p_actions P)) argv) as [toks|e] eqn:Hcl;
    [|by eapply parse_known_with_classify_fails in Hk].
  rewrite (parse_known_with_dispatch _ _ _ _ _ _ toks) in Hk by done.
  rewrite dict_get_map, Hget in Hk. discriminate.
Qed.

Lemma attr_ok r name v :
  attr r name = Some v -> exists ns, r = Ok ns /\ ns !! name = Some v.
Proof. destruct r as [ns|e]; simpl; [eauto | discriminate]. Qed.

Section Facts.
Variable cpu_count : Z.
Variable STAGE_FILE : string.
Variable VERSION : string.
Variable version_info_major : Z.

#[local] Abbreviation parser :=
  (Cli.parser cpu_count STAGE_FILE VERSION version_info_major).
#[local] Abbreviation parse_args :=
  (Cli.parse_args cpu_count STAGE_FILE VERSION version_info_major).
#[local] Abbreviation accepted :=
  (accepted cpu_count STAGE_FILE VERSION version_info_major).

Lemma parser_checked : parser_check parser = true.
Proof.
  unfold Cli.parser.
  destruct (Z.eqb version_info_major 3); vm_compute; reflexivity.
Qed.

Lemma parser_ok :
  exists P, parser = Ok P /\ main_ok P = true /\
            dict_get "unlock" (p_name_parser_map P) = None.
Proof.
  pose proof parser_checked as H. unfold parser_check in H.
  destruct parser as [P|e]; [|discriminate].
  apply andb_prop in H as [Hok Hu]. exists P. repeat split; [done|].
  by destruct (dict_get "unlock" (p_name_parser_map P)).
Qed.

Lemma parse_args_eq P argv :
  parser = Ok P -> parse_args argv = Argparse.parse_args P argv.
Proof. unfold Cli.parse_args. by intros ->. Qed.

Lemma subcommand_example name h :
  In (name, h) subcommands ->
  exists ns, parse_args (name :: example_argv name) = Ok ns.
Proof.
  intros Hin.
  assert (H : attr (parse_args (name :: example_argv name)) "func" = Some h).
  { revert Hin. unfold subcommands. simpl. unfold Cli.parse_args, Cli.parser.
    intros H; repeat destruct H as [H|H]; try (inversion H; subst; clear H);
      destruct (Z.eqb version_info_major 3); vm_compute; reflexivity. }
  apply attr_ok in H as (ns & H & _). eauto.
Qed.

Lemma unlock_never_parses argv ns : parse_args ("unlock" :: argv) <> Ok ns.
Proof.
  destruct parser_ok as (P & HP & Hok & Hu). rewrite (parse_args_eq P) by done.
  apply parse_args_unknown; try done.
  - unfold main_ok in Hok. by repeat (apply andb_prop in Hok as [Hok _]).
  - unfold main_ok in Hok. apply andb_prop in Hok as [Hok _].
    apply andb_prop in Hok as [_ Hs].
    destruct (p_subparsers P); [eauto | discriminate].
Qed.

(** C1 (as amended): each of init, add, run, repro, push, pull, status, gc,
    lock, checkout and remove is accepted by [parse_args] as a sub command
    and bound to one handler class through [set_defaults(func=...)];
    [unlock] is not a sub command (no command line starting with it
    parses) but the [-u]/[--unlock] option of [lock], false when not
    given. *)
Theorem subcommands_accepted :
  Forall (fun nh => accepted (fst nh) (snd nh)) subcommands /\
  (forall argv ns, parse_args ("unlock" :: argv) <> Ok ns) /\
  attr (parse_args ["lock"]) "unlock" = Some (VBool false) /\
  attr (parse_args ["lock"]) "func" = Some Cli.CmdLock /\
  attr (parse_args ["lock"; "-u"]) "unlock" = Some (VBool true) /\
  attr (parse_args ["lock"; "-u"]) "func" = Some Cli.CmdLock /\
  attr (parse_args ["lock"; "--unlock"]) "unlock" = Some (VBool true) /\
  attr (parse_args ["lock"; "--unlock"]) "func" = Some Cli.CmdLock.
Proof.
  destruct parser_ok as (P & HP & Hok & _). split; [|split].
  - apply Forall_forall. intros [name h] Hin. apply list_elem_of_In in Hin.
    destruct (main_ok_spec _ _ _ Hok Hin) as (_ & _ & _ & Hc & q & Hq & Hb).
    apply binds_spec in Hb as (_ & Hd & _).
    exists P, q. repeat split; try done.
    + intros argv ns H. rewrite (parse_args_eq P) in H by done.
      by eapply parse_args_func.
    + destruct (subcommand_example _ _ Hin) as [ns Hns]. eauto.
  - apply unlock_never_parses.
  - clear. unfold Cli.parse_args, Cli.parser.
    destruct (Z.eqb version_info_major 3);
      repeat split; vm_compute; reflexivity.
Qed.

End Facts.

(** C1, the claim as first stated fails at [unlock]: [parse_args] rejects
    it as an invalid choice, and it is bound to no handler. *)
Lemma unlock_not_accepted :
  Cli.parse_args 4 "Dvcfile" "0.9.0" 3 ["unlock"]
  = Raise (SystemExit 2 (PrintedUsage (invalid_choice "unlock"))) /\
  ~ (exists h, accepted 4 "Dvcfile" "0.9.0" 3 "unlock" h).
Proof.
  split; [vm_compute; reflexivity|].
  intros (h & P & q & HP & _ & Hget & _).
  destruct (parser_ok 4 "Dvcfile" "0.9.0" 3) as (P' & HP' & _ & Hu).
  rewrite HP in HP'. inversion HP'; subst. rewrite Hget in Hu. discriminate.
Qed.

End CliFacts.

Module CliOptionsFacts.
Import Py Argparse ArgparseShapes ArgparseFacts CliProps CliFacts CliOptions.

Lemma quiet_end_split acts :
  quiet_end acts = true ->
  forallb (fun a => negb (a_required a)) acts = true /\
  forallb (fun a => match a_type a, a_default a with
                    | TypeInt, Some (VStr _) => false
                    | _, _ => true
                    end) acts = true.
Proof.
  unfold quiet_end. induction acts as [|a acts IH]; simpl; [done|].
  intros H. apply andb_prop in H as [Ha H]. apply andb_prop in Ha as [-> ->].
  destruct (IH H) as [-> ->]. done.
Qed.

Lemma classify_ok table args :
  forallb (fun x => is_ok (parse_optional table x)) args = true ->
  exists toks, classify table args = Ok toks.
Proof.
  induction args as [|x args IH]; simpl; intros H; [by exists []|].
  apply andb_prop in H as [Hx H]. destruct (IH H) as [toks ->].
  destruct (parse_optional table x) as [t|e]; [|discriminate].
  simpl. eauto.
Qed.

Lemma forallb_app_plain table fl ts :
  forallb (fun x => is_ok (parse_optional table x)) fl = true ->
  forallb (fun t => negb (is_flag t)) ts = true ->
  forallb (fun x => is_ok (parse_optional table x)) (fl ++ ts) = true.
Proof.
  intros Hfl Hts. rewrite forallb_app, Hfl. simpl.
  apply forallb_forall. intros t Hin. rewrite forallb_forall in Hts.
  apply Hts, negb_true_iff in Hin. by rewrite parse_optional_plain.
Qed.

(** A command whose parser has a lone plain [nargs='*'] positional, given
    store-true options of that parser and then plain arguments. *)
Lemma parse_args_command_flags_plain P s name q i a fl ts :
  no_positionals (p_actions P) = true ->
  quiet_end (p_actions P) = true ->
  p_subparsers P = Some s ->
  is_flag name = false ->
  dict_get name (p_name_parser_map P) = Some q ->
  p_subparsers q = None ->
  positionals_of (p_actions q) None = [PosArg i a] ->
  star_positional a = true ->
  quiet_end (p_actions q) = true ->
  forallb (is_store_true (option_table (p_actions q))) fl = true ->
  forallb (fun f => is_ok (parse_optional (option_table (p_actions P)) f)) fl
  = true ->
  forallb (fun t => negb (is_flag t)) ts = true ->
  exists mainns,
    Argparse.parse_args P (name :: fl ++ ts) =
    Ok (<[a_dest a := star_value a ts]>
          (st_ns (fold_left (set_flag (option_table (p_actions q))) fl
                    (MkPState
                       (initial_namespace (p_actions q) (p_defaults q) None)
                       [] false [PosArg i a] [] []))) ∪ mainns).
Proof.
  intros Hnp Hq Hs Hname Hget Hqs Hpos Hstar Hqq Hfl Hmain Hts.
  destruct (classify_ok _ _ (forallb_app_plain _ _ _ Hmain Hts)) as [toks Hcl].
  destruct (quiet_end_split _ Hqq) as [Hreq Hlate].
  unfold Argparse.parse_args.
  rewrite parse_known_args_unfold, Hs.
  rewrite (parse_known_with_dispatch _ _ _ _ _ _ toks) by done.
  rewrite dict_get_map, Hget. simpl fmap. cbv iota.
  rewrite parse_known_args_unfold, Hqs.
  rewrite (parse_known_with_flags_plain _ _ _ i a) by done.
  cbn [Py.bind]. rewrite quiet_end_late, quiet_end_missing by done.
  simpl. eauto.
Qed.

Lemma set_flags_lookup table fl st k :
  forallb (sets_true table) fl = true ->
  st_ns (fold_left (set_flag table) fl st) !! k =
  if existsb (fun f => String.eqb (dest_of table f) k) fl
  then Some (VBool true) else st_ns st !! k.
Proof.
  revert st. induction fl as [|f fl IH]; intros st H; simpl in *; [done|].
  apply andb_prop in H as [Hf H]. rewrite (IH _ H).
  unfold sets_true, is_store_true in Hf. unfold set_flag, dest_of.
  destruct (dict_get f table) as [[j b]|];
    [|by rewrite !andb_false_r in Hf].
  apply andb_prop in Hf as [_ Hc].
  destruct (a_const b) as [|[]| | | |]; try discriminate. simpl.
  destruct (existsb _ fl); [by rewrite orb_true_r|]. rewrite orb_false_r.
  destruct (String.eqb_spec (a_dest b) k) as [->|Hne].
  - by rewrite lookup_insert_eq.
  - by rewrite lookup_insert_ne.
Qed.

Lemma sets_true_store table fl :
  forallb (sets_true table) fl = true ->
  forallb (is_store_true table) fl = true.
Proof.
  induction fl as [|f fl IH]; simpl; [done|]. intros H.
  apply andb_prop in H as [Hf H]. rewrite (IH H).
  unfold sets_true in Hf. by apply andb_prop in Hf as [-> _].
Qed.

Lemma forallb_sub {A} (P : A -> bool) (l fl : list A) (eqb : A -> A -> bool) :
  (forall x y, eqb x y = true -> x = y) ->
  forallb P l = true ->
  forallb (fun f => existsb (eqb f) l) fl = true ->
  forallb P fl = true.
Proof.
  intros Heq Hl Hfl. apply forallb_forall. intros f Hin.
  rewrite forallb_forall in Hfl. apply Hfl, existsb_exists in Hin.
  destruct Hin as (y & Hy & He). apply Heq in He. subst.
  rewrite forallb_forall in Hl. by apply Hl.
Qed.







Lemma consume_option_step sub fuel st o target rest :
  consume sub (S fuel) st ((o, TokO target) :: rest) =
  do ' (st', rest') <- consume_optional st o target rest;
  consume sub fuel st' rest'.
Proof. reflexivity. Qed.



(** The converse for a command line the main parser can classify. *)
Lemma parse_args_of_sub P s name q argv subns :
  no_positionals (p_actions P) = true ->
  quiet_end (p_actions P) = true ->
  p_subparsers P = Some s ->
  is_flag name = false ->
  dict_get name (p_name_parser_map P) = Some q ->
  forallb (fun x => is_ok (parse_optional (option_table (p_actions P)) x))
          argv = true ->
  parse_known_args q argv = Ok (subns, []) ->
  exists mainns, Argparse.parse_args P (name :: argv) = Ok (subns ∪ mainns).
Proof.
  intros Hnp Hq Hs Hname Hget Hcl Hsub.
  destruct (classify_ok _ _ Hcl) as [toks Htoks].
  unfold Argparse.parse_args.
  rewrite parse_known_args_unfold, Hs.
  rewrite (parse_known_with_dispatch _ _ _ _ _ _ toks) by done.
  rewrite dict_get_map, Hget. simpl fmap. cbv iota. rewrite Hsub.
  cbn [Py.bind]. rewrite quiet_end_late, quiet_end_missing by done.
  simpl. eauto.
Qed.


Section Repro.
Variable cpu_count : Z.
Variable STAGE_FILE : string.
Variable VERSION : string.
Variable version_info_major : Z.

#[local] Abbreviation parser :=
  (Cli.parser cpu_count STAGE_FILE VERSION version_info_major).
#[local] Abbreviation parse_args :=
  (Cli.parse_args cpu_count STAGE_FILE VERSION version_info_major).

Lemma repro_shaped : repro_shape parser = true.
Proof.
  unfold Cli.parser.
  destruct (Z.eqb version_info_major 3); vm_compute; reflexivity.
Qed.

Lemma repro_defaults :
  (fun q => (positional_default q, initial_attr q "force",
             initial_attr q "single_item", initial_attr q "func"))
    <$> cmd_parser parser "repro"
  = Some (Some (VList [VStr STAGE_FILE]), Some (VBool false),
          Some (VBool false), Some Cli.CmdRepro).
Proof.
  unfold Cli.parser.
  destruct (Z.eqb version_info_major 3); vm_compute; reflexivity.
Qed.

Lemma repro_flag_dest q fl :
  forallb (fun f => mem f repro_flags) fl = true ->
  String.eqb (dest_of (option_table (p_actions q)) "-f") "force" = true ->
  String.eqb (dest_of (option_table (p_actions q)) "--force") "force" = true ->
  String.eqb (dest_of (option_table (p_actions q)) "-s") "single_item" = true ->
  String.eqb (dest_of (option_table (p_actions q)) "--single-item")
             "single_item" = true ->
  existsb (fun f => String.eqb (dest_of (option_table (p_actions q)) f) "force")
          fl = mem "-f" fl || mem "--force" fl /\
  existsb (fun f => String.eqb (dest_of (option_table (p_actions q)) f)
                               "single_item")
          fl = mem "-s" fl || mem "--single-item" fl /\
  existsb (fun f => String.eqb (dest_of (option_table (p_actions q)) f) "func")
          fl = false.
Proof.
  intros Hfl H1 H2 H3 H4.
  apply String.eqb_eq in H1, H2, H3, H4.
  induction fl as [|f fl IH]; simpl in *; [done|].
  apply andb_prop in Hfl as [Hf Hfl]. destruct (IH Hfl) as (-> & -> & ->).
  unfold mem, repro_flags in Hf. simpl in Hf.
  repeat (apply orb_prop in Hf as [Hf|Hf]); try discriminate;
    apply String.eqb_eq in Hf; subst f;
    rewrite ?H1, ?H2, ?H3, ?H4; simpl; repeat split;
    repeat (destruct (mem _ fl)); reflexivity.
Qed.

(** C3: [repro] takes [-f]/[--force] and [-s]/[--single-item], each false
    unless given, and the positional [targets], which is the list of the
    names given and [[Stage.STAGE_FILE]] when none is. *)
Theorem repro_options (fl ts : list string) :
  forallb (fun f => mem f repro_flags) fl = true ->
  forallb (fun t => negb (is_flag t)) ts = true ->
  let r := parse_args ("repro" :: fl ++ ts) in
  attr r "force" = Some (VBool (mem "-f" fl || mem "--force" fl)) /\
  attr r "single_item"
  = Some (VBool (mem "-s" fl || mem "--single-item" fl)) /\
  attr r "targets"
  = Some (VList (match ts with
                 | [] => [VStr STAGE_FILE]
                 | _ => map VStr ts
                 end)) /\
  attr r "func" = Some Cli.CmdRepro.
Proof.
  intros Hfl Hts r. subst r.
  pose proof repro_shaped as Hshape. pose proof repro_defaults as Hdef.
  destruct (parser_ok cpu_count STAGE_FILE VERSION version_info_major)
    as (P & HP & Hok & _).
  rewrite (parse_args_eq _ _ _ _ P) by done.
  rewrite HP in Hshape, Hdef. unfold repro_shape in Hshape.
  unfold cmd_parser in Hdef.
  apply andb_prop in Hshape as [Hmain Hshape].
  destruct (dict_get "repro" (p_name_parser_map P)) as [q|] eqn:Hget;
    [|discriminate].
  cbv zeta in Hshape.
  apply andb_prop in Hshape as [Hshape H4]. apply andb_prop in Hshape as [Hshape H3].
  apply andb_prop in Hshape as [Hshape H2]. apply andb_prop in Hshape as [Hshape H1].
  apply andb_prop in Hshape as [Hshape Hsets].
  apply andb_prop in Hshape as [Hshape Hqq].
  apply andb_prop in Hshape as [Hqs Hstar].
  destruct (p_subparsers q) eqn:Hqs'; [discriminate|].
  simpl in Hdef. unfold positional_default, initial_attr in Hdef.
  destruct (positionals_of (p_actions q) None) as [|[i a|] [|]] eqn:Hpos;
    try discriminate.
  apply andb_prop in Hstar as [Hstar Hdest].
  apply String.eqb_eq in Hdest.
  injection Hdef as Hd Hf Hsi Hfunc.
  assert (Hfl' : forallb (sets_true (option_table (p_actions q))) fl = true).
  { eapply (forallb_sub _ repro_flags fl String.eqb); eauto.
    intros x y. apply String.eqb_eq. }
  assert (Hmain' : forallb (fun f => is_ok (parse_optional
                                (option_table (p_actions P)) f)) fl = true).
  { eapply (forallb_sub _ repro_flags fl String.eqb); eauto.
    intros x y. apply String.eqb_eq. }
  unfold main_ok in Hok.
  apply andb_prop in Hok as [Hok _]. apply andb_prop in Hok as [Hok Hsp].
  apply andb_prop in Hok as [Hnp Hqe].
  destruct (p_subparsers P) as [s|] eqn:Hs; [|discriminate].
  destruct (parse_args_command_flags_plain P s "repro" q i a fl ts)
    as [mainns ->]; try done; [by apply sets_true_store|].
  destruct (repro_flag_dest q fl) as (Hef & Hes & Hen); try done.
  simpl attr. rewrite Hdest.
  repeat split.
  - apply lookup_union_Some_l. rewrite lookup_insert_ne by done.
    rewrite set_flags_lookup by done. rewrite Hef. simpl st_ns. rewrite Hf.
    by destruct (mem "-f" fl || mem "--force" fl).
  - apply lookup_union_Some_l. rewrite lookup_insert_ne by done.
    rewrite set_flags_lookup by done. rewrite Hes. simpl st_ns. rewrite Hsi.
    by destruct (mem "-s" fl || mem "--single-item" fl).
  - apply lookup_union_Some_l. rewrite lookup_insert_eq.
    unfold star_value. rewrite Hd. by destruct ts.
  - apply lookup_union_Some_l. rewrite lookup_insert_ne by done.
    rewrite set_flags_lookup by done. rewrite Hen. simpl st_ns. exact Hfunc.
Qed.
End Repro.

Lemma repro_options_witness :
  let r := Cli.parse_args 4 "Dvcfile" "0.9.0" 3 ["repro"; "-f"; "data.dvc"] in
  attr r "force" = Some (VBool true) /\
  attr r "single_item" = Some (VBool false) /\
  attr r "targets" = Some (VList [VStr "data.dvc"]) /\
  attr r "func" = Some Cli.CmdRepro.
Proof.
  exact (repro_options 4 "Dvcfile" "0.9.0" 3 ["-f"] ["data.dvc"]
                       eq_refl eq_refl).
Defined.

End CliOptionsFacts.

Module CliJobsFacts.
Import Py Argparse ArgparseShapes ArgparseFacts CliProps CliFacts CliOptions
       CliOptionsFacts.


(** An error of the command's parser is the error of the whole parse. *)
Lemma parse_args_sub_error P s name q argv e :
  no_positionals (p_actions P) = true ->
  p_subparsers P = Some s ->
  is_flag name = false ->
  dict_get name (p_name_parser_map P) = Some q ->
  forallb (fun x => is_ok (parse_optional (option_table (p_actions P)) x))
          argv = true ->
  parse_known_args q argv = Raise e ->
  Argparse.parse_args P (name :: argv) = Raise e.
Proof.
  intros Hnp Hs Hname Hget Hcl Hsub.
  destruct (classify_ok _ _ Hcl) as [toks Htoks].
  unfold Argparse.parse_args.
  rewrite parse_known_args_unfold, Hs.
  rewrite (parse_known_with_dispatch _ _ _ _ _ _ toks) by done.
  rewrite dict_get_map, Hget. simpl fmap. cbv iota. rewrite Hsub.
  reflexivity.
Qed.


Section Jobs.
Variable cpu_count : Z.
Variable STAGE_FILE : string.
Variable VERSION : string.
Variable version_info_major : Z.

#[local] Abbreviation parser :=
  (Cli.parser cpu_count STAGE_FILE VERSION version_info_major).
#[local] Abbreviation parse_args :=
  (Cli.parse_args cpu_count STAGE_FILE VERSION version_info_major).




End Jobs.


End CliJobsFacts.

Module CliLockFacts.
Import Py Argparse ArgparseShapes ArgparseFacts CliProps CliFacts CliOptions
       CliOptionsFacts CliMore.

Lemma lock_flag_dest q fl :
  forallb (fun f => mem f lock_flags) fl = true ->
  forallb (fun f => String.eqb (dest_of (option_table (p_actions q)) f)
                               "unlock") lock_flags = true ->
  existsb (fun f => String.eqb (dest_of (option_table (p_actions q)) f)
                               "unlock") fl
  = negb (match fl with [] => true | _ => false end) /\
  existsb (fun f => String.eqb (dest_of (option_table (p_actions q)) f) "func")
          fl = false.
Proof.
  intros Hfl Hd.
  assert (Hall : forall f, In f fl ->
            String.eqb (dest_of (option_table (p_actions q)) f) "unlock"
            = true).
  { intros f Hin. rewrite forallb_forall in Hfl, Hd. apply Hd.
    apply Hfl in Hin. unfold mem in Hin. apply existsb_exists in Hin.
    destruct Hin as (g & Hg & Heq). apply String.eqb_eq in Heq. by subst. }
  split.
  - destruct fl as [|f fl]; [done|]. simpl. rewrite (Hall f); [done|by left].
  - clear Hfl. induction fl as [|f fl IH]; [done|]. simpl.
    pose proof (Hall f (or_introl eq_refl)) as Hf.
    apply String.eqb_eq in Hf. rewrite Hf. simpl.
    apply IH. intros g Hg. apply Hall. by right.
Qed.

Section Lock.
Variable cpu_count : Z.
Variable STAGE_FILE : string.
Variable VERSION : string.
Variable version_info_major : Z.

#[local] Abbreviation parser :=
  (Cli.parser cpu_count STAGE_FILE VERSION version_info_major).
#[local] Abbreviation parse_args :=
  (Cli.parse_args cpu_count STAGE_FILE VERSION version_info_major).

Lemma lock_shaped : lock_shape parser = true.
Proof.
  unfold Cli.parser.
  destruct (Z.eqb version_info_major 3); vm_compute; reflexivity.
Qed.

Lemma lock_defaults :
  (fun q => (positional_default q, initial_attr q "unlock",
             initial_attr q "func"))
    <$> cmd_parser parser "lock"
  = Some (Some (VList [VStr STAGE_FILE]), Some (VBool false),
          Some Cli.CmdLock).
Proof.
  unfold Cli.parser.
  destruct (Z.eqb version_info_major 3); vm_compute; reflexivity.
Qed.

(** X7: [lock] takes [-u]/[--unlock], false unless given (any number of
    times), and the positional [files], which is the list of the names
    given and [[Stage.STAGE_FILE]] when none is; the handler is
    [CmdLock] either way. *)
Theorem lock_options (fl ts : list string) :
  forallb (fun f => mem f lock_flags) fl = true ->
  forallb (fun t => negb (is_flag t)) ts = true ->
  let r := parse_args ("lock" :: fl ++ ts) in
  attr r "unlock"
  = Some (VBool (negb (match fl with [] => true | _ => false end))) /\
  attr r "files"
  = Some (VList (match ts with
                 | [] => [VStr STAGE_FILE]
                 | _ => map VStr ts
                 end)) /\
  attr r "func" = Some Cli.CmdLock.
Proof.
  intros Hfl Hts r. subst r.
  pose proof lock_shaped as Hshape. pose proof lock_defaults as Hdef.
  destruct (parser_ok cpu_count STAGE_FILE VERSION version_info_major)
    as (P & HP & Hok & _).
  rewrite (parse_args_eq _ _ _ _ P) by done.
  rewrite HP in Hshape, Hdef. unfold lock_shape in Hshape.
  unfold cmd_parser in Hdef.
  apply andb_prop in Hshape as [Hmain Hshape].
  destruct (dict_get "lock" (p_name_parser_map P)) as [q|] eqn:Hget;
    [|discriminate].
  cbv zeta in Hshape.
  apply andb_prop in Hshape as [Hshape Hdests].
  apply andb_prop in Hshape as [Hshape Hsets].
  apply andb_prop in Hshape as [Hshape Hqq].
  apply andb_prop in Hshape as [Hqs Hstar].
  destruct (p_subparsers q) eqn:Hqs'; [discriminate|].
  simpl in Hdef. unfold positional_default, initial_attr in Hdef.
  destruct (positionals_of (p_actions q) None) as [|[i a|] [|]] eqn:Hpos;
    try discriminate.
  apply andb_prop in Hstar as [Hstar Hdest].
  apply String.eqb_eq in Hdest.
  injection Hdef as Hd Hu Hfunc.
  assert (Hfl' : forallb (sets_true (option_table (p_actions q))) fl = true).
  { eapply (forallb_sub _ lock_flags fl String.eqb); eauto.
    intros x y. apply String.eqb_eq. }
  assert (Hmain' : forallb (fun f => is_ok (parse_optional
                                (option_table (p_actions P)) f)) fl = true).
  { eapply (forallb_sub _ lock_flags fl String.eqb); eauto.
    intros x y. apply String.eqb_eq. }
  unfold main_ok in Hok.
  apply andb_prop in Hok as [Hok _]. apply andb_prop in Hok as [Hok Hsp].
  apply andb_prop in Hok as [Hnp Hqe].
  destruct (p_subparsers P) as [s|] eqn:Hs; [|discriminate].
  destruct (parse_args_command_flags_plain P s "lock" q i a fl ts)
    as [mainns ->]; try done; [by apply sets_true_store|].
  destruct (lock_flag_dest q fl) as (Heu & Hen); try done.
  simpl attr. rewrite Hdest.
  repeat split.
  - apply lookup_union_Some_l. rewrite lookup_insert_ne by done.
    rewrite set_flags_lookup by done. rewrite Heu. simpl st_ns. rewrite Hu.
    by destruct fl.
  - apply lookup_union_Some_l. rewrite lookup_insert_eq.
    unfold star_value. rewrite Hd. by destruct ts.
  - apply lookup_union_Some_l. rewrite lookup_insert_ne by done.
    rewrite set_flags_lookup by done. rewrite Hen. simpl st_ns. exact Hfunc.
Qed.
End Lock.

Lemma lock_options_witness :
  let r := Cli.parse_args 4 "Dvcfile" "0.9.0" 3 ["lock"; "-u"; "data.dvc"] in
  attr r "unlock" = Some (VBool true) /\
  attr r "files" = Some (VList [VStr "data.dvc"]) /\
  attr r "func" = Some Cli.CmdLock.
Proof.
  exact (lock_options 4 "Dvcfile" "0.9.0" 3 ["-u"] ["data.dvc"]
                      eq_refl eq_refl).
Defined.

End CliLockFacts.

Module CliTargetsFacts.
Import Py Argparse ArgparseShapes ArgparseFacts CliProps CliFacts CliOptions
       CliOptionsFacts CliJobsFacts CliMore.

(** Which required actions are missing depends on the state only through
    what it has seen. *)
Lemma missing_required_ext acts sp st st' :
  st_seen st = st_seen st' -> st_sub_seen st = st_sub_seen st' ->
  missing_required acts sp st = missing_required acts sp st'.
Proof. unfold missing_required, seen. by intros -> ->. Qed.

Lemma classify_plain table ts :
  forallb (fun t => negb (is_flag t)) ts = true ->
  exists toks, classify table ts = Ok toks /\ combine ts toks = plain_toks ts.
Proof.
  intros Hts.
  destruct (classify_flags_plain table [] ts eq_refl Hts) as (toks & H1 & H2).
  eauto.
Qed.

(** A lone [nargs='+'] positional takes all the plain arguments when there
    is one at least, and none otherwise. *)
Lemma consume_plain_plus sub fuel st i a t ts :
  st_pos st = [PosArg i a] -> a_nargs a = OneOrMore ->
  consume sub (S fuel) st (plain_toks (t :: ts)) =
  do st' <- take_action i a (t :: ts) st;
  Ok (add_extras [] (with_pos [] st')).
Proof.
  intros Hpos Hn. cbn [consume]. rewrite first_option_plain.
  unfold consume_positionals. rewrite Hpos.
  assert (Hc : match_partial [PosArg i a] (map snd (plain_toks (t :: ts)))
               = [length (t :: ts)]).
  { unfold match_partial. simpl length. unfold match_partial_from.
    change (take 1 [PosArg i a]) with [PosArg i a].
    unfold match_groups, pos_candidates, nargs_candidates.
    rewrite Hn, run_A_plain. simpl length. rewrite downto_head. reflexivity. }
  rewrite Hc, map_fst_plain. simpl take_positionals.
  rewrite firstn_all.
  destruct (take_action i a (t :: ts) st) as [st'|e]; [|reflexivity].
  simpl. rewrite Nat.add_0_r.
  replace (length ts) with (length (plain_toks ts))
    by (unfold plain_toks; apply length_map).
  by rewrite drop_all.
Qed.

Lemma consume_plus_nil sub fuel st i a :
  st_pos st = [PosArg i a] -> a_nargs a = OneOrMore ->
  consume sub (S fuel) st [] = Ok (add_extras [] (with_pos [PosArg i a] st)).
Proof.
  intros Hpos Hn. cbn [consume first_option].
  unfold consume_positionals. rewrite Hpos.
  unfold match_partial. simpl length. unfold match_partial_from.
  change (take 1 [PosArg i a]) with [PosArg i a].
  unfold match_groups, pos_candidates, nargs_candidates. rewrite Hn.
  reflexivity.
Qed.

Lemma take_action_plus i a t ts st :
  a_nargs a = OneOrMore -> a_kind a = Store ->
  a_type a = TypeNone -> a_choices a = None ->
  take_action i a (t :: ts) st =
  Ok (with_ns (<[a_dest a := VList (map VStr (t :: ts))]> (st_ns st))
              (with_seen i st)).
Proof.
  intros Hn Hk Ht Hc. unfold take_action, get_values, call_action.
  rewrite Hn, Hk. rewrite get_value_list_str by done.
  destruct ts; cbn [Py.bind]; rewrite check_value_list_none by done;
    reflexivity.
Qed.

(** A parser without subparsers whose only positional is a required
    [nargs='+'] one, given plain arguments. *)
Lemma parse_known_with_plus sub acts defs i a t ts :
  positionals_of acts None = [PosArg i a] ->
  plus_positional a = true -> late_free acts = true ->
  missing_required acts None (seen_state [i]) = [] ->
  forallb (fun t => negb (is_flag t)) (t :: ts) = true ->
  parse_known_with sub acts defs None (t :: ts) =
  Ok (<[a_dest a := VList (map VStr (t :: ts))]>
        (initial_namespace acts defs None), []).
Proof.
  intros Hpos Hplus Hlate Hmiss Hts. unfold parse_known_with.
  destruct (classify_plain (option_table acts) _ Hts) as (toks & Hcl & Hcomb).
  rewrite Hcl. cbn [Py.bind]. rewrite Hcomb, Hpos.
  unfold plus_positional in Hplus.
  destruct (a_option_strings a) eqn:Ho; [|discriminate].
  destruct (a_nargs a) eqn:Hn; try discriminate.
  destruct (a_kind a) eqn:Hk; try discriminate.
  destruct (a_type a) eqn:Ht; try discriminate.
  destruct (a_choices a) eqn:Hc; [discriminate|].
  rewrite (consume_plain_plus _ _ _ i a) by done.
  rewrite take_action_plus by done. cbn [Py.bind].
  rewrite late_conversion_false by done.
  rewrite (missing_required_ext _ _ _ (seen_state [i])) by reflexivity.
  rewrite Hmiss. reflexivity.
Qed.

Lemma parse_known_with_plus_nil sub acts defs i a d :
  positionals_of acts None = [PosArg i a] ->
  plus_positional a = true -> late_free acts = true ->
  missing_required acts None (seen_state []) = [d] ->
  parse_known_with sub acts defs None [] = error (required_arguments [d]).
Proof.
  intros Hpos Hplus Hlate Hmiss. unfold parse_known_with.
  cbn [classify Py.bind combine length]. rewrite Hpos.
  unfold plus_positional in Hplus.
  destruct (a_option_strings a) eqn:Ho; [|discriminate].
  destruct (a_nargs a) eqn:Hn; try discriminate.
  rewrite (consume_plus_nil _ _ _ i a) by done. cbn [Py.bind].
  rewrite late_conversion_false by done.
  rewrite (missing_required_ext _ _ _ (seen_state [])) by reflexivity.
  rewrite Hmiss. reflexivity.
Qed.

Section Targets.
Variable cpu_count : Z.
Variable STAGE_FILE : string.
Variable VERSION : string.
Variable version_info_major : Z.

#[local] Abbreviation parser :=
  (Cli.parser cpu_count STAGE_FILE VERSION version_info_major).
#[local] Abbreviation parse_args :=
  (Cli.parse_args cpu_count STAGE_FILE VERSION version_info_major).

Lemma targets_shaped : targets_shape parser = true.
Proof.
  unfold Cli.parser.
  destruct (Z.eqb version_info_major 3); vm_compute; reflexivity.
Qed.

(** X8: [add] and [remove] need at least one target: without one the
    parse ends with exit status 2 and the message that [targets] is
    required, and with plain names [targets] is the list of the names
    given, in the order given. *)
Theorem targets_required (name : string) (ts : list string) :
  In name target_commands ->
  forallb (fun t => negb (is_flag t)) ts = true ->
  match ts with
  | [] =>
      parse_args [name]
      = Raise (SystemExit 2 (PrintedUsage (required_arguments ["targets"])))
  | _ => attr (parse_args (name :: ts)) "targets" = Some (VList (map VStr ts))
  end.
Proof.
  intros Hname Hts.
  pose proof targets_shaped as Hshape.
  destruct (parser_ok cpu_count STAGE_FILE VERSION version_info_major)
    as (P & HP & Hok & _).
  rewrite !(parse_args_eq _ _ _ _ P) by done.
  rewrite HP in Hshape. unfold targets_shape in Hshape.
  rewrite forallb_forall in Hshape. specialize (Hshape _ Hname).
  destruct (dict_get name (p_name_parser_map P)) as [q|] eqn:Hget;
    [|discriminate].
  apply andb_prop in Hshape as [Hshape Hpos].
  apply andb_prop in Hshape as [Hqs Hlate].
  destruct (p_subparsers q) eqn:Hqs'; [discriminate|].
  destruct (positionals_of (p_actions q) None) as [|[i a|] [|]] eqn:Hpq;
    try discriminate.
  apply andb_prop in Hpos as [Hpos Hnone].
  apply andb_prop in Hpos as [Hpos Hall].
  apply andb_prop in Hpos as [Hplus Hdest]. apply String.eqb_eq in Hdest.
  destruct (missing_required (p_actions q) None (seen_state [i])) eqn:Hm1;
    [|discriminate].
  destruct (missing_required (p_actions q) None (seen_state []))
    as [|d [|]] eqn:Hm0; try discriminate.
  apply String.eqb_eq in Hnone. subst d.
  unfold main_ok in Hok.
  apply andb_prop in Hok as [Hok _]. apply andb_prop in Hok as [Hok Hsp].
  apply andb_prop in Hok as [Hnp Hqe].
  destruct (p_subparsers P) as [sp|] eqn:Hs; [|discriminate].
  assert (Hnf : is_flag name = false).
  { clear -Hname. revert Hname. unfold target_commands.
    intros [<-|[<-|[]]]; reflexivity. }
  destruct ts as [|t ts].
  - apply (parse_args_sub_error P sp name q); try done.
    rewrite parse_known_args_unfold, Hqs'.
    by apply (parse_known_with_plus_nil _ _ _ i a).
  - destruct (parse_args_of_sub P sp name q (t :: ts)
                (<[a_dest a := VList (map VStr (t :: ts))]>
                   (initial_namespace (p_actions q) (p_defaults q) None)))
      as [mainns ->]; try done.
    + apply (forallb_app_plain _ [] (t :: ts)); done.
    + rewrite parse_known_args_unfold, Hqs'.
      by apply (parse_known_with_plus _ _ _ i a).
    + simpl. apply lookup_union_Some_l. rewrite Hdest.
      apply lookup_insert_eq.
Qed.
End Targets.

Lemma targets_required_witness :
  attr (Cli.parse_args 4 "Dvcfile" "0.9.0" 3 ["add"; "data.csv"; "images"])
       "targets"
  = Some (VList [VStr "data.csv"; VStr "images"]).
Proof.
  exact (targets_required 4 "Dvcfile" "0.9.0" 3 "add" ["data.csv"; "images"]
                          (or_introl eq_refl) eq_refl).
Defined.

End CliTargetsFacts.

Module CliRunFacts.
Import Py Argparse ArgparseShapes ArgparseFacts CliProps CliFacts CliOptions
       CliOptionsFacts CliJobsFacts CliMore CliTargetsFacts.

Lemma consume_step sub fuel st rest :
  consume sub (S fuel) st rest =
  match first_option rest with
  | None =>
      do ' (st', n) <- consume_positionals sub st rest;
      Ok (add_extras (map fst (drop n rest)) st')
  | Some 0 =>
      match rest with
      | (s, TokO target) :: rest' =>
          do ' (st', rest'') <- consume_optional st s target rest';
          consume sub fuel st' rest''
      | _ => Raise NotModelled
      end
  | Some k =>
      do ' (st', n) <- consume_positionals sub st rest;
      if Nat.ltb 0 n then consume sub fuel st' (drop n rest)
      else
        match drop k rest with
        | (s, TokO target) :: rest' =>
            do ' (st'', rest'') <-
              consume_optional
                (add_extras (map fst (take k rest)) st') s target rest';
            consume sub fuel st'' rest''
        | _ => Raise NotModelled
        end
  end.
Proof. reflexivity. Qed.







Section Run.
Variable cpu_count : Z.
Variable STAGE_FILE : string.
Variable VERSION : string.
Variable version_info_major : Z.

#[local] Abbreviation parser :=
  (Cli.parser cpu_count STAGE_FILE VERSION version_info_major).
#[local] Abbreviation parse_args :=
  (Cli.parse_args cpu_count STAGE_FILE VERSION version_info_major).



End Run.


End CliRunFacts.

Module CliCommonFacts.
Import Py Argparse ArgparseShapes ArgparseFacts CliProps CliFacts CliOptions
       CliOptionsFacts CliJobsFacts CliMore CliTargetsFacts CliRunFacts.

(** *** Attributes are never removed from a namespace *)

Lemma call_action_keys a v ns ns' k :
  call_action a v ns = Ok ns' -> is_Some (ns !! k) -> is_Some (ns' !! k).
Proof.
  unfold call_action. intros H Hk.
  destruct (a_kind a); try discriminate.
  - inversion H; subst. rewrite lookup_insert_is_Some'. tauto.
  - inversion H; subst. rewrite lookup_insert_is_Some'. tauto.
  - destruct (ns !! a_dest a) as [[]|]; inversion H; subst;
      rewrite lookup_insert_is_Some'; tauto.
Qed.

Lemma take_action_keys i a args st st' k :
  take_action i a args st = Ok st' ->
  is_Some (st_ns st !! k) -> is_Some (st_ns st' !! k).
Proof.
  intros H Hk. unfold take_action in H.
  apply bind_ok in H as (v & Hv & H). apply bind_ok in H as (ns & Hns & H).
  inversion H; subst; simpl. by eapply call_action_keys.
Qed.

Lemma take_pos_action_keys sub p args st st' k :
  take_pos_action sub p args st = Ok st' ->
  is_Some (st_ns st !! k) -> is_Some (st_ns st' !! k).
Proof.
  intros H Hk. destruct p as [i a|s]; simpl in H.
  - by eapply take_action_keys.
  - destruct args as [|name rest]; [discriminate|].
    destruct (dict_get name sub) as [run|]; [|discriminate].
    apply bind_ok in H as ([subns unrec] & Hrun & H).
    inversion H; subst; simpl. apply lookup_union_is_Some. right.
    destruct (sub_dest s); [|done].
    rewrite lookup_insert_is_Some'. tauto.
Qed.

Lemma take_positionals_keys sub ps counts strs st st' k :
  take_positionals sub ps counts strs st = Ok st' ->
  is_Some (st_ns st !! k) -> is_Some (st_ns st' !! k).
Proof.
  revert counts strs st.
  induction ps as [|p ps IH]; intros counts strs st H Hk.
  - simpl in H. by inversion H; subst.
  - destruct counts as [|c counts]; simpl in H; [by inversion H; subst|].
    apply bind_ok in H as (st1 & H1 & H).
    eapply IH; [exact H|]. by eapply take_pos_action_keys.
Qed.

Lemma consume_positionals_keys sub st rest st' n k :
  consume_positionals sub st rest = Ok (st', n) ->
  is_Some (st_ns st !! k) -> is_Some (st_ns st' !! k).
Proof.
  intros H Hk. unfold consume_positionals in H.
  apply bind_ok in H as (st1 & H1 & H). inversion H; subst; simpl.
  by eapply take_positionals_keys.
Qed.

Lemma consume_optional_keys st s target rest st' rest' k :
  consume_optional st s target rest = Ok (st', rest') ->
  is_Some (st_ns st !! k) -> is_Some (st_ns st' !! k).
Proof.
  intros H Hk. unfold consume_optional in H.
  destruct target as [[i a]|].
  - apply bind_ok in H as (n & Hn & H). apply bind_ok in H as (st1 & H1 & H).
    inversion H; subst. by eapply take_action_keys.
  - by inversion H; subst.
Qed.

Lemma consume_keys sub fuel st rest st' k :
  consume sub fuel st rest = Ok st' ->
  is_Some (st_ns st !! k) -> is_Some (st_ns st' !! k).
Proof.
  revert st rest. induction fuel as [|fuel IH]; intros st rest H Hk;
    [discriminate|].
  rewrite consume_step in H. destruct (first_option rest) as [[|j]|].
  - destruct rest as [|[s [|target]] rest1]; try discriminate.
    apply bind_ok in H as ([st1 rest2] & H1 & H).
    eapply IH; [exact H|]. by eapply consume_optional_keys.
  - apply bind_ok in H as ([st1 n] & H1 & H).
    pose proof (consume_positionals_keys _ _ _ _ _ k H1 Hk) as Hk1.
    destruct (Nat.ltb 0 n); [by eapply IH|].
    destruct (drop (S j) rest) as [|[s [|target]] rest1]; try discriminate.
    apply bind_ok in H as ([st2 rest2] & H2 & H).
    eapply IH; [exact H|]. by eapply consume_optional_keys.
  - apply bind_ok in H as ([st1 n] & H1 & H). inversion H; subst; simpl.
    by eapply consume_positionals_keys.
Qed.

(** Every attribute of the namespace a parser starts from is in the
    namespace it returns, whatever it was given. *)
Lemma parse_known_args_keys q args ns extras k :
  parse_known_args q args = Ok (ns, extras) ->
  is_Some (initial_namespace (p_actions q) (p_defaults q) (p_subparsers q)
           !! k) ->
  is_Some (ns !! k).
Proof.
  intros H Hk. rewrite parse_known_args_unfold in H.
  unfold parse_known_with in H.
  apply bind_ok in H as (toks & Hcl & H). apply bind_ok in H as (st & Hst & H).
  destruct (late_conversion _ st); [discriminate|].
  destruct (missing_required _ _ st); [|discriminate].
  inversion H; subst. by eapply consume_keys in Hst.
Qed.

(** *** Options in front of the command *)

Lemma parse_optional_known table o ia :
  is_flag o = true -> dict_get o table = Some ia ->
  parse_optional table o = Ok (TokO (Some ia)).
Proof.
  intros Hflag Hget. unfold parse_optional. rewrite Hflag, Hget.
  destruct o as [|c o']; [discriminate|]. reflexivity.
Qed.

Lemma option_ok_known table o v :
  option_ok table (o, v) = true ->
  is_flag o = true /\ exists ia, dict_get o table = Some ia.
Proof.
  unfold option_ok, is_store_true, is_store_value. intros H.
  destruct v as [v|]; [apply andb_prop in H as [H _]|];
    apply andb_prop in H as [Hf H]; (split; [done|]);
    destruct (dict_get o table) as [ia|]; try discriminate; eauto.
Qed.

Lemma classify_options table pre l :
  forallb (option_ok table) pre = true ->
  match classify table l with
  | Ok toks =>
      exists toks',
        classify table (flat_map option_words pre ++ l) = Ok toks' /\
        combine (flat_map option_words pre ++ l) toks'
        = flat_map (option_toks table) pre ++ combine l toks
  | Raise e => classify table (flat_map option_words pre ++ l) = Raise e
  end.
Proof.
  intros Hpre. induction pre as [|[o v] pre IH].
  - simpl. destruct (classify table l); eauto.
  - cbn [forallb] in Hpre. apply andb_prop in Hpre as [Hov Hpre].
    specialize (IH Hpre).
    destruct (option_ok_known _ _ _ Hov) as (Hflag & ia & Hget).
    cbn [flat_map]. rewrite <- !app_assoc.
    destruct v as [v|]; cbn [option_words option_toks app classify].
    + simpl in Hov. apply andb_prop in Hov as [_ Hv].
      apply negb_true_iff in Hv.
      rewrite (parse_optional_known _ _ _ Hflag Hget).
      rewrite (parse_optional_plain _ _ Hv). cbn [Py.bind].
      destruct (classify table l) as [toks|e].
      * destruct IH as (toks' & -> & Hcomb). cbn [Py.bind].
        eexists. split; [reflexivity|]. cbn [combine]. by rewrite Hcomb, Hget.
      * by rewrite IH.
    + rewrite (parse_optional_known _ _ _ Hflag Hget). cbn [Py.bind].
      destruct (classify table l) as [toks|e].
      * destruct IH as (toks' & -> & Hcomb). cbn [Py.bind].
        eexists. split; [reflexivity|]. cbn [combine]. by rewrite Hcomb, Hget.
      * by rewrite IH.
Qed.

(** Consuming such options leaves the positionals alone and writes the
    attributes of these options only. *)
Lemma consume_options sub table pre st fuel rest :
  forallb (option_ok table) pre = true ->
  exists st' n,
    consume sub (length (flat_map option_words pre) + fuel) st
            (flat_map (option_toks table) pre ++ rest)
    = consume sub (n + fuel) st' rest /\
    st_pos st' = st_pos st /\ st_extras st' = st_extras st /\
    st_sub_extras st' = st_sub_extras st /\
    st_sub_seen st' = st_sub_seen st /\
    forall k,
      existsb (fun ov => String.eqb (dest_of table (fst ov)) k) pre = false ->
      st_ns st' !! k = st_ns st !! k.
Proof.
  revert st fuel. induction pre as [|[o v] pre IH]; intros st fuel Hpre.
  - exists st, 0. by repeat split.
  - cbn [forallb] in Hpre. apply andb_prop in Hpre as [Hov Hpre].
    cbn [flat_map]. rewrite <- !app_assoc.
    destruct v as [v|]; cbn [option_words option_toks app length Nat.add].
    + simpl in Hov. apply andb_prop in Hov as [Ho Hv].
      unfold is_store_value in Ho. apply andb_prop in Ho as [Hflag Ho].
      rewrite consume_option_step.
      destruct (dict_get o table) as [[j b]|] eqn:Hget; [|discriminate].
      destruct (a_kind b) eqn:Hk; try discriminate.
      destruct (a_nargs b) eqn:Hn; try discriminate.
      destruct (a_type b) eqn:Ht; try discriminate.
      destruct (a_choices b) eqn:Hc; [discriminate|].
      unfold consume_optional, match_argument. rewrite Hn.
      cbn [map snd run_A nargs_candidates Nat.leb Py.bind fst firstn skipn].
      unfold take_action, get_values. rewrite Hn.
      unfold get_value, check_value, call_action. rewrite Ht, Hc, Hk.
      rewrite ?firstn_O, ?drop_0. cbn [Py.bind].
      destruct (IH (with_ns (<[a_dest b := VStr v]> (st_ns st))
                            (with_seen j st)) (S fuel) Hpre)
        as (st' & n & Hcons & Hp & He & Hs & Hss & Hns).
      exists st', (S n).
      rewrite Nat.add_succ_r in Hcons. rewrite Hcons.
      replace (n + S fuel) with (S n + fuel) by lia.
      repeat split; try done.
      intros k Hk'. cbn [existsb fst] in Hk'.
      apply orb_false_elim in Hk' as [Hd Hk'].
      rewrite (Hns k Hk'). simpl.
      unfold dest_of in Hd. rewrite Hget in Hd.
      apply String.eqb_neq in Hd. by rewrite lookup_insert_ne.
    + simpl in Hov.
      unfold is_store_true in Hov. apply andb_prop in Hov as [Hflag Ho].
      rewrite consume_option_step.
      destruct (dict_get o table) as [[j b]|] eqn:Hget; [|discriminate].
      destruct (a_kind b) eqn:Hk; try discriminate.
      destruct (a_nargs b) eqn:Hn; try discriminate.
      unfold consume_optional, match_argument. rewrite Hn.
      cbn [nargs_candidates Py.bind firstn skipn].
      unfold take_action, get_values, call_action. rewrite Hn, Hk.
      rewrite ?firstn_O, ?drop_0.
      cbn [Py.bind get_value_list check_value_list].
      destruct (IH (with_ns (<[a_dest b := a_const b]> (st_ns st))
                            (with_seen j st)) fuel Hpre)
        as (st' & n & Hcons & Hp & He & Hs & Hss & Hns).
      exists st', n. rewrite Hcons.
      repeat split; try done.
      intros k Hk'. cbn [existsb fst] in Hk'.
      apply orb_false_elim in Hk' as [Hd Hk'].
      rewrite (Hns k Hk'). simpl.
      unfold dest_of in Hd. rewrite Hget in Hd.
      apply String.eqb_neq in Hd. by rewrite lookup_insert_ne.
Qed.

(** Options in front of the command whose attributes the command's
    parser sets as well make no difference to the result. *)
Lemma parse_known_with_options_dispatch sub acts defs s pre name argv :
  no_positionals acts = true -> quiet_end acts = true ->
  is_flag name = false ->
  forallb (option_ok (option_table acts)) pre = true ->
  (forall run subns unrec k,
      dict_get name sub = Some run -> run argv = Ok (subns, unrec) ->
      existsb (fun ov => String.eqb (dest_of (option_table acts) (fst ov)) k)
              pre = true ->
      is_Some (subns !! k)) ->
  parse_known_with sub acts defs (Some s)
                   (flat_map option_words pre ++ name :: argv)
  = parse_known_with sub acts defs (Some s) (name :: argv).
Proof.
  intros Hnp Hq Hname Hpre Hsub.
  pose proof (classify_options (option_table acts) pre (name :: argv) Hpre)
    as Hcl.
  cbn [classify] in Hcl. rewrite (parse_optional_plain _ _ Hname) in Hcl.
  cbn [Py.bind] in Hcl.
  destruct (classify (option_table acts) argv) as [toks|e] eqn:Hargv;
    cbn [Py.bind] in Hcl.
  - destruct Hcl as (toks' & Hcl & Hcomb).
    rewrite (parse_known_with_dispatch _ _ _ _ _ _ toks) by done.
    unfold parse_known_with. rewrite Hcl. cbn [Py.bind].
    rewrite Hcomb. cbn [combine]. rewrite (positionals_of_none _ _ Hnp).
    rewrite length_app. cbn [length].
    replace (S (length (flat_map option_words pre) + S (length argv)))
      with (length (flat_map option_words pre) + S (S (length argv)))
      by lia.
    destruct (consume_options sub (option_table acts) pre
                (MkPState (initial_namespace acts defs (Some s)) [] false
                          [PosSub s] [] [])
                (S (S (length argv)))
                ((name, TokA) :: combine argv toks) Hpre)
      as (st' & n & -> & Hp & He & Hs & _ & Hns).
    replace (n + S (S (length argv))) with (S (S (n + length argv))) by lia.
    rewrite (consume_sub _ s) by done.
    rewrite map_fst_combine by (symmetry; by eapply classify_length).
    destruct (dict_get name sub) as [run|] eqn:Hrun; [|reflexivity].
    destruct (run argv) as [[subns unrec]|e] eqn:Hres; [|reflexivity].
    cbn [Py.bind]. cbv zeta.
    rewrite !quiet_end_late, !quiet_end_missing by done.
    unfold sub_state. cbn [st_ns st_extras st_sub_extras].
    simpl in He, Hs. rewrite He, Hs. f_equal. f_equal.
    apply map_eq. intros k.
    destruct (subns !! k) as [x|] eqn:Hx;
      [by rewrite !(lookup_union_Some_l _ _ _ _ Hx)|].
    rewrite !lookup_union_r by done.
    assert (Hk : existsb (fun ov => String.eqb
                            (dest_of (option_table acts) (fst ov)) k) pre
                 = false).
    { destruct (existsb _ pre) eqn:Hex; [|done].
      destruct (Hsub run subns unrec k eq_refl Hres Hex) as [y Hy].
      congruence. }
    specialize (Hns k Hk). simpl in Hns.
    destruct (sub_dest s) as [d|]; [|by rewrite Hns].
    destruct (String.eqb_spec d k) as [->|Hne].
    + by rewrite !lookup_insert_eq.
    + by rewrite !lookup_insert_ne, Hns.
  - unfold parse_known_with. rewrite Hcl. cbn [classify].
    rewrite (parse_optional_plain _ _ Hname), Hargv. reflexivity.
Qed.

Lemma dict_get_In {A} (k : string) (d : list (string * A)) (v : A) :
  dict_get k d = Some v -> In (k, v) d.
Proof.
  induction d as [|[k' v'] d IH]; simpl; [discriminate|].
  destruct (String.eqb_spec k k') as [->|Hne]; intros H.
  - inversion H; subst. by left.
  - right. by apply IH.
Qed.

Lemma mem_true_In s l : mem s l = true -> In s l.
Proof.
  unfold mem. intros H. apply existsb_exists in H as (y & Hy & Heq).
  apply String.eqb_eq in Heq. by subst.
Qed.

Section Common.
Variable cpu_count : Z.
Variable STAGE_FILE : string.
Variable VERSION : string.
Variable version_info_major : Z.

#[local] Abbreviation parser :=
  (Cli.parser cpu_count STAGE_FILE VERSION version_info_major).
#[local] Abbreviation parse_args :=
  (Cli.parse_args cpu_count STAGE_FILE VERSION version_info_major).

Lemma common_shaped : common_shape parser = true.
Proof.
  unfold Cli.parser.
  destruct (Z.eqb version_info_major 3); vm_compute; reflexivity.
Qed.

(** X10: the common options [-q], [-v], [-b BRANCH] and [-n BRANCH] have
    no effect when they are given in front of the command: the parser
    of the command starts from its own defaults for [quiet], [verbose],
    [branch] and [new_branch] and its namespace is copied over the main
    parser's, so the result, a namespace or an error, is that of the
    command line without them. *)
Theorem leading_options_lost (pre : list (string * option string))
        (name : string) (argv : list string) :
  forallb common_option pre = true ->
  is_flag name = false ->
  parse_args (flat_map option_words pre ++ name :: argv)
  = parse_args (name :: argv).
Proof.
  intros Hpre Hname.
  pose proof common_shaped as Hshape.
  destruct (parser_ok cpu_count STAGE_FILE VERSION version_info_major)
    as (P & HP & Hok & _).
  rewrite !(parse_args_eq _ _ _ _ P) by done.
  rewrite HP in Hshape. unfold common_shape in Hshape. cbv zeta in Hshape.
  apply andb_prop in Hshape as [Hshape Hsubs].
  apply andb_prop in Hshape as [Hflags Hvalued].
  unfold main_ok in Hok.
  apply andb_prop in Hok as [Hok _]. apply andb_prop in Hok as [Hok Hsp].
  apply andb_prop in Hok as [Hnp Hqe].
  destruct (p_subparsers P) as [sp|] eqn:Hs; [|discriminate].
  rewrite forallb_forall in Hflags, Hvalued, Hsubs.
  assert (Hitem : forall ov, In ov pre ->
            option_ok (option_table (p_actions P)) ov = true /\
            mem (dest_of (option_table (p_actions P)) (fst ov)) common_dests
            = true).
  { intros [o v] Hin. rewrite forallb_forall in Hpre. apply Hpre in Hin.
    cbn [common_option] in Hin. destruct v as [v|].
    - apply andb_prop in Hin as [Ho Hv]. apply mem_true_In, Hvalued in Ho.
      apply andb_prop in Ho as [Ho Hd]. simpl. by rewrite Ho, Hv.
    - apply mem_true_In, Hflags in Hin. apply andb_prop in Hin as [Ho Hd]. done. }
  unfold Argparse.parse_args. rewrite !parse_known_args_unfold, Hs.
  rewrite parse_known_with_options_dispatch; try done.
  - apply forallb_forall. intros ov Hin. by apply Hitem.
  - intros run subns unrec k Hrun Hres Hex.
    rewrite dict_get_map in Hrun.
    destruct (dict_get name (p_name_parser_map P)) as [q|] eqn:Hget;
      [|discriminate].
    simpl in Hrun. inversion Hrun; subst run.
    apply (parse_known_args_keys q argv subns unrec); [done|].
    apply dict_get_In, Hsubs in Hget. cbn [snd] in Hget.
    rewrite forallb_forall in Hget.
    apply existsb_exists in Hex as (ov & Hin & Heq).
    apply String.eqb_eq in Heq. subst k.
    destruct (Hitem ov Hin) as [_ Hd]. apply mem_true_In, Hget in Hd.
    by destruct (initial_namespace _ _ _ !! _).
Qed.
End Common.

Lemma leading_options_lost_witness :
  Cli.parse_args 4 "Dvcfile" "0.9.0" 3 ["-q"; "-b"; "dev"; "push"; "-j"; "2"]
  = Cli.parse_args 4 "Dvcfile" "0.9.0" 3 ["push"; "-j"; "2"].
Proof.
  exact (leading_options_lost 4 "Dvcfile" "0.9.0" 3
           [("-q", None); ("-b", Some "dev")] "push" ["-j"; "2"]
           eq_refl eq_refl).
Defined.

End CliCommonFacts.

Module CliGroupFacts.
Import Py Argparse ArgparseShapes ArgparseFacts CliProps CliFacts CliOptions
       CliOptionsFacts CliJobsFacts CliMore CliTargetsFacts CliRunFacts
       CliCommonFacts.

Lemma quiet_end_missing_unseen acts s st :
  quiet_end acts = true -> st_sub_seen st = false ->
  missing_required acts (Some s) st =
  if sub_required s then [from_option id "" (sub_dest s)] else [].
Proof.
  unfold quiet_end, missing_required. intros H ->.
  assert (Ho : forall n,
             omap (fun ia : nat * Action =>
                     if seen (fst ia) st then None
                     else if a_required (snd ia) then Some (a_dest (snd ia))
                          else None) (combine (seq n (length acts)) acts)
             = []).
  { induction acts as [|a acts IH]; intros n; simpl in *; [reflexivity|].
    apply andb_prop in H as [Ha H]. apply andb_prop in Ha as [Hr _].
    apply negb_true_iff in Hr. rewrite Hr, (IH H).
    by destruct (seen n st). }
  rewrite Ho. reflexivity.
Qed.

(** A parser with nothing but options and a subparsers action, given
    options only: the command is missing. *)
Lemma parse_known_with_options_only sub acts defs s pre :
  no_positionals acts = true -> quiet_end acts = true ->
  forallb (option_ok (option_table acts)) pre = true ->
  exists ns,
    parse_known_with sub acts defs (Some s) (flat_map option_words pre)
    = (if sub_required s
       then error (required_arguments [from_option id "" (sub_dest s)])
       else Ok (ns, [])) /\
    forall k,
      existsb (fun ov => String.eqb (dest_of (option_table acts) (fst ov)) k)
              pre = false ->
      ns !! k = initial_namespace acts defs (Some s) !! k.
Proof.
  intros Hnp Hq Hpre.
  pose proof (classify_options (option_table acts) pre [] Hpre) as Hcl.
  cbn [classify combine] in Hcl. destruct Hcl as (toks' & Hcl & Hcomb).
  rewrite app_nil_r in Hcl, Hcomb.
  unfold parse_known_with. rewrite Hcl. cbn [Py.bind]. rewrite Hcomb.
  rewrite (positionals_of_none _ _ Hnp).
  replace (S (length (flat_map option_words pre)))
    with (length (flat_map option_words pre) + 1) by lia.
  destruct (consume_options sub (option_table acts) pre
              (MkPState (initial_namespace acts defs (Some s)) [] false
                        [PosSub s] [] []) 1 [] Hpre)
    as (st' & n & -> & Hp & He & Hs & Hss & Hns).
  simpl in Hp, He, Hs, Hss, Hns.
  replace (n + 1) with (S n) by lia. rewrite consume_step.
  cbn [first_option]. unfold consume_positionals. rewrite Hp.
  change (match_partial [PosSub s] (map snd [])) with (@nil nat).
  cbn [take_positionals Py.bind length drop map sum_list_with].
  rewrite quiet_end_late by done.
  rewrite quiet_end_missing_unseen by done.
  exists (st_ns st'). split; [|exact Hns].
  destruct (sub_required s); [reflexivity|].
  simpl. by rewrite He, Hs.
Qed.

(** What the common options of a parser are to its table. *)
Lemma common_option_ok q ov :
  has_common_options q = true -> common_option ov = true ->
  option_ok (option_table (p_actions q)) ov = true /\
  mem (dest_of (option_table (p_actions q)) (fst ov)) common_dests = true.
Proof.
  unfold has_common_options. cbv zeta. intros H Hov.
  apply andb_prop in H as [Hflags Hvalued].
  rewrite forallb_forall in Hflags, Hvalued.
  destruct ov as [o [v|]]; cbn [common_option] in Hov.
  - apply andb_prop in Hov as [Ho Hv]. apply mem_true_In, Hvalued in Ho.
    apply andb_prop in Ho as [Ho Hd]. simpl. by rewrite Ho, Hv.
  - apply mem_true_In, Hflags in Hov. by apply andb_prop in Hov as [Ho Hd].
Qed.

Lemma common_options_ok q pre :
  has_common_options q = true -> forallb common_option pre = true ->
  forallb (option_ok (option_table (p_actions q))) pre = true.
Proof.
  intros Hq Hpre. apply forallb_forall. intros ov Hin.
  rewrite forallb_forall in Hpre. by apply (common_option_ok q ov Hq), Hpre.
Qed.

Lemma common_options_other q pre k :
  has_common_options q = true -> forallb common_option pre = true ->
  mem k common_dests = false ->
  existsb (fun ov => String.eqb (dest_of (option_table (p_actions q)) (fst ov))
                                k) pre = false.
Proof.
  intros Hq Hpre Hk.
  destruct (existsb _ pre) eqn:Hex; [|reflexivity].
  apply existsb_exists in Hex as (ov & Hin & Heq).
  apply String.eqb_eq in Heq. rewrite forallb_forall in Hpre.
  destruct (common_option_ok q ov Hq (Hpre _ Hin)) as [_ Hd]. congruence.
Qed.

Lemma common_words_classified q pre :
  has_common_options q = true -> forallb common_option pre = true ->
  forallb (fun x => is_ok (parse_optional (option_table (p_actions q)) x))
          (flat_map option_words pre) = true.
Proof.
  intros Hq Hpre. induction pre as [|[o v] pre IH]; [reflexivity|].
  cbn [forallb] in Hpre. apply andb_prop in Hpre as [Hov Hpre].
  cbn [flat_map]. rewrite forallb_app, (IH Hpre), andb_true_r.
  destruct (common_option_ok q _ Hq Hov) as [Hok _].
  destruct (option_ok_known _ _ _ Hok) as (Hflag & ia & Hget).
  destruct v as [v|]; cbn [option_words forallb];
    rewrite (parse_optional_known _ _ _ Hflag Hget); [|reflexivity].
  simpl in Hok. apply andb_prop in Hok as [_ Hv].
  apply negb_true_iff in Hv. by rewrite (parse_optional_plain _ _ Hv).
Qed.

Lemma dispatch_shape_spec q :
  dispatch_shape q = true ->
  no_positionals (p_actions q) = true /\ quiet_end (p_actions q) = true /\
  has_common_options q = true /\
  (exists r, p_subparsers q = Some (MkSubSpec (Some "cmd") r)) /\
  initial_namespace (p_actions q) (p_defaults q) (p_subparsers q) !! "func"
  = None.
Proof.
  unfold dispatch_shape. intros H.
  apply andb_prop in H as [H Hf]. apply andb_prop in H as [H Hs].
  apply andb_prop in H as [H Hc]. apply andb_prop in H as [Hnp Hq].
  repeat split; try done.
  - destruct (p_subparsers q) as [[[d|] r]|]; try discriminate.
    apply String.eqb_eq in Hs. subst. eauto.
  - by destruct (initial_namespace _ _ _ !! "func").
Qed.

(** A group given nothing but common options: the parse succeeds, with
    no command and no handler. *)
Lemma group_alone q pre :
  group_shape q = true -> forallb common_option pre = true ->
  exists ns,
    parse_known_args q (flat_map option_words pre) = Ok (ns, []) /\
    ns !! "func" = None /\ ns !! "cmd" = Some VNone.
Proof.
  unfold group_shape. intros H Hpre.
  apply andb_prop in H as [H Hcmd]. apply andb_prop in H as [Hd Hreq].
  destruct (dispatch_shape_spec _ Hd) as (Hnp & Hq & Hc & [r Hs] & Hf).
  rewrite Hs in Hreq, Hcmd, Hf. simpl in Hreq.
  apply negb_true_iff in Hreq. subst r.
  rewrite parse_known_args_unfold, Hs.
  destruct (parse_known_with_options_only
              (map (fun nq => (fst nq, parse_known_args (snd nq)))
                   (p_name_parser_map q))
              (p_actions q) (p_defaults q) (MkSubSpec (Some "cmd") false) pre
              Hnp Hq (common_options_ok _ _ Hc Hpre)) as (ns & -> & Hns).
  exists ns. split; [reflexivity|].
  rewrite !Hns by (by apply common_options_other).
  split; [done|].
  by destruct (initial_namespace _ _ _ !! "cmd") as [[]|].
Qed.

(** Such a result passes unchanged through a dispatching parser. *)
Lemma dispatch_group P name q argv subns :
  dispatch_shape P = true -> is_flag name = false ->
  dict_get name (p_name_parser_map P) = Some q ->
  forallb (fun x => is_ok (parse_optional (option_table (p_actions P)) x))
          argv = true ->
  parse_known_args q argv = Ok (subns, []) ->
  subns !! "func" = None -> subns !! "cmd" = Some VNone ->
  exists ns,
    parse_known_args P (name :: argv) = Ok (ns, []) /\
    ns !! "func" = None /\ ns !! "cmd" = Some VNone.
Proof.
  intros Hd Hname Hget Hcl Hsub Hfunc Hcmd.
  destruct (dispatch_shape_spec _ Hd) as (Hnp & Hq & Hc & [r Hs] & Hf).
  rewrite Hs in Hf.
  destruct (classify_ok _ _ Hcl) as [toks Htoks].
  rewrite parse_known_args_unfold, Hs.
  rewrite (parse_known_with_dispatch _ _ _ _ _ _ toks) by done.
  rewrite dict_get_map, Hget. simpl fmap. cbv iota. rewrite Hsub.
  cbn [Py.bind]. cbv zeta.
  rewrite quiet_end_late, quiet_end_missing by done.
  eexists. split; [reflexivity|]. unfold sub_state. simpl. split.
  - apply lookup_union_None. split; [done|].
    by rewrite lookup_insert_ne.
  - by apply lookup_union_Some_l.
Qed.

Lemma groups_along_plain path q :
  groups_along path q = true ->
  forallb (fun t => negb (is_flag t)) path = true.
Proof.
  revert q. induction path as [|name path IH]; intros q H; [reflexivity|].
  simpl in H. apply andb_prop in H as [Hn H].
  destruct (dict_get name (p_name_parser_map q)) as [q'|]; [|discriminate].
  apply andb_prop in H as [_ H]. simpl. by rewrite Hn, (IH q').
Qed.

Lemma path_words_classified q path pre :
  has_common_options q = true -> forallb common_option pre = true ->
  forallb (fun t => negb (is_flag t)) path = true ->
  forallb (fun x => is_ok (parse_optional (option_table (p_actions q)) x))
          (path ++ flat_map option_words pre) = true.
Proof.
  intros Hq Hpre Hpath. rewrite forallb_app.
  rewrite (common_words_classified _ _ Hq Hpre), andb_true_r.
  apply forallb_forall. intros t Hin. rewrite forallb_forall in Hpath.
  apply Hpath, negb_true_iff in Hin. by rewrite parse_optional_plain.
Qed.

Lemma groups_parse pre path :
  forallb common_option pre = true ->
  forall q,
    group_shape q = true -> groups_along path q = true ->
    exists ns,
      parse_known_args q (path ++ flat_map option_words pre) = Ok (ns, []) /\
      ns !! "func" = None /\ ns !! "cmd" = Some VNone.
Proof.
  intros Hpre. induction path as [|name path IH]; intros q Hq Hpath.
  - by apply group_alone.
  - simpl in Hpath. apply andb_prop in Hpath as [Hn Hpath].
    apply negb_true_iff in Hn.
    destruct (dict_get name (p_name_parser_map q)) as [q'|] eqn:Hget;
      [|discriminate].
    apply andb_prop in Hpath as [Hq' Hpath].
    destruct (IH q' Hq' Hpath) as (subns & Hsub & Hf & Hc).
    unfold group_shape in Hq. apply andb_prop in Hq as [Hq _].
    apply andb_prop in Hq as [Hd _].
    apply (dispatch_group q name q' _ subns); try done.
    apply path_words_classified; try done.
    + by destruct (dispatch_shape_spec _ Hd) as (_ & _ & ? & _).
    + by eapply groups_along_plain.
Qed.

Section Groups.
Variable cpu_count : Z.
Variable STAGE_FILE : string.
Variable VERSION : string.
Variable version_info_major : Z.

#[local] Abbreviation parser :=
  (Cli.parser cpu_count STAGE_FILE VERSION version_info_major).
#[local] Abbreviation parse_args :=
  (Cli.parse_args cpu_count STAGE_FILE VERSION version_info_major).

Lemma required_shaped :
  version_info_major = 3%Z -> required_shape parser = true.
Proof. intros ->. vm_compute. reflexivity. Qed.

Lemma groups_shaped : groups_shape parser = true.
Proof.
  unfold Cli.parser.
  destruct (Z.eqb version_info_major 3); vm_compute; reflexivity.
Qed.

(** X11: with [sys.version_info[0] == 3] the command is required: a
    command line with no command, empty or made of common options only,
    ends with exit status 2 and the message that [cmd] is required. *)
Theorem command_required (pre : list (string * option string)) :
  version_info_major = 3%Z ->
  forallb common_option pre = true ->
  parse_args (flat_map option_words pre)
  = Raise (SystemExit 2 (PrintedUsage (required_arguments ["cmd"]))).
Proof.
  intros Hv Hpre.
  pose proof (required_shaped Hv) as Hshape.
  destruct (parser_ok cpu_count STAGE_FILE VERSION version_info_major)
    as (P & HP & Hok & _).
  rewrite (parse_args_eq _ _ _ _ P) by done.
  rewrite HP in Hshape. unfold required_shape in Hshape. clear HP Hv.
  apply andb_prop in Hshape as [Hc Hs].
  destruct (p_subparsers P) as [[[d|] []]|] eqn:Hsp; try discriminate.
  apply String.eqb_eq in Hs. subst d.
  unfold main_ok in Hok.
  apply andb_prop in Hok as [Hok _]. apply andb_prop in Hok as [Hok _].
  apply andb_prop in Hok as [Hnp Hqe].
  unfold Argparse.parse_args. rewrite parse_known_args_unfold, Hsp.
  destruct (parse_known_with_options_only
              (map (fun nq => (fst nq, parse_known_args (snd nq)))
                   (p_name_parser_map P))
              (p_actions P) (p_defaults P) (MkSubSpec (Some "cmd") true) pre
              Hnp Hqe (common_options_ok _ _ Hc Hpre)) as (ns & -> & _).
  reflexivity.
Qed.

(** X12: under Python 3 the groups [ex], [show] and [ex cloud] are not
    under that workaround: named without one of their commands, with or
    without common options after them, they parse, and the namespace has
    [cmd] set to [None] and no [func] at all. *)
Theorem group_without_func (path : list string)
        (pre : list (string * option string)) :
  version_info_major = 3%Z ->
  In path group_commands ->
  forallb common_option pre = true ->
  exists ns,
    parse_args (path ++ flat_map option_words pre) = Ok ns /\
    ns !! "func" = None /\ ns !! "cmd" = Some VNone.
Proof.
  intros _ Hpath Hpre.
  pose proof groups_shaped as Hshape.
  destruct (parser_ok cpu_count STAGE_FILE VERSION version_info_major)
    as (P & HP & Hok & _).
  rewrite (parse_args_eq _ _ _ _ P) by done.
  rewrite HP in Hshape. unfold groups_shape in Hshape.
  apply andb_prop in Hshape as [Hd Hall].
  rewrite forallb_forall in Hall. specialize (Hall _ Hpath).
  destruct path as [|name path].
  { exfalso. clear -Hpath. unfold group_commands in Hpath. simpl in Hpath.
    repeat (destruct Hpath as [Hpath|Hpath]; [discriminate|]).
    destruct Hpath. }
  pose proof (groups_along_plain _ _ Hall) as Hplain.
  simpl in Hall, Hplain.
  apply andb_prop in Hall as [Hn Hall]. apply negb_true_iff in Hn.
  apply andb_prop in Hplain as [_ Hplain].
  destruct (dict_get name (p_name_parser_map P)) as [q|] eqn:Hget;
    [|discriminate].
  apply andb_prop in Hall as [Hq Hall].
  destruct (groups_parse pre path Hpre q Hq Hall) as (subns & Hsub & Hf & Hc).
  destruct (dispatch_group P name q (path ++ flat_map option_words pre)
              subns Hd Hn Hget) as (ns & Hns & ? & ?);
    try done.
  - apply path_words_classified; try done.
    by destruct (dispatch_shape_spec _ Hd) as (_ & _ & ? & _).
  - exists ns. unfold Argparse.parse_args.
    change ((name :: path) ++ flat_map option_words pre)
      with (name :: path ++ flat_map option_words pre).
    rewrite Hns. done.
Qed.
End Groups.

Lemma command_required_witness :
  Cli.parse_args 4 "Dvcfile" "0.9.0" 3 ["-q"]
  = Raise (SystemExit 2 (PrintedUsage (required_arguments ["cmd"]))).
Proof.
  exact (command_required 4 "Dvcfile" "0.9.0" 3 [("-q", None)]
                          eq_refl eq_refl).
Defined.

Lemma group_without_func_witness :
  exists ns,
    Cli.parse_args 4 "Dvcfile" "0.9.0" 3 ["ex"; "cloud"; "-v"] = Ok ns /\
    ns !! "func" = None /\ ns !! "cmd" = Some VNone.
Proof.
  apply (group_without_func 4 "Dvcfile" "0.9.0" 3 ["ex"; "cloud"]
                            [("-v", None)]).
  - reflexivity.
  - right. right. left. reflexivity.
  - reflexivity.
Defined.

End CliGroupFacts.
Module CliRunOptionFacts.
Import Py Argparse ArgparseShapes ArgparseFacts CliProps CliFacts CliOptions
       CliOptionsFacts CliJobsFacts CliMore CliTargetsFacts CliRunFacts
       CliCommonFacts CliRunOptions.











Section RunOptions.
Variable cpu_count : Z.
Variable STAGE_FILE : string.
Variable VERSION : string.
Variable version_info_major : Z.

#[local] Abbreviation parser :=
  (Cli.parser cpu_count STAGE_FILE VERSION version_info_major).
#[local] Abbreviation parse_args :=
  (Cli.parse_args cpu_count STAGE_FILE VERSION version_info_major).


End RunOptions.


End CliRunOptionFacts.

Module CliVersionFacts.
Import Py Argparse ArgparseShapes ArgparseFacts CliProps CliFacts CliOptions
       CliOptionsFacts CliMore CliRunFacts CliCommonFacts CliGroupFacts
       CliVersion.


Section Version.
Variable cpu_count : Z.
Variable STAGE_FILE : string.
Variable VERSION : string.
Variable version_info_major : Z.

#[local] Abbreviation parser :=
  (Cli.parser cpu_count STAGE_FILE VERSION version_info_major).
#[local] Abbreviation parse_args :=
  (Cli.parse_args cpu_count STAGE_FILE VERSION version_info_major).


End Version.


End CliVersionFacts.


(** ** Facts on [dvc/commands/data.py] *)

Module DataFacts.
Import Py Argparse Data DataProps.

Lemma dict_get_set_eq {A} k (v : A) d : dict_get k (dict_set k v d) = Some v.
Proof.
  induction d as [|[k' v'] d IH]; simpl.
  - by rewrite String.eqb_refl.
  - destruct (String.eqb k k') eqn:E; simpl.
    + by rewrite String.eqb_refl.
    + by rewrite E.
Qed.

Lemma dict_get_set_ne {A} k k' (v : A) d :
  k <> k' -> dict_get k' (dict_set k v d) = dict_get k' d.
Proof.
  intros Hne. induction d as [|[k0 v0] d IH]; simpl.
  - destruct (String.eqb_spec k' k); [congruence | done].
  - destruct (String.eqb_spec k k0) as [->|Hk]; simpl.
    + destruct (String.eqb_spec k' k0); [congruence | done].
    + destruct (String.eqb_spec k' k0); [done | apply IH].
Qed.

Lemma dict_set_keys {A} k (v : A) d :
  NoDup (map fst d) -> NoDup (map fst (dict_set k v d)).
Proof.
  induction d as [|[k0 v0] d IH]; simpl; intros Hnd.
  - repeat constructor. apply not_elem_of_nil.
  - apply NoDup_cons in Hnd as [Hin Hnd].
    destruct (String.eqb_spec k k0) as [->|Hk]; simpl.
    + by apply NoDup_cons.
    + apply NoDup_cons. split; [|by apply IH].
      intros Hin'. apply Hin. clear -Hin' Hk.
      induction d as [|[k1 v1] d IH]; simpl in *.
      * apply list_elem_of_singleton in Hin'. congruence.
      * destruct (String.eqb_spec k k1) as [->|Hk1]; simpl in *.
        -- exact Hin'.
        -- apply elem_of_cons in Hin' as [->|Hin']; [by left|].
           right. by apply IH.
Qed.

Lemma mem_In s l : mem s l = true <-> In s l.
Proof.
  unfold mem. rewrite existsb_exists. split.
  - intros (x & Hx & He). apply String.eqb_eq in He. by subst.
  - intros H. exists s. split; [done | apply String.eqb_refl].
Qed.

Lemma flatten_files file st files (acc : list (string * string)) :
  dict_get file (fold_left (fun d f => dict_set f st d) files acc)
  = if mem file files then Some st else dict_get file acc.
Proof.
  revert acc. induction files as [|f files IH]; intros acc; simpl; [done|].
  rewrite IH. destruct (mem file files) eqn:Hm.
  - by rewrite orb_true_r.
  - rewrite orb_false_r. destruct (String.eqb_spec file f) as [->|Hne].
    + apply dict_get_set_eq.
    + by apply dict_get_set_ne.
Qed.

Lemma flatten_from file d (acc : list (string * string)) :
  dict_get file
    (fold_left
       (fun d (sf : string * list string) =>
          fold_left (fun d f => dict_set f (fst sf) d) (snd sf) d) d acc)
  = fold_left (fun r (sf : string * list string) =>
                 if mem file (snd sf) then Some (fst sf) else r)
              d (dict_get file acc).
Proof.
  revert acc. induction d as [|[st files] d IH]; intros acc; simpl; [done|].
  by rewrite IH, flatten_files.
Qed.

Lemma flatten_lookup file d : dict_get file (flatten d) = last_state file d.
Proof. unfold flatten, last_state. by rewrite flatten_from. Qed.

Lemma flatten_keys_from d (acc : list (string * string)) :
  NoDup (map fst acc) ->
  NoDup (map fst
           (fold_left
              (fun d (sf : string * list string) =>
                 fold_left (fun d f => dict_set f (fst sf) d) (snd sf) d)
              d acc)).
Proof.
  revert acc. induction d as [|[st files] d IH]; intros acc Hnd; simpl;
    [done|].
  apply IH. clear IH. revert acc Hnd.
  induction files as [|f files IHf]; intros acc Hnd; simpl; [done|].
  apply IHf. by apply dict_set_keys.
Qed.

Lemma last_state_from file d r :
  fold_left (fun r (sf : string * list string) =>
               if mem file (snd sf) then Some (fst sf) else r) d r
  = match last_state file d with Some st => Some st | None => r end.
Proof.
  unfold last_state. revert r.
  induction d as [|[st files] d IH]; intros r; simpl; [done|].
  rewrite IH, (IH (if mem file files then Some st else None)).
  destruct (fold_left _ d None); [done|]. by destruct (mem file files).
Qed.

Lemma last_state_app file d1 d2 :
  last_state file (d1 ++ d2)
  = match last_state file d2 with
    | Some st => Some st
    | None => last_state file d1
    end.
Proof.
  unfold last_state at 1. rewrite fold_left_app.
  fold (last_state file d1). apply last_state_from.
Qed.

Lemma last_state_none file d :
  last_state file d = None <->
  forall st files, In (st, files) d -> ~ In file files.
Proof.
  induction d as [|[st files] d IH] using rev_ind.
  - split; [intros _ ? ? [] | done].
  - rewrite last_state_app. unfold last_state at 1. simpl.
    destruct (mem file files) eqn:Hm.
    + split; [discriminate|]. intros H. exfalso.
      apply (H st files); [apply in_or_app; right; by left|].
      by apply mem_In.
    + split.
      * intros H st' files' Hin. apply in_app_or in Hin as [Hin|[Heq|[]]].
        -- by apply (proj1 IH H st' files').
        -- inversion Heq; subst. intros Hf. apply mem_In in Hf. congruence.
      * intros H. apply IH. intros st' files' Hin. apply (H st' files').
        apply in_or_app. by left.
Qed.

Lemma last_state_some file d st :
  last_state file d = Some st ->
  exists files, In (st, files) d /\ In file files.
Proof.
  induction d as [|[st' files] d IH] using rev_ind.
  - discriminate.
  - rewrite last_state_app. unfold last_state at 1. simpl.
    destruct (mem file files) eqn:Hm.
    + intros H. inversion H; subst. exists files. split.
      * apply in_or_app. right. by left.
      * by apply mem_In.
    + intros H. destruct (IH H) as (fs & Hin & Hf). exists fs. split; [|done].
      apply in_or_app. by left.
Qed.

(** X1: the flattened dict of [_process_status] has one entry per file that
    some state lists, bound to a state that lists it, and to the state of
    the binding given when no later one lists the file. *)
Theorem flatten_maps_files_to_states (d : list (string * list string)) :
  NoDup (map fst (flatten d)) /\
  (forall file st,
      dict_get file (flatten d) = Some st ->
      exists files, In (st, files) d /\ In file files) /\
  (forall file,
      dict_get file (flatten d) = None <->
      forall st files, In (st, files) d -> ~ In file files) /\
  (forall d1 st files d2 file,
      d = d1 ++ (st, files) :: d2 -> In file files ->
      (forall st' files', In (st', files') d2 -> ~ In file files') ->
      dict_get file (flatten d) = Some st).
Proof.
  split; [|split; [|split]].
  - unfold flatten. apply flatten_keys_from. constructor.
  - intros file st. rewrite flatten_lookup. apply last_state_some.
  - intros file. rewrite flatten_lookup. apply last_state_none.
  - intros d1 st files d2 file -> Hin Hlater. rewrite flatten_lookup.
    change (d1 ++ (st, files) :: d2) with (d1 ++ [(st, files)] ++ d2).
    rewrite app_assoc, last_state_app.
    apply last_state_none in Hlater. rewrite Hlater, last_state_app.
    unfold last_state at 1. simpl. apply mem_In in Hin. by rewrite Hin.
Qed.

Lemma dict_get_nil {A} (d : list (string * A)) :
  d = [] <-> forall k, dict_get k d = None.
Proof.
  split; [by intros ->|]. destruct d as [|[k v] d]; [done|].
  intros H. specialize (H k). simpl in H. by rewrite String.eqb_refl in H.
Qed.

Lemma lists_nothing_spec d :
  lists_nothing d = true <->
  forall st files file, In (st, files) d -> ~ In file files.
Proof.
  unfold lists_nothing. rewrite forallb_forall. split.
  - intros H st files file Hin Hf. specialize (H _ Hin). simpl in H.
    by destruct files.
  - intros H [st files] Hin. simpl. destruct files as [|f files]; [done|].
    exfalso. apply (H st (f :: files) f Hin). by left.
Qed.

(** The flattened dict is empty exactly when no state lists a file. *)
Lemma flatten_nil d : flatten d = [] <-> lists_nothing d = true.
Proof.
  rewrite dict_get_nil, lists_nothing_spec. split.
  - intros H st files file Hin Hf.
    pose proof (H file) as Hn. rewrite flatten_lookup in Hn.
    by apply (proj1 (last_state_none file d) Hn st files).
  - intros H file. rewrite flatten_lookup. apply last_state_none.
    intros st files Hin. by apply (H st files file).
Qed.

Lemma dict_get_In_nodup {A} k (v : A) d :
  NoDup (map fst d) -> In (k, v) d -> dict_get k d = Some v.
Proof.
  induction d as [|[k' v'] d IH]; simpl; [done|]. intros Hnd Hin.
  apply NoDup_cons in Hnd as [Hk Hnd].
  destruct Hin as [Heq|Hin].
  - inversion Heq; subst. by rewrite String.eqb_refl.
  - destruct (String.eqb_spec k k') as [->|Hne]; [|by apply IH].
    exfalso. apply Hk. apply list_elem_of_In. apply in_map_iff.
    by exists (k', v).
Qed.

Lemma dict_get_Some_In {A} k (v : A) d : dict_get k d = Some v -> In (k, v) d.
Proof.
  induction d as [|[k' v'] d IH]; simpl; [done|].
  destruct (String.eqb_spec k k') as [->|Hne]; intros H.
  - inversion H; subst. by left.
  - right. by apply IH.
Qed.

Lemma flatten_flattens d : flattens d (flatten d).
Proof.
  assert (Hnd : NoDup (map fst (flatten d)))
    by (unfold flatten; apply flatten_keys_from; constructor).
  split; [exact Hnd|]. split.
  - intros file st Hin. apply (dict_get_In_nodup _ _ _ Hnd) in Hin.
    rewrite flatten_lookup in Hin. by apply last_state_some.
  - intros st files file Hin Hf.
    destruct (dict_get file (flatten d)) as [st'|] eqn:Hg.
    + exists st'. by apply dict_get_Some_In.
    + rewrite flatten_lookup in Hg.
      by destruct (proj1 (last_state_none file d) Hg st files Hin).
Qed.

(** What [_process_status] hands out, in closed form: the bindings in
    their order, up to the first value it cannot iterate. *)
Lemma process_status_closed pre post :
  no_flags pre = true ->
  match post with
  | [] => True
  | (_, GitInfo (_ :: _)) :: _ => True
  | _ => False
  end ->
  _process_status (pre ++ post)
  = (omap yielded pre,
     match post with [] => None | _ => Some TypeError end).
Proof.
  intros Hpre Hpost.
  induction pre as [|[stage v] pre IH]; simpl.
  - destruct post as [|[stage v] post]; [done|].
    destruct v as [l|d|[|g0 g]]; try done.
  - simpl in Hpre. apply andb_prop in Hpre as [Hv Hpre]. rewrite (IH Hpre).
    unfold yielded. cbn [fst snd].
    destruct v as [[|f l]|d|[|]]; simpl in *; try discriminate;
      try reflexivity.
    destruct (lists_nothing d) eqn:Hl.
    + apply flatten_nil in Hl. by rewrite Hl.
    + destruct (flatten d) eqn:Hf; [|reflexivity].
      apply flatten_nil in Hf. congruence.
Qed.

Lemma process_status_plain status :
  no_flags status = true ->
  _process_status status = (omap yielded status, None).
Proof.
  intros H. rewrite <- (app_nil_r status) at 1.
  by rewrite process_status_closed.
Qed.

(** Every status splits at the first value that cannot be iterated. *)
Lemma status_split (status : DataStatus) :
  exists pre post,
    status = pre ++ post /\ no_flags pre = true /\
    match post with
    | [] => True
    | (_, GitInfo (_ :: _)) :: _ => True
    | _ => False
    end.
Proof.
  induction status as [|[stage v] status (pre & post & -> & Hpre & Hpost)].
  - by exists [], [].
  - destruct v as [l|d|[|g0 g]].
    + by exists ((stage, Files l) :: pre), post.
    + by exists ((stage, States d) :: pre), post.
    + by exists ((stage, GitInfo []) :: pre), post.
    + by exists [], ((stage, GitInfo (g0 :: g)) :: pre ++ post).
Qed.

Lemma forallb_false_ex {A} (f : A -> bool) (l : list A) :
  forallb f l = false -> exists x, In x l /\ f x = false.
Proof.
  induction l as [|x l IH]; simpl; [discriminate|].
  destruct (f x) eqn:Hx; simpl.
  - intros H. destruct (IH H) as (y & Hy & Hf). exists y. auto.
  - intros _. exists x. auto.
Qed.

Lemma In_omap {A B} (f : A -> option B) (l : list A) (y : B) :
  In y (omap f l) <-> exists x, In x l /\ f x = Some y.
Proof.
  induction l as [|x l IH]; simpl.
  - split; [done | by intros (x & [] & _)].
  - destruct (f x) as [z|] eqn:Hx; simpl; rewrite ?IH; split.
    + intros [->|(x' & Hin & Hf)]; [exists x; auto | exists x'; auto].
    + intros (x' & [->|Hin] & Hf); [left; congruence | right; eauto].
    + intros (x' & Hin & Hf). exists x'; auto.
    + intros (x' & [->|Hin] & Hf); [congruence | eauto].
Qed.

Lemma yielded_spec stage v stage' items :
  yielded (stage, v) = Some (stage', items) ->
  stage' = stage /\ nonempty items /\ items_of v items /\ has_content v.
Proof.
  unfold yielded. cbn [fst snd]. destruct v as [[|f l]|d|g]; try done.
  - intros H. inversion H; subst. by repeat split.
  - destruct (lists_nothing d) eqn:Hl; [done|].
    intros H. inversion H; subst. split; [done|]. split; [|split].
    + simpl. intros Hf. apply flatten_nil in Hf. congruence.
    + apply flatten_flattens.
    + simpl. destruct (forallb_false_ex _ d Hl) as ([st files] & Hin & Hx).
      simpl in Hx.
      destruct files as [|file files]; [done|].
      exists st, (file :: files), file. split; [done | by left].
Qed.

Lemma yielded_content stage v :
  has_content v -> exists items, yielded (stage, v) = Some (stage, items).
Proof.
  unfold yielded. cbn [fst snd]. destruct v as [[|f l]|d|g]; try done.
  - eauto.
  - intros (st & files & file & Hin & Hf).
    destruct (lists_nothing d) eqn:Hl; [|eauto].
    by destruct (proj1 (lists_nothing_spec d) Hl st files file).
Qed.

(** X2: what [_process_status] hands out for a status of lists and dicts:
    in their order, each list that has a path as it is and each dict
    that lists a file flattened, and nothing for the others; a value it
    cannot iterate, the flags of a git entry, ends it with [TypeError]
    after the pairs of the bindings before. *)
Theorem process_status_yields (status : DataStatus) :
  (no_flags status = true ->
   _process_status status = (omap yielded status, None))
  /\ (forall pre stage g0 g post,
         status = pre ++ (stage, GitInfo (g0 :: g)) :: post ->
         no_flags pre = true ->
         _process_status status = (omap yielded pre, Some TypeError)).
Proof.
  split.
  - apply process_status_plain.
  - intros pre stage g0 g post -> Hpre. by rewrite process_status_closed.
Qed.

(** C9: every pair [_process_status] hands out has items that are not
    empty and are those of a binding of its stage: the list itself, or
    the dict flattened to one entry per listed file, bound to a state
    that lists it.  A stage whose status is empty is handed out by no
    binding, and in a status of lists and dicts every binding with
    something in it is handed out. *)
Theorem process_status_nonempty (status : DataStatus) :
  Forall (fun p : string * Items =>
            nonempty (snd p) /\
            exists v, In (fst p, v) status /\ items_of v (snd p) /\
                      has_content v)
         (fst (_process_status status))
  /\ (no_flags status = true ->
      forall stage v, In (stage, v) status -> has_content v ->
                      exists items,
                        In (stage, items) (fst (_process_status status)) /\
                        items_of v items).
Proof.
  destruct (status_split status) as (pre & post & -> & Hpre & Hpost).
  rewrite (process_status_closed pre post Hpre Hpost). cbn [fst]. split.
  - apply Forall_forall. intros [stage items] Hin.
    apply list_elem_of_In, In_omap in Hin as ([stage0 v] & Hin & Hy).
    apply yielded_spec in Hy as (-> & Hne & Hof & Hc). cbn [fst snd].
    split; [done|]. exists v. split; [|done].
    apply in_or_app. by left.
  - intros Hall stage v Hin Hc.
    assert (Hpost' : post = []).
    { destruct post as [|[s [l|d|[|g0 g]]] post]; try done.
      unfold no_flags in Hall. rewrite forallb_app in Hall.
      apply andb_prop in Hall as [_ Hall]. simpl in Hall. discriminate. }
    subst post. rewrite app_nil_r in Hin.
    destruct (yielded_content stage v Hc) as [items Hy].
    exists items. split.
    + apply In_omap. by exists (stage, v).
    + by apply yielded_spec in Hy as (_ & _ & Hof & _).
Qed.

Lemma dict_pop_remove {A} key (d : list (string * A)) :
  dict_pop key d =
  match dict_get key d with
  | Some v => Ok (v, dict_remove key d)
  | None => Raise (KeyError key)
  end.
Proof. reflexivity. Qed.

Lemma dict_get_remove_eq {A} key (d : list (string * A)) :
  dict_get key (dict_remove key d) = None.
Proof.
  unfold dict_remove. induction d as [|[k v] d IH]; simpl; [done|].
  destruct (String.eqb key k) eqn:E; simpl; [done|]. by rewrite E.
Qed.

Lemma dict_get_remove_ne {A} key k (d : list (string * A)) :
  key <> k -> dict_get k (dict_remove key d) = dict_get k d.
Proof.
  intros Hne. unfold dict_remove. induction d as [|[k' v] d IH]; simpl; [done|].
  destruct (String.eqb_spec key k') as [->|Hk]; simpl.
  - destruct (String.eqb_spec k k'); [congruence | done].
  - by rewrite IH.
Qed.

Lemma has_key_remove_ne {A} key k (d : list (string * A)) :
  key <> k -> has_key k (dict_remove key d) = has_key k d.
Proof. intros Hne. unfold has_key. by rewrite dict_get_remove_ne. Qed.

Lemma has_key_get {A} k (d : list (string * A)) :
  has_key k d = true -> exists v, dict_get k d = Some v.
Proof. unfold has_key. destruct (dict_get k d); [eauto | discriminate]. Qed.

Lemma show_status_code cap status out code :
  _show_status cap status = (out, Ok code) -> code = 0%Z.
Proof.
  unfold _show_status.
  repeat match goal with
         | |- context [match ?x with _ => _ end] => destruct x
         end; intros H; inversion H; reflexivity.
Qed.

Section RunFacts.
Variable unicode_capitalize : string -> string.
Variable data_status : Value -> Value -> Value -> DataStatus.

#[local] Abbreviation run := (Data.run unicode_capitalize).
#[local] Abbreviation _show_status := (Data._show_status unicode_capitalize).

(** X3: whatever [data_status] returns and whatever the arguments are, a run
    of [CmdDataStatus.run] that returns at all returns 0. *)
Theorem run_returns_zero (args : Namespace) (out : list UiEvent) (code : Z) :
  run data_status args = (out, Ok code) -> code = 0%Z.
Proof.
  unfold run.
  destruct (getattr args "granular") as [g|]; simpl; [|discriminate].
  destruct (getattr args "untracked_files") as [u|]; simpl; [|discriminate].
  destruct (getattr args "with_dirs") as [w|]; simpl; [|discriminate].
  destruct (getattr args "unchanged") as [c|]; simpl; [|discriminate].
  destruct (if negb (truthy c) then _ else _) as [s1|]; simpl; [|discriminate].
  destruct (if is_str u "no" then _ else _) as [s2|]; simpl; [|discriminate].
  destruct (getattr args "json") as [j|]; simpl; [|discriminate].
  destruct (truthy j).
  - destruct (dict_pop "git" s2) as [[gi s3]|]; simpl; [|discriminate].
    intros H. by inversion H.
  - simpl. apply show_status_code.
Qed.


(** [CmdDataStatus.run] in closed form, when its arguments are set and
    the sections it removes are there. *)
Lemma run_closed_form (args : Namespace) (g u w c j : Value) :
  args !! "granular" = Some g ->
  args !! "untracked_files" = Some u ->
  args !! "with_dirs" = Some w ->
  args !! "unchanged" = Some c ->
  args !! "json" = Some j ->
  let status := data_status g u w in
  (truthy c = false -> has_key "unchanged" status = true) ->
  (is_str u "no" = true -> has_key "untracked" status = true) ->
  (truthy j = true -> has_key "git" status = true) ->
  run data_status args =
  (if truthy j
   then ([WriteJson (compact (dict_remove "git" (trimmed c u status)))],
         Ok 0%Z)
   else _show_status (trimmed c u status)).
Proof.
  intros Hg Hu Hw Hc Hj status Hunch Huntr Hgit.
  unfold run, getattr. rewrite Hg, Hu, Hw, Hc, Hj. cbn [Py.bind].
  fold status. unfold trimmed.
  assert (H1 : (if negb (truthy c)
                then do ' (_, status0) <- dict_pop "unchanged" status;
                     Ok status0
                else Ok status)
               = Ok (if truthy c then status
                     else dict_remove "unchanged" status)).
  { destruct (truthy c); simpl; [done|]. rewrite dict_pop_remove.
    destruct (has_key_get _ _ (Hunch eq_refl)) as [v ->]. reflexivity. }
  rewrite H1. cbn [Py.bind].
  set (s1 := if truthy c then status else dict_remove "unchanged" status).
  assert (H2 : (if is_str u "no"
                then do ' (_, status0) <- dict_pop "untracked" s1; Ok status0
                else Ok s1)
               = Ok (if is_str u "no" then dict_remove "untracked" s1
                     else s1)).
  { destruct (is_str u "no"); [|done]. rewrite dict_pop_remove.
    assert (Hk : has_key "untracked" s1 = true).
    { subst s1. destruct (truthy c); [by apply Huntr|].
      rewrite has_key_remove_ne by done. by apply Huntr. }
    destruct (has_key_get _ _ Hk) as [v ->]. reflexivity. }
  rewrite H2. cbn [Py.bind].
  set (s2 := if is_str u "no" then dict_remove "untracked" s1 else s1).
  destruct (truthy j); [|reflexivity].
  rewrite dict_pop_remove.
  assert (Hk : has_key "git" s2 = true).
  { subst s2 s1. destruct (is_str u "no"), (truthy c);
      rewrite ?has_key_remove_ne by done; by apply Hgit. }
  destruct (has_key_get _ _ Hk) as [v ->]. reflexivity.
Qed.

Lemma trimmed_facts (c u : Value) (status : DataStatus) :
  (truthy c = false -> has_key "unchanged" (trimmed c u status) = false)
  /\ (is_str u "no" = true ->
      has_key "untracked" (trimmed c u status) = false)
  /\ Forall (fun kv => status_truthy (snd kv) = true /\ fst kv <> "git")
            (compact (dict_remove "git" (trimmed c u status))).
Proof.
  split; [|split].
  - intros Hf. unfold trimmed. rewrite Hf. unfold has_key.
    destruct (is_str u "no").
    + rewrite dict_get_remove_ne by done. by rewrite dict_get_remove_eq.
    + by rewrite dict_get_remove_eq.
  - intros Hn. unfold trimmed. rewrite Hn. unfold has_key.
    by rewrite dict_get_remove_eq.
  - apply Forall_forall. intros [k v] Hin. unfold compact in Hin.
    apply list_elem_of_In, filter_In in Hin as [Hin Ht]. split; [done|].
    simpl. unfold dict_remove in Hin. apply filter_In in Hin as [_ Hk].
    cbn [fst] in Hk. apply negb_true_iff, String.eqb_neq in Hk. congruence.
Qed.

(** X4: with its arguments set and the sections it removes present,
    [CmdDataStatus.run] drops [unchanged] unless asked for it and
    [untracked] when [untracked_files] is ["no"]; under [--json] it also
    drops [git], writes the non-empty sections left as one JSON value and
    nothing else, and returns 0; otherwise it shows what is left. *)
Theorem run_trims_sections (args : Namespace) (g u w c j : Value) :
  args !! "granular" = Some g ->
  args !! "untracked_files" = Some u ->
  args !! "with_dirs" = Some w ->
  args !! "unchanged" = Some c ->
  args !! "json" = Some j ->
  let status := data_status g u w in
  (truthy c = false -> has_key "unchanged" status = true) ->
  (is_str u "no" = true -> has_key "untracked" status = true) ->
  (truthy j = true -> has_key "git" status = true) ->
  run data_status args =
  (if truthy j
   then ([WriteJson (compact (dict_remove "git" (trimmed c u status)))],
         Ok 0%Z)
   else _show_status (trimmed c u status))
  /\ (truthy c = false -> has_key "unchanged" (trimmed c u status) = false)
  /\ (is_str u "no" = true ->
      has_key "untracked" (trimmed c u status) = false)
  /\ Forall (fun kv => status_truthy (snd kv) = true /\ fst kv <> "git")
            (compact (dict_remove "git" (trimmed c u status))).
Proof.
  intros Hg Hu Hw Hc Hj status Hunch Huntr Hgit.
  split; [by apply run_closed_form | apply trimmed_facts].
Qed.

(** What [CmdDataStatus.run] does when a section it is to remove is
    missing. *)
Lemma run_missing_key (args : Namespace) (g u w c j : Value) :
  args !! "granular" = Some g ->
  args !! "untracked_files" = Some u ->
  args !! "with_dirs" = Some w ->
  args !! "unchanged" = Some c ->
  args !! "json" = Some j ->
  let status := data_status g u w in
  (truthy c = false -> has_key "unchanged" status = false ->
   run data_status args = ([], Raise (KeyError "unchanged")))
  /\ ((truthy c = false -> has_key "unchanged" status = true) ->
      is_str u "no" = true -> has_key "untracked" status = false ->
      run data_status args = ([], Raise (KeyError "untracked")))
  /\ ((truthy c = false -> has_key "unchanged" status = true) ->
      (is_str u "no" = true -> has_key "untracked" status = true) ->
      has_key "git" status = false ->
      run data_status args = ([], Raise (KeyError "git"))).
Proof.
  intros Hg Hu Hw Hc Hj status.
  assert (Hnone : forall k (d : DataStatus),
             has_key k d = false -> dict_pop k d = Raise (KeyError k)).
  { intros k d. unfold has_key. rewrite dict_pop_remove.
    by destruct (dict_get k d). }
  assert (Hsome : forall k (d : DataStatus),
             has_key k d = true ->
             exists v, dict_pop k d = Ok (v, dict_remove k d)).
  { intros k d Hk. rewrite dict_pop_remove.
    destruct (has_key_get _ _ Hk) as [v ->]. eauto. }
  unfold run, getattr. rewrite Hg, Hu, Hw, Hc, Hj. cbn [Py.bind].
  fold status. split; [|split].
  - intros Hf Hk. rewrite Hf. simpl. by rewrite (Hnone _ _ Hk).
  - intros Hunch Hn Hk. rewrite Hn.
    destruct (truthy c) eqn:Hf; simpl.
    + by rewrite (Hnone _ _ Hk).
    + destruct (Hsome _ _ (Hunch eq_refl)) as [v ->]. simpl.
      rewrite Hnone; [done|]. by rewrite has_key_remove_ne.
  - intros Hunch Huntr Hk.
    assert (H1 : (if negb (truthy c)
                  then do ' (_, status0) <- dict_pop "unchanged" status;
                       Ok status0
                  else Ok status)
                 = Ok (if truthy c then status
                       else dict_remove "unchanged" status)).
    { destruct (truthy c); simpl; [done|].
      destruct (Hsome _ _ (Hunch eq_refl)) as [v ->]. reflexivity. }
    rewrite H1. cbn [Py.bind].
    set (s1 := if truthy c then status else dict_remove "unchanged" status).
    assert (H2 : (if is_str u "no"
                  then do ' (_, status0) <- dict_pop "untracked" s1; Ok status0
                  else Ok s1)
                 = Ok (if is_str u "no" then dict_remove "untracked" s1
                       else s1)).
    { destruct (is_str u "no"); [|done].
      assert (Hk1 : has_key "untracked" s1 = true).
      { subst s1. destruct (truthy c); [by apply Huntr|].
        rewrite has_key_remove_ne by done. by apply Huntr. }
      destruct (Hsome _ _ Hk1) as [v ->]. reflexivity. }
    rewrite H2. cbn [Py.bind].
    set (s2 := if is_str u "no" then dict_remove "untracked" s1 else s1).
    assert (Hk2 : has_key "git" s2 = false).
    { subst s2 s1. destruct (is_str u "no"), (truthy c);
        rewrite ?has_key_remove_ne by done; done. }
    destruct (truthy j).
    + by rewrite (Hnone _ _ Hk2).
    + simpl. unfold _show_status. by rewrite (Hnone _ _ Hk2).
Qed.

(** X5: a section that [CmdDataStatus.run] is to remove and that the status
    lacks makes it raise [KeyError] before anything is written. *)
Theorem run_missing_section (args : Namespace) (g u w c j : Value) :
  args !! "granular" = Some g ->
  args !! "untracked_files" = Some u ->
  args !! "with_dirs" = Some w ->
  args !! "unchanged" = Some c ->
  args !! "json" = Some j ->
  let status := data_status g u w in
  (truthy c = false -> has_key "unchanged" status = false ->
   run data_status args = ([], Raise (KeyError "unchanged")))
  /\ ((truthy c = false -> has_key "unchanged" status = true) ->
      is_str u "no" = true -> has_key "untracked" status = false ->
      run data_status args = ([], Raise (KeyError "untracked")))
  /\ ((truthy c = false -> has_key "unchanged" status = true) ->
      (is_str u "no" = true -> has_key "untracked" status = true) ->
      has_key "git" status = false ->
      run data_status args = ([], Raise (KeyError "git"))).
Proof. apply run_missing_key. Qed.

End RunFacts.

Lemma run_returns_zero_witness :
  run id (fun _ _ _ => example_status) (example_args true)
  = ([WriteJson [("committed",
                  States [("added", ["data.csv"]); ("modified", [])])]],
     Ok 0%Z)
  /\ 0%Z = 0%Z.
Proof.
  split; [vm_compute; reflexivity|].
  apply (run_returns_zero id (fun _ _ _ => example_status) (example_args true)
           [WriteJson [("committed",
                        States [("added", ["data.csv"]); ("modified", [])])]]).
  vm_compute. reflexivity.
Defined.



Lemma run_trims_sections_witness :
  run id (fun _ _ _ => example_status) (example_args true)
  = ([WriteJson
        (compact (dict_remove "git"
                    (trimmed (VBool false) (VStr "no") example_status)))],
     Ok 0%Z).
Proof.
  refine (proj1 (run_trims_sections id (fun _ _ _ => example_status)
                   (example_args true) (VBool false) (VStr "no")
                   (VBool false) (VBool false) (VBool true) _ _ _ _ _ _ _ _));
    try (intros _); vm_compute; reflexivity.
Defined.

Lemma run_missing_section_witness :
  run id (fun _ _ _ => [("git", GitInfo [])]) (example_args false)
  = ([], Raise (KeyError "unchanged")).
Proof.
  refine (proj1 (run_missing_section id (fun _ _ _ => [("git", GitInfo [])])
                   (example_args false) (VBool false) (VStr "no")
                   (VBool false) (VBool false) (VBool false) _ _ _ _ _) _ _);
    vm_compute; reflexivity.
Defined.

End DataFacts.

Module DataParserFacts.
Import Py Argparse ArgparseFacts CliCommonFacts Data DataProps DataFacts
       DataMore.

Lemma add_action_actions a p p' :
  add_action a p = Ok p' -> p_actions p' = p_actions p ++ [a].
Proof.
  unfold add_action. destruct (find _ _); [discriminate|].
  intros H. by inversion H.
Qed.

(** An action with a default puts its attribute in the namespace a parse
    starts from. *)
Lemma initial_namespace_has acts defs sp k :
  existsb (defaults_attr k) acts = true ->
  is_Some (initial_namespace acts defs sp !! k).
Proof.
  intros Hex. unfold initial_namespace.
  assert (Hf : forall ns : Namespace,
             is_Some (ns !! k) \/ existsb (defaults_attr k) acts = true ->
             is_Some (fold_left
                        (fun (ns : Namespace) a =>
                           match ns !! a_dest a, a_default a with
                           | None, Some v => <[a_dest a := v]> ns
                           | _, _ => ns
                           end) acts ns !! k)).
  { clear Hex. induction acts as [|a acts IH]; intros ns [H|H]; simpl in *;
      try done.
    - apply IH. left.
      destruct (ns !! a_dest a), (a_default a); try done.
      rewrite lookup_insert_is_Some'. by right.
    - apply orb_prop in H as [H|H]; [|by apply IH; right].
      apply IH. left. unfold defaults_attr in H.
      apply andb_prop in H as [Hd Hv]. apply String.eqb_eq in Hd. subst k.
      destruct (a_default a) as [v|]; [|discriminate].
      destruct (ns !! a_dest a) eqn:Hn; [by rewrite Hn|].
      rewrite lookup_insert_is_Some'. by left. }
  apply lookup_union_is_Some. left.
  set (ns1 := fold_left _ acts _).
  assert (H1 : is_Some (ns1 !! k)) by (apply Hf; by right).
  destruct sp as [[[d|] r]|]; try done.
  destruct (ns1 !! d); [done|].
  rewrite lookup_insert_is_Some'. by right.
Qed.

Lemma existsb_app_r {A} (f : A -> bool) l a :
  f a = true -> existsb f (l ++ [a]) = true.
Proof. intros H. rewrite existsb_app. simpl. by rewrite H, orb_true_r. Qed.

Lemma existsb_app_l {A} (f : A -> bool) l l' :
  existsb f l = true -> existsb f (l ++ l') = true.
Proof. intros H. by rewrite existsb_app, H. Qed.

Lemma set_defaults_keeps kvs p k :
  existsb (defaults_attr k) (p_actions p) = true ->
  existsb (defaults_attr k) (p_actions (set_defaults kvs p)) = true.
Proof.
  unfold set_defaults. simpl. induction (p_actions p) as [|a acts IH];
    simpl; [done|].
  intros H. apply orb_prop in H as [H|H]; [|by rewrite IH, orb_true_r].
  apply orb_true_intro. left.
  destruct (list_to_map (reverse kvs) !! a_dest a); [|done].
  unfold defaults_attr in *. simpl.
  apply andb_prop in H as [-> _]. done.
Qed.

(** The parser of [data status] gives each attribute that [run] reads a
    default. *)
Lemma data_status_parser_defaults parent q k :
  data_status_parser parent = Ok q -> In k run_attrs ->
  existsb (defaults_attr k) (p_actions q) = true.
Proof.
  unfold data_status_parser. intros H Hk.
  apply bind_ok in H as (p0 & _ & H).
  apply bind_ok in H as (p1 & H1 & H). apply bind_ok in H as (p2 & H2 & H).
  apply bind_ok in H as (p3 & H3 & H). apply bind_ok in H as (p4 & H4 & H).
  apply bind_ok in H as (p5 & H5 & H). apply bind_ok in H as (p6 & H6 & H).
  inversion H; subst q. apply set_defaults_keeps.
  cbv -[add_action] in H1, H2, H3, H4, H5, H6.
  apply add_action_actions in H1, H2, H3, H4, H5, H6.
  rewrite H6, H5, H4, H3, H2, H1.
  unfold run_attrs in Hk. simpl in Hk.
  destruct Hk as [<-|[<-|[<-|[<-|[<-|[]]]]]].
  - do 3 apply existsb_app_l. by apply existsb_app_r.
  - do 1 apply existsb_app_l. by apply existsb_app_r.
  - by apply existsb_app_r.
  - do 2 apply existsb_app_l. by apply existsb_app_r.
  - do 5 apply existsb_app_l. by apply existsb_app_r.
Qed.

Lemma process_status_error status ys e :
  _process_status status = (ys, Some e) -> e = TypeError.
Proof.
  revert ys. induction status as [|[stage v] status IH]; intros ys H;
    simpl in H; [discriminate|].
  destruct v as [l|d|[|]]; simpl in H.
  - destruct (_process_status status) as [ys' e'].
    destruct l; [|inversion H; subst]; eauto.
  - destruct (_process_status status) as [ys' e'].
    destruct (flatten d); [|inversion H; subst]; eauto.
  - eauto.
  - by inversion H.
Qed.

(** The exceptions [_show_status] can end with. *)
Lemma show_status_error cap status out e :
  _show_status cap status = (out, Raise e) ->
  e = KeyError "git" \/ e = TypeError \/ e = AttributeError "get".
Proof.
  unfold _show_status, dict_pop, git_get.
  destruct (dict_get "git" status) as [git_info|];
    [|intros H; inversion H; auto].
  destruct (_process_status _) as [pairs [e'|]] eqn:Hp.
  { apply process_status_error in Hp. intros H; inversion H; subst; auto. }
  destruct git_info as [l|d|flags]; cbv zeta;
    destruct (dict_of pairs); simpl;
    repeat match goal with
           | |- context [match ?x with _ => _ end] => destruct x
           end; intros H; inversion H; auto.
Qed.

Lemma pop_error {A} key (d : list (string * A)) e :
  (do ' (_, status) <- dict_pop key d; Ok status) = Raise e ->
  e = KeyError key.
Proof.
  unfold dict_pop. destruct (dict_get key d); simpl; intros H; by inversion H.
Qed.

Section Complete.
Variable unicode_capitalize : string -> string.
Variable data_status : Value -> Value -> Value -> DataStatus.

#[local] Abbreviation run := (Data.run unicode_capitalize).

(** X13: whatever its parent parser is and whatever it is given, a
    namespace the parser of [data status] returns has every attribute
    that [CmdDataStatus.run] reads, so [run] on it never stops at a
    missing argument: if it raises, it is on the status ([KeyError],
    [TypeError], or the [AttributeError] of a [git] entry without
    [get]). *)
Theorem parsed_args_complete (parent_parser q : Parser)
        (argv : list string) (ns : Namespace) (extras : list string) :
  data_status_parser parent_parser = Ok q ->
  parse_known_args q argv = Ok (ns, extras) ->
  Forall (fun k => is_ok (getattr ns k) = true) run_attrs /\
  forall out e,
    run data_status ns = (out, Raise e) ->
    (exists key, e = KeyError key) \/ e = TypeError \/
    e = AttributeError "get".
Proof.
  intros Hq Hparse.
  assert (Hattr : forall k, In k run_attrs -> exists v, ns !! k = Some v).
  { intros k Hk.
    apply (parse_known_args_keys q argv ns extras k Hparse).
    apply initial_namespace_has. by eapply data_status_parser_defaults. }
  split.
  - apply Forall_forall. intros k Hk. apply list_elem_of_In in Hk.
    destruct (Hattr k Hk) as [v Hv]. unfold getattr. by rewrite Hv.
  - intros out e. unfold run, getattr.
    destruct (Hattr "granular") as [g ->]; [simpl; tauto|].
    destruct (Hattr "untracked_files") as [u ->]; [simpl; tauto|].
    destruct (Hattr "with_dirs") as [w ->]; [simpl; tauto|].
    destruct (Hattr "unchanged") as [c ->]; [simpl; tauto|].
    destruct (Hattr "json") as [j ->]; [simpl; tauto|].
    cbn [Py.bind].
    destruct (if negb (truthy c) then _ else _) as [s1|e1] eqn:E1;
      cbn [Py.bind].
    2:{ intros H. inversion H; subst. left.
        destruct (negb (truthy c)); [|discriminate].
        apply pop_error in E1. eauto. }
    destruct (if is_str u "no" then _ else _) as [s2|e2] eqn:E2;
      cbn [Py.bind].
    2:{ intros H. inversion H; subst. left.
        destruct (is_str u "no"); [|discriminate].
        apply pop_error in E2. eauto. }
    destruct (truthy j).
    + destruct (dict_pop "git" s2) as [[gi s3]|e3] eqn:E3; cbn [Py.bind].
      * intros H. inversion H.
      * intros H. inversion H; subst. left. exists "git".
        unfold dict_pop in E3. destruct (dict_get "git" s2); [discriminate|].
        by inversion E3.
    + intros H. apply show_status_error in H. destruct H as [->|H]; eauto.
Qed.
End Complete.

Lemma parsed_args_complete_witness :
  Forall (fun k => is_ok (getattr (fst example_parsed) k) = true) run_attrs /\
  forall out e,
    run id (fun _ _ _ => example_status) (fst example_parsed)
    = (out, Raise e) ->
    (exists key, e = KeyError key) \/ e = TypeError \/
    e = AttributeError "get".
Proof.
  apply (parsed_args_complete id (fun _ _ _ => example_status) empty_parser
           example_parser ["--json"] (fst example_parsed)
           (snd example_parsed)).
  - vm_compute. reflexivity.
  - vm_compute. reflexivity.
Defined.

End DataParserFacts.

Module DataShowFacts.
Import Py Argparse Data DataProps DataFacts DataShow.

Lemma dict_set_fresh {A} k (v : A) d :
  ~ In k (map fst d) -> dict_set k v d = d ++ [(k, v)].
Proof.
  induction d as [|[k' v'] d IH]; simpl; [done|]. intros Hk.
  destruct (String.eqb_spec k k') as [->|Hne]; [tauto|].
  rewrite IH; [done | tauto].
Qed.

(** [dict] of pairs with distinct keys is the pairs. *)
Lemma dict_of_nodup {A} (pairs : list (string * A)) :
  NoDup (map fst pairs) -> dict_of pairs = pairs.
Proof.
  unfold dict_of. intros Hnd.
  assert (H : forall acc : list (string * A),
             NoDup (map fst (acc ++ pairs)) ->
             fold_left (fun d kv => dict_set (fst kv) (snd kv) d) pairs acc
             = acc ++ pairs).
  { clear Hnd. induction pairs as [|[k v] pairs IH]; intros acc Hnd; simpl.
    - by rewrite app_nil_r.
    - rewrite dict_set_fresh.
      + rewrite IH; rewrite <- app_assoc; [done | exact Hnd].
      + rewrite map_app in Hnd. apply NoDup_app in Hnd as (_ & Hd & _).
        intros Hin. apply (Hd k); [by apply list_elem_of_In|].
        simpl. by left. }
  by apply (H []).
Qed.

Lemma dict_remove_keys {A} key (d : list (string * A)) :
  NoDup (map fst d) -> NoDup (map fst (dict_remove key d)).
Proof.
  unfold dict_remove. induction d as [|[k v] d IH]; simpl; [done|].
  intros Hnd. apply NoDup_cons in Hnd as [Hk Hnd].
  destruct (negb (String.eqb key k)); simpl; [|by apply IH].
  apply NoDup_cons. split; [|by apply IH].
  intros Hin. apply Hk. apply list_elem_of_In in Hin.
  apply list_elem_of_In. apply in_map_iff in Hin as ([k' v'] & <- & Hin).
  apply filter_In in Hin as [Hin _]. apply in_map_iff. by exists (k', v').
Qed.

Lemma yielded_keys (status : DataStatus) :
  NoDup (map fst status) -> NoDup (map fst (omap yielded status)).
Proof.
  induction status as [|[stage v] status IH]; simpl; [done|].
  intros Hnd. apply NoDup_cons in Hnd as [Hk Hnd].
  destruct (yielded (stage, v)) as [[stage' items]|] eqn:Hy; [|by apply IH].
  apply yielded_spec in Hy as (-> & _). simpl.
  apply NoDup_cons. split; [|by apply IH].
  intros Hin. apply Hk. apply list_elem_of_In in Hin.
  apply list_elem_of_In. apply in_map_iff in Hin as ([k' i'] & <- & Hin).
  apply In_omap in Hin as ([k0 v0] & Hin & Hy).
  apply yielded_spec in Hy as (-> & _). apply in_map_iff. by exists (k0, v0).
Qed.

Lemma omap_nil {A B} (f : A -> option B) (l : list A) :
  omap f l = [] <-> Forall (fun x => f x = None) l.
Proof.
  induction l as [|x l IH]; simpl.
  - split; [constructor | done].
  - destruct (f x) eqn:Hx; split; intros H; try discriminate.
    + inversion H; congruence.
    + constructor; [done | by apply IH].
    + inversion H; subst. by apply IH.
Qed.

Lemma yielded_none stage v :
  yielded (stage, v) = None <-> ~ has_content v.
Proof.
  split.
  - intros Hy Hc. destruct (yielded_content stage v Hc) as [items Hi].
    congruence.
  - intros Hc. destruct (yielded (stage, v)) as [[stage' items]|] eqn:Hy;
      [|done].
    by apply yielded_spec in Hy as (_ & _ & _ & Hc').
Qed.

(** Every hint of the table has a text. *)
Lemma hint_not_empty stage hint :
  dict_get stage HINTS = Some hint -> String.eqb hint "" = false.
Proof.
  unfold HINTS. cbn [dict_get].
  repeat match goal with
         | |- context [String.eqb stage ?k] => destruct (String.eqb stage k)
         end; intros H; inversion H; reflexivity.
Qed.

Section Lines.
Variable cap : string -> string.

Lemma show_stage_lines idx stage items :
  show_stage cap idx stage items = section_lines cap idx (stage, items).
Proof.
  unfold show_stage, section_lines, header, label, hint_lines, color_of,
    item_texts, item_line. cbn [fst snd].
  f_equal. cbn [app]. f_equal.
  destruct (dict_get stage HINTS) as [hint|] eqn:Hh.
  - rewrite (hint_not_empty _ _ Hh). by destruct items.
  - by destruct items.
Qed.

Lemma show_stages_lines result : forall idx,
  show_stages cap idx result
  = concat (imap (fun i => section_lines cap (idx + i)) result).
Proof.
  induction result as [|[stage items] result IH]; intros idx; simpl; [done|].
  rewrite show_stage_lines, IH, Nat.add_0_r. f_equal. f_equal.
  apply imap_ext. intros i x _. simpl. f_equal. lia.
Qed.

Lemma length_append s t :
  String.length (s +:+ t) = String.length s + String.length t.
Proof. induction s as [|c s IH]; simpl; [done | by rewrite IH]. Qed.

Lemma last_char_differs (s : string) (c d : ascii) (t : string) :
  c <> d -> s +:+ String c "" <> t +:+ String d "".
Proof.
  intros Hcd H.
  assert (Hl : forall (a : ascii) (u : string),
             String.get (String.length u) (u +:+ String a "") = Some a).
  { intros a u. induction u as [|x u IHu]; simpl; [done | exact IHu]. }
  assert (Hlen : String.length s = String.length t).
  { apply (f_equal String.length) in H.
    rewrite !length_append in H. simpl in H. lia. }
  pose proof (Hl c s) as H1. rewrite H, Hlen, Hl in H1. congruence.
Qed.

(** No line of a section is one of the two lines for a status without
    changes. *)
Lemma section_not_no_changes idx section :
  Forall (fun ev => ~ is_no_changes ev) (section_lines cap idx section).
Proof.
  unfold section_lines. apply Forall_app. split.
  - destruct idx; [constructor|]. repeat constructor.
    intros [H|H]; discriminate.
  - constructor.
    + unfold header, is_no_changes.
      intros [H|H]; inversion H as [Ht];
        [apply (last_char_differs (label cap (fst section)) ":" "."
                  "No changes" ltac:(done) Ht)
        |apply (last_char_differs (label cap (fst section)) ":" "."
                  "No changes in an empty git repo" ltac:(done) Ht)].
    + apply Forall_app. split.
      * unfold hint_lines. destruct (dict_get _ HINTS) as [hint|];
          [|constructor].
        repeat constructor. unfold is_no_changes.
        intros [H|H]; inversion H; discriminate.
      * apply Forall_forall. intros ev Hin.
        apply list_elem_of_In, in_map_iff in Hin as (t & <- & _).
        intros [H|H]; discriminate.
Qed.
End Lines.

Lemma contains_char_app c s t :
  contains_char c (s +:+ t) = contains_char c s || contains_char c t.
Proof.
  induction s as [|d s IH]; simpl; [done|]. by rewrite IH, orb_assoc.
Qed.

Lemma expandtabs_tab_free s : forall col,
  tab_free s = true -> expandtabs_from 8 col s = s.
Proof.
  unfold tab_free. induction s as [|c s IH]; intros col H; [done|].
  cbn [contains_char] in H.
  apply negb_true_iff, orb_false_elim in H as [Hc Hs].
  cbn [expandtabs_from]. rewrite (Ascii.eqb_sym c tab), Hc.
  rewrite IH; [done|]. by rewrite Hs.
Qed.

Lemma item_line_plain color text :
  tab_free color = true -> tab_free text = true ->
  item_line color text = plain_item_line color text.
Proof.
  intros Hc Ht. unfold item_line, plain_item_line, expandtabs.
  cbn [expandtabs_from]. rewrite Ascii.eqb_refl.
  change (8 - 0 mod 8) with 8. cbn [spaces Nat.add].
  rewrite expandtabs_tab_free; [reflexivity|].
  unfold tab_free in *. rewrite !contains_char_app.
  apply negb_true_iff in Hc, Ht. rewrite Hc, Ht. reflexivity.
Qed.

(** [_show_status] in closed form. *)
Lemma show_status_closed (cap : string -> string) (status : DataStatus)
      (flags : list (string * bool)) :
  NoDup (map fst status) ->
  dict_get "git" status = Some (GitInfo flags) ->
  no_flags (dict_remove "git" status) = true ->
  let shown := omap yielded (dict_remove "git" status) in
  _show_status cap status =
  (match shown with
   | [] => [no_changes_line flags]
   | _ :: _ => concat (imap (section_lines cap) shown)
   end
   ++ (if flag flags "is_dirty"
       then [Write (dirty_line (match shown with [] => false | _ => true end))
                   true]
       else []),
   Ok 0%Z).
Proof.
  intros Hnd Hgit Hflags shown.
  unfold _show_status. rewrite dict_pop_remove, Hgit.
  rewrite process_status_plain by done.
  rewrite dict_of_nodup by (by apply yielded_keys, dict_remove_keys).
  fold shown. rewrite show_stages_lines. cbn [Nat.add].
  unfold git_get, flag, no_changes_line, flag.
  destruct shown as [|r rs]; cbn [app];
    destruct (from_option id false (dict_get "is_empty" flags));
    destruct (from_option id false (dict_get "is_dirty" flags));
    rewrite ?app_nil_r; reflexivity.
Qed.

Lemma shown_nil (status : DataStatus) :
  omap yielded status = [] <->
  Forall (fun kv : string * StatusValue => ~ has_content (snd kv)) status.
Proof.
  rewrite omap_nil. apply Forall_iff. intros [stage v]. apply yielded_none.
Qed.

(** X14: what [_show_status] writes for a status with a dict of flags
    under [git] and lists or dicts elsewhere.  When no other section has
    anything to show, and only then, it is the line [No changes.], or
    its variant for an empty repository.  Otherwise it is, for each
    section that has something and in their order, an empty line unless
    the section is the first, the header, the hint if there is one and a
    styled line per item, and neither of the two lines for no changes.
    A dirty repository adds one closing line, which speaks of other
    changes exactly when sections were shown.  The exit code is 0.  An
    item without a tab is written after eight spaces, between its colour
    tag and the closing tag. *)
Theorem show_status_output (cap : string -> string) (status : DataStatus)
        (flags : list (string * bool)) :
  NoDup (map fst status) ->
  dict_get "git" status = Some (GitInfo flags) ->
  no_flags (dict_remove "git" status) = true ->
  let shown := omap yielded (dict_remove "git" status) in
  let sections := concat (imap (section_lines cap) shown) in
  _show_status cap status =
  (match shown with
   | [] => [no_changes_line flags]
   | _ :: _ => sections
   end
   ++ (if flag flags "is_dirty"
       then [Write (dirty_line (match shown with [] => false | _ => true end))
                   true]
       else []),
   Ok 0%Z) /\
  (shown = [] <->
   Forall (fun kv : string * StatusValue => ~ has_content (snd kv))
          (dict_remove "git" status)) /\
  Forall (fun ev => ~ is_no_changes ev) sections /\
  (forall color text,
      tab_free color = true -> tab_free text = true ->
      item_line color text = plain_item_line color text).
Proof.
  intros Hnd Hgit Hflags shown sections. split; [|split; [|split]].
  - by apply show_status_closed.
  - apply shown_nil.
  - unfold sections. apply Forall_concat. apply Forall_forall.
    intros l Hin. apply elem_of_lookup_imap in Hin as (i & x & -> & _).
    apply section_not_no_changes.
  - apply item_line_plain.
Qed.

Lemma show_status_output_witness :
  _show_status id changed_status =
  ([Write "DVC committed changes:" false;
    Write "  (git commit the corresponding dvc files to update the repo)"
          false;
    plain_item_line "green" "added: data.csv";
    Write "" false;
    Write "Untracked files:" false;
    Write ("  (use " +:+ dquote +:+ "git add <file> ..." +:+ dquote
           +:+ " or dvc add <file>..." +:+ dquote
           +:+ " to commit to git or to dvc)") false;
    plain_item_line "cyan" "notes.txt";
    plain_item_line "cyan" "plots";
    Write (dirty_line true) true], Ok 0%Z).
Proof.
  refine (eq_trans
            (proj1 (show_status_output id changed_status
                      [("is_empty", false); ("is_dirty", true)] _ _ _)) _).
  - exact (bool_decide_eq_true_1 (NoDup (map fst changed_status)) eq_refl).
  - reflexivity.
  - reflexivity.
  - vm_compute. reflexivity.
Defined.

End DataShowFacts.
Module ArgparseOptionFacts.
Import Py Argparse ArgparseShapes ArgparseFacts CliProps CliFacts
       CliOptionsFacts CliCommonFacts.

Lemma add_action_spec a p p' :
  add_action a p = Ok p' ->
  p' = MkParser (p_actions p ++ [a]) (p_defaults p) (p_subparsers p)
                (p_name_parser_map p) /\
  forallb (fun o => negb (mem o (all_option_strings (p_actions p))))
          (a_option_strings a) = true.
Proof.
  unfold add_action.
  destruct (find _ _) eqn:Hf; [discriminate|]. intros H. inversion H.
  split; [reflexivity|]. clear H.
  induction (a_option_strings a) as [|o os IH]; simpl in *; [done|].
  destruct (mem o (all_option_strings (p_actions p))); [discriminate|].
  simpl. by apply IH.
Qed.

Lemma add_actions_spec acts p p' :
  add_actions acts p = Ok p' ->
  p' = MkParser (p_actions p ++ acts) (p_defaults p) (p_subparsers p)
                (p_name_parser_map p).
Proof.
  revert p. induction acts as [|a acts IH]; intros p H; simpl in H.
  - inversion H. rewrite app_nil_r. by destruct p'.
  - apply bind_ok in H as (p1 & H1 & H). apply add_action_spec in H1 as [-> _].
    apply IH in H. rewrite H. simpl. by rewrite <- app_assoc.
Qed.

(** [ArgumentParser(parents=[parent])]: the help option, then the actions
    of the parent, and the defaults of the parent. *)
Lemma ArgumentParser_parent parent p :
  ArgumentParser [parent] true = Ok p ->
  p_subparsers parent = None /\
  p = MkParser (help_action :: p_actions parent) (p_defaults parent ∪ ∅)
               None [].
Proof.
  unfold ArgumentParser. intros H. apply bind_ok in H as (p0 & H0 & H).
  assert (p0 = MkParser [help_action] ∅ None []) as ->
    by (vm_compute in H0; by inversion H0).
  simpl in H. destruct (p_subparsers parent); [discriminate|].
  apply bind_ok in H as (p1 & H1 & H). apply add_actions_spec in H1.
  subst p1. simpl in H. split; [done|]. by inversion H.
Qed.

Lemma dict_get_map_hit {A} o (x : A) os tl :
  mem o os = true ->
  dict_get o (map (fun o' => (o', x)) os ++ tl) = Some x.
Proof.
  induction os as [|o' os IH]; simpl; [done|].
  destruct (String.eqb o o'); [done | exact IH].
Qed.

Lemma dict_get_map_miss {A} o (x : A) os tl :
  mem o os = false ->
  dict_get o (map (fun o' => (o', x)) os ++ tl) = dict_get o tl.
Proof.
  induction os as [|o' os IH]; simpl; [done|].
  destruct (String.eqb o o'); [done | exact IH].
Qed.

(** Where an option string leads: to the first action that has it. *)
Lemma option_table_lookup l1 a l2 o :
  mem o (all_option_strings l1) = false ->
  mem o (a_option_strings a) = true ->
  dict_get o (option_table (l1 ++ a :: l2)) = Some (length l1, a).
Proof.
  unfold option_table. intros H1 Ha.
  assert (Hn : forall n,
             dict_get o
               (flat_map (fun ia : nat * Action =>
                            map (fun o' => (o', ia))
                                (a_option_strings (snd ia)))
                  (combine (seq n (length (l1 ++ a :: l2))) (l1 ++ a :: l2)))
             = Some (n + length l1, a)).
  { induction l1 as [|b l1 IH]; intros n; simpl.
    - rewrite Nat.add_0_r. by apply dict_get_map_hit.
    - unfold all_option_strings, mem in H1. simpl in H1.
      rewrite existsb_app in H1. apply orb_false_elim in H1 as [Hb H1].
      rewrite dict_get_map_miss by exact Hb.
      rewrite (IH H1 (S n)). f_equal. f_equal. lia. }
  exact (Hn 0).
Qed.

(** One option and its arguments, all of them plain, as the whole command
    line of a parser that has options only. *)
Lemma parse_known_with_one_option sub acts defs o j b args :
  no_positionals acts = true -> quiet_end acts = true ->
  is_flag o = true ->
  dict_get o (option_table acts) = Some (j, b) ->
  forallb (fun t => negb (is_flag t)) args = true ->
  match_argument b (map snd (plain_toks args)) = Ok (length args) ->
  parse_known_with sub acts defs None (o :: args) =
  do st' <- take_action j b args
              (MkPState (initial_namespace acts defs None) [] false [] [] []);
  Ok (st_ns st', []).
Proof.
  intros Hnp Hq Ho Hget Hargs Hm. unfold parse_known_with.
  destruct (quiet_end_split _ Hq) as [Hreq Hlate].
  destruct (CliTargetsFacts.classify_plain (option_table acts) args Hargs)
    as (toks & Hcl & Hcomb).
  cbn [classify]. rewrite (parse_optional_known _ _ _ Ho Hget), Hcl.
  cbn [Py.bind combine length]. rewrite Hcomb.
  rewrite (positionals_of_none _ _ Hnp).
  rewrite consume_option_step. unfold consume_optional. rewrite Hm.
  cbn [Py.bind]. rewrite map_fst_plain, firstn_all.
  destruct (take_action j b args _) as [st'|e] eqn:Ht; [|reflexivity].
  cbn [Py.bind].
  replace (length args) with (length (plain_toks args))
    by (unfold plain_toks; apply length_map).
  rewrite drop_all.
  assert (Hp : st_pos st' = [] /\ st_extras st' = [] /\ st_sub_extras st' = []).
  { unfold take_action in Ht. apply bind_ok in Ht as (v & _ & Ht).
    apply bind_ok in Ht as (ns & _ & Ht). by inversion Ht. }
  destruct Hp as (Hp & He & Hs).
  destruct args as [|t args'].
  - simpl length. rewrite consume_nil by done. cbn [Py.bind].
    rewrite late_conversion_false, quiet_end_missing_leaf by done.
    simpl. by rewrite He, Hs.
  - simpl length. rewrite consume_nil by done. cbn [Py.bind].
    rewrite late_conversion_false, quiet_end_missing_leaf by done.
    simpl. by rewrite He, Hs.
Qed.

(** A parser that has options only, given nothing: its defaults. *)
Lemma parse_known_with_nothing sub acts defs :
  no_positionals acts = true -> quiet_end acts = true ->
  parse_known_with sub acts defs None [] =
  Ok (initial_namespace acts defs None, []).
Proof.
  intros Hnp Hq. unfold parse_known_with.
  destruct (quiet_end_split _ Hq) as [Hreq Hlate].
  cbn [classify Py.bind combine length].
  rewrite (positionals_of_none _ _ Hnp).
  rewrite consume_nil by done. cbn [Py.bind].
  rewrite late_conversion_false, quiet_end_missing_leaf by done.
  reflexivity.
Qed.

(** The default of the first action of an attribute is its value in the
    namespace a parse starts from. *)
Lemma initial_namespace_first l1 a l2 defs v :
  forallb (fun b => negb (String.eqb (a_dest b) (a_dest a))) l1 = true ->
  a_default a = Some v ->
  initial_namespace (l1 ++ a :: l2) defs None !! a_dest a = Some v.
Proof.
  intros H1 Ha. unfold initial_namespace.
  apply lookup_union_Some_l.
  assert (Hkeep : forall (l : list Action) (ns : Namespace),
             ns !! a_dest a = Some v ->
             fold_left
               (fun (ns : Namespace) b =>
                  match ns !! a_dest b, a_default b with
                  | None, Some w => <[a_dest b := w]> ns
                  | _, _ => ns
                  end) l ns !! a_dest a = Some v).
  { induction l as [|b l IH]; intros ns Hns; simpl; [done|].
    apply IH. destruct (ns !! a_dest b) eqn:Hb, (a_default b); try done.
    rewrite lookup_insert_ne; [done|]. intros Heq. congruence. }
  rewrite fold_left_app. simpl.
  assert (Hskip : forall (ns : Namespace),
             ns !! a_dest a = None ->
             fold_left
               (fun (ns : Namespace) b =>
                  match ns !! a_dest b, a_default b with
                  | None, Some w => <[a_dest b := w]> ns
                  | _, _ => ns
                  end) l1 ns !! a_dest a = None).
  { clear Hkeep. induction l1 as [|b l1 IH]; intros ns Hns; simpl; [done|].
    simpl in H1. apply andb_prop in H1 as [Hb H1].
    apply negb_true_iff, String.eqb_neq in Hb.
    apply (IH H1). destruct (ns !! a_dest b), (a_default b); try done.
    by rewrite lookup_insert_ne. }
  apply Hkeep. rewrite (Hskip ∅) by apply lookup_empty. rewrite Ha.
  apply lookup_insert_eq.
Qed.

End ArgparseOptionFacts.

Module DataOptionFacts.
Import Py Argparse ArgparseShapes ArgparseFacts CliProps CliFacts
       CliOptionsFacts CliCommonFacts ArgparseOptionFacts Data DataProps
       DataMore DataOptions.

Lemma with_func_fields a :
  a_option_strings (with_func a) = a_option_strings a /\
  a_dest (with_func a) = a_dest a /\ a_required (with_func a) = a_required a /\
  a_type (with_func a) = a_type a /\
  (a_dest a <> "func" -> with_func a = a) /\
  (forall s, a_default (with_func a) = Some (VStr s) ->
             a_default a = Some (VStr s)).
Proof.
  unfold with_func. destruct (String.eqb_spec (a_dest a) "func") as [->|Hne].
  - rewrite lookup_singleton_eq. simpl. repeat split; try done.
  - rewrite lookup_singleton_ne by done. repeat split; done.
Qed.

Lemma no_clash l l' o :
  negb (mem o (all_option_strings (l ++ l'))) && true = true ->
  negb (mem o (all_option_strings l)) = true.
Proof.
  rewrite andb_true_r. unfold all_option_strings, mem.
  rewrite flat_map_app, existsb_app. intros H.
  apply negb_true_iff, orb_false_elim in H as [-> _]. reflexivity.
Qed.

(** The parser [add_parser] builds for [data status] on a parent. *)
Lemma data_status_parser_spec parent q :
  data_status_parser parent = Ok q ->
  p_subparsers q = None /\
  p_actions q
  = map with_func (help_action :: p_actions parent ++ status_actions) /\
  p_defaults q = {[ "func" := CmdDataStatus ]} ∪ (p_defaults parent ∪ ∅) /\
  forallb (fun o => negb (mem o (all_option_strings
                                   (help_action :: p_actions parent))))
          (all_option_strings status_actions) = true.
Proof.
  unfold data_status_parser. intros H.
  apply bind_ok in H as (p0 & H0 & H).
  apply bind_ok in H as (p1 & H1 & H). apply bind_ok in H as (p2 & H2 & H).
  apply bind_ok in H as (p3 & H3 & H). apply bind_ok in H as (p4 & H4 & H).
  apply bind_ok in H as (p5 & H5 & H). apply bind_ok in H as (p6 & H6 & H).
  cbv -[add_action] in H1, H2, H3, H4, H5, H6.
  apply ArgumentParser_parent in H0 as [Hsp ->].
  apply add_action_spec in H1 as [-> C1]. apply add_action_spec in H2 as [-> C2].
  apply add_action_spec in H3 as [-> C3]. apply add_action_spec in H4 as [-> C4].
  apply add_action_spec in H5 as [-> C5]. apply add_action_spec in H6 as [-> C6].
  inversion H; subst q. clear H.
  cbn [p_actions p_defaults p_subparsers p_name_parser_map a_option_strings
       forallb] in *.
  rewrite <- !app_assoc in *. cbn [app] in *.
  repeat split.
  change (all_option_strings status_actions)
    with ["--json"; "--show-json"; "--granular"; "--unchanged";
          "--untracked-files"; "--with-dirs"].
  cbn [forallb].
  rewrite (no_clash (help_action :: p_actions parent) [] _) by (by rewrite app_nil_r).
  rewrite (no_clash (help_action :: p_actions parent) _ _ C2).
  rewrite (no_clash (help_action :: p_actions parent) _ _ C3).
  rewrite (no_clash (help_action :: p_actions parent) _ _ C4).
  rewrite (no_clash (help_action :: p_actions parent) _ _ C5).
  rewrite (no_clash (help_action :: p_actions parent) _ _ C6).
  reflexivity.
Qed.

Lemma all_option_strings_with_func l :
  all_option_strings (map with_func l) = all_option_strings l.
Proof.
  unfold all_option_strings. induction l as [|a l IH]; simpl; [done|].
  destruct (with_func_fields a) as [-> _]. by rewrite IH.
Qed.

Lemma no_positionals_with_func l :
  no_positionals (map with_func l) = no_positionals l.
Proof.
  unfold no_positionals. induction l as [|a l IH]; simpl; [done|].
  destruct (with_func_fields a) as [-> _]. by rewrite IH.
Qed.

Lemma quiet_end_with_func l :
  quiet_end l = true -> quiet_end (map with_func l) = true.
Proof.
  unfold quiet_end. induction l as [|a l IH]; simpl; [done|].
  intros H. apply andb_prop in H as [Ha H]. rewrite (IH H), andb_true_r.
  destruct (with_func_fields a) as (_ & _ & -> & -> & _ & Hd).
  apply andb_prop in Ha as [-> Ht]. simpl.
  destruct (a_type a); [done|].
  destruct (a_default (with_func a)) as [[]|] eqn:E; try done.
  by rewrite (Hd _ eq_refl) in Ht.
Qed.

Lemma status_acts_shape parent :
  unrelated_parent parent = true ->
  no_positionals
    (map with_func (help_action :: p_actions parent ++ status_actions)) = true /\
  quiet_end
    (map with_func (help_action :: p_actions parent ++ status_actions)) = true.
Proof.
  unfold unrelated_parent. intros H.
  apply andb_prop in H as [H _]. apply andb_prop in H as [Hnp Hq]. split.
  - rewrite no_positionals_with_func. unfold no_positionals in *.
    cbn [forallb]. rewrite forallb_app, Hnp. reflexivity.
  - apply quiet_end_with_func. unfold quiet_end in *.
    cbn [forallb]. rewrite forallb_app, Hq. reflexivity.
Qed.

(** With nothing given, the parser of [data status] returns the namespace
    it starts from. *)
Lemma status_parse_nothing parent q :
  unrelated_parent parent = true -> data_status_parser parent = Ok q ->
  Argparse.parse_args q [] =
  Ok (initial_namespace
        (map with_func (help_action :: p_actions parent ++ status_actions))
        (p_defaults q) None).
Proof.
  intros Hp Hq.
  destruct (data_status_parser_spec _ _ Hq) as (Hsp & Hacts & _ & _).
  destruct (status_acts_shape parent Hp) as [Hnp Hqe].
  unfold Argparse.parse_args. rewrite parse_known_args_unfold, Hsp, Hacts.
  by rewrite parse_known_with_nothing.
Qed.

(** One option of [data status] and its plain arguments, as the whole
    command line. *)
Lemma status_parse_option parent q pre a post o args :
  unrelated_parent parent = true -> data_status_parser parent = Ok q ->
  status_actions = pre ++ a :: post ->
  mem o (all_option_strings pre) = false ->
  mem o (a_option_strings a) = true ->
  with_func a = a -> is_flag o = true ->
  forallb (fun t => negb (is_flag t)) args = true ->
  match_argument a (map snd (plain_toks args)) = Ok (length args) ->
  Argparse.parse_args q (o :: args) =
  do st' <- take_action (length (help_action :: p_actions parent ++ pre)) a args
              (MkPState
                 (initial_namespace
                    (map with_func
                         (help_action :: p_actions parent ++ status_actions))
                    (p_defaults q) None) [] false [] [] []);
  Ok (st_ns st').
Proof.
  intros Hp Hq Hs Hpre Ho Hw Hflag Hargs Hm.
  destruct (data_status_parser_spec _ _ Hq) as (Hsp & Hacts & _ & Hc).
  destruct (status_acts_shape parent Hp) as [Hnp Hqe].
  assert (Hbase : mem o (all_option_strings (help_action :: p_actions parent))
                  = false).
  { apply negb_true_iff. rewrite forallb_forall in Hc. apply Hc.
    unfold all_option_strings. apply in_flat_map. exists a. split.
    - rewrite Hs. apply in_or_app. right. by left.
    - by apply mem_true_In. }
  unfold Argparse.parse_args. rewrite parse_known_args_unfold, Hsp, Hacts.
  rewrite (parse_known_with_one_option _ _ _ o
             (length (help_action :: p_actions parent ++ pre)) a args);
    try done.
  - by destruct (take_action _ a args _).
  - rewrite Hs.
    change (help_action :: p_actions parent ++ pre ++ a :: post)
      with ((help_action :: p_actions parent) ++ pre ++ a :: post).
    rewrite app_assoc, map_app. cbn [map]. rewrite Hw.
    change (help_action :: p_actions parent ++ pre)
      with ((help_action :: p_actions parent) ++ pre).
    rewrite <- (length_map with_func).
    apply option_table_lookup; [|done].
    rewrite all_option_strings_with_func. unfold all_option_strings, mem.
    rewrite flat_map_app, existsb_app.
    unfold all_option_strings, mem in Hbase, Hpre. by rewrite Hbase, Hpre.
Qed.

(** The value an attribute of [data status] starts with. *)
Lemma status_default parent defs pre a post v :
  unrelated_parent parent = true ->
  status_actions = pre ++ a :: post ->
  mem (a_dest a) run_attrs = true ->
  forallb (fun b => negb (String.eqb (a_dest b) (a_dest a))) pre = true ->
  with_func a = a -> a_default a = Some v ->
  initial_namespace
    (map with_func (help_action :: p_actions parent ++ status_actions))
    defs None !! a_dest a = Some v.
Proof.
  intros Hp Hs Hin Hpre Hw Hv. rewrite Hs.
  change (help_action :: p_actions parent ++ pre ++ a :: post)
    with ((help_action :: p_actions parent) ++ pre ++ a :: post).
  rewrite app_assoc, map_app. cbn [map]. rewrite Hw.
  apply initial_namespace_first; [|done].
  rewrite forallb_forall. intros b Hb. apply in_map_iff in Hb as (b' & <- & Hb).
  destruct (with_func_fields b') as (_ & -> & _).
  apply in_app_or in Hb as [[<-|Hb]|Hb].
  - apply negb_true_iff, String.eqb_neq. intros Heq. rewrite <- Heq in Hin.
    discriminate.
  - unfold unrelated_parent in Hp. apply andb_prop in Hp as [_ Hd].
    rewrite forallb_forall in Hd. specialize (Hd _ Hb).
    apply negb_true_iff, String.eqb_neq. intros Heq. rewrite Heq, Hin in Hd.
    discriminate.
  - rewrite forallb_forall in Hpre. by apply Hpre.
Qed.

Lemma take_flag i o dest st :
  take_action i (flag_action o dest) [] st =
  Ok (with_ns (<[dest := VBool true]> (st_ns st)) (with_seen i st)).
Proof. reflexivity. Qed.

Lemma take_untracked_nil i st :
  take_action i untracked_action [] st =
  Ok (with_ns (<["untracked_files" := VStr "all"]> (st_ns st))
              (with_seen i st)).
Proof. reflexivity. Qed.

Lemma take_untracked_one i v st :
  take_action i untracked_action [v] st =
  if mem v ["no"; "all"]
  then Ok (with_ns (<["untracked_files" := VStr v]> (st_ns st))
                   (with_seen i st))
  else error (invalid_choice v).
Proof.
  unfold take_action, get_values, get_value, check_value.
  cbn [untracked_action a_nargs a_type a_choices a_option_strings Py.bind].
  destruct (mem v ["no"; "all"]); reflexivity.
Qed.

(** X15: the options of [data status], on any parent parser that has
    options only and no argument for an attribute of [data status].
    Given nothing, every attribute has its default: [False], and [no] for
    [untracked_files].  Each flag sets its attribute to [True];
    [--show-json] sets [json], as [--json] does.  [--untracked-files]
    alone stores [all]; followed by a word it stores the word when that is
    [no] or [all], and otherwise the parse ends with a usage error for an
    invalid choice. *)
Theorem status_options (parent q : Parser) :
  unrelated_parent parent = true ->
  data_status_parser parent = Ok q ->
  Forall (fun kv => attr (Argparse.parse_args q []) (fst kv) = Some (snd kv))
         status_defaults /\
  Forall (fun od => attr (Argparse.parse_args q [fst od]) (snd od)
                    = Some (VBool true)) status_flags /\
  attr (Argparse.parse_args q ["--untracked-files"]) "untracked_files"
  = Some (VStr "all") /\
  forall v, is_flag v = false ->
    if mem v ["no"; "all"]
    then attr (Argparse.parse_args q ["--untracked-files"; v])
              "untracked_files" = Some (VStr v)
    else Argparse.parse_args q ["--untracked-files"; v]
         = error (invalid_choice v).
Proof.
  intros Hp Hq.
  pose (f := flag_action).
  pose (j := f "--json" "json"). pose (sj := f "--show-json" "json").
  pose (g := f "--granular" "granular").
  pose (u := f "--unchanged" "unchanged").
  pose (w := f "--with-dirs" "with_dirs").
  split; [|split; [|split]].
  - rewrite (status_parse_nothing parent q Hp Hq). cbn [attr].
    repeat constructor; cbn [fst snd].
    + by apply (status_default parent _ [j; sj] g [u; untracked_action; w]).
    + by apply (status_default parent _ [j; sj; g; u] untracked_action [w]).
    + by apply (status_default parent _ [j; sj; g; u; untracked_action] w []).
    + by apply (status_default parent _ [j; sj; g] u [untracked_action; w]).
    + by apply (status_default parent _ [] j [sj; g; u; untracked_action; w]).
  - repeat constructor; cbn [fst snd].
    + rewrite (status_parse_option parent q [] j
                 [sj; g; u; untracked_action; w]) by done.
      unfold j, f. rewrite take_flag. apply lookup_insert_eq.
    + rewrite (status_parse_option parent q [j] sj
                 [g; u; untracked_action; w]) by done.
      unfold sj, f. rewrite take_flag. apply lookup_insert_eq.
    + rewrite (status_parse_option parent q [j; sj] g
                 [u; untracked_action; w]) by done.
      unfold g, f. rewrite take_flag. apply lookup_insert_eq.
    + rewrite (status_parse_option parent q [j; sj; g] u
                 [untracked_action; w]) by done.
      unfold u, f. rewrite take_flag. apply lookup_insert_eq.
    + rewrite (status_parse_option parent q [j; sj; g; u; untracked_action] w
                 []) by done.
      unfold w, f. rewrite take_flag. apply lookup_insert_eq.
  - rewrite (status_parse_option parent q [j; sj; g; u] untracked_action [w])
      by done.
    rewrite take_untracked_nil. apply lookup_insert_eq.
  - intros v Hv.
    rewrite (status_parse_option parent q [j; sj; g; u] untracked_action [w]
               "--untracked-files" [v]);
      try done; [|by cbn [forallb]; rewrite Hv].
    rewrite take_untracked_one.
    destruct (mem v ["no"; "all"]); [apply lookup_insert_eq | reflexivity].
Qed.

Lemma status_options_witness :
  attr (Argparse.parse_args example_parser ["--untracked-files"])
       "untracked_files" = Some (VStr "all").
Proof.
  apply (status_options empty_parser example_parser);
    vm_compute; reflexivity.
Defined.

End DataOptionFacts.


(** ** The exit code and the removals of [CmdDataStatus.run] *)

Module DataRunFacts.
Import Py Argparse ArgparseFacts CliCommonFacts Data DataProps DataFacts
       DataMore DataShow DataShowFacts DataOptions DataParserFacts
       DataOptionFacts.

Section RunClaims.
Variable unicode_capitalize : string -> string.
Variable data_status : Value -> Value -> Value -> DataStatus.

#[local] Abbreviation run := (Data.run unicode_capitalize).
#[local] Abbreviation _show_status := (Data._show_status unicode_capitalize).






End RunClaims.




End DataRunFacts.
